(** * MangaPark downloader: a shallow embedding of the download and
    conversion pipeline of [mangapark.py] and of the job runner of
    [gui/app.py], with the properties of the specification proved (or
    refuted) against it; then of the chapter listing, of the chapter
    selection of the command line and of the output redirection of the GUI,
    with further properties of the code.

    Conventions of the embedding:
    - Python [int] is [Z] (or [nat] for indices and lengths), [bytes] is
      [list Byte.byte], [str] is [string] (8-bit characters);
    - Python [float] is IEEE-754 binary64, taken from the standard library's
      executable specification [SpecFloat] ([prec = 53], [emax = 1024]);
    - an operation that may raise returns a [result]; [try ... except
      Exception] is [try_except];
    - [print] and the other diagnostics have no influence on control flow and
      are left out, except in the job runner where the log is observable. *)

From Stdlib Require Import ZArith Lia Bool Ascii String List SpecFloat.
From Stdlib Require Import Reals Lra Psatz.
From stdpp Require Import base option list strings gmap pretty sorting.

Open Scope Z_scope.

(** ** Python exceptions and the result monad *)

Inductive exception : Type :=
  | RequestException      (* requests: transport failure *)
  | HTTPError             (* requests: raise_for_status *)
  | UnidentifiedImageError (* PIL: Image.open on undecodable data *)
  | ZeroDivisionError
  | OverflowError
  | ValueError
  | OSError.              (* open, write, listdir, zipfile, rmtree, img2pdf *)

Inductive result (A : Type) : Type :=
  | Ok (a : A)
  | Raise (e : exception).
Arguments Ok {A} a.
Arguments Raise {A} e.

Definition rbind {A B} (r : result A) (k : A -> result B) : result B :=
  match r with
  | Ok a => k a
  | Raise e => Raise e
  end.

(** [try: body  except Exception as e: handler e]: every exception of the
    model derives from [Exception]. *)
Definition try_except {A} (body : result A) (handler : exception -> result A)
  : result A :=
  match body with
  | Ok a => Ok a
  | Raise e => handler e
  end.

Global Instance result_ret : MRet result := fun A a => Ok a.
Global Instance result_bind : MBind result := fun A B k r => rbind r k.

Definition bytes := list Byte.byte.

(** ** Python floats *)

Module Float.
Definition prec : Z := 53.
Definition emax : Z := 1024.

Definition float := spec_float.

(** An integer operand, exactly. *)
Definition of_Z_exact (n : Z) : spec_float :=
  match n with
  | Z0 => S754_zero false
  | Zpos p => S754_finite false p 0
  | Zneg p => S754_finite true p 0
  end.

(** [float(n)], correctly rounded, in canonical form. *)
Definition of_int (n : Z) : spec_float := binary_normalize prec emax n 0 false.

(** [a / b] on integers: CPython's true division returns the correctly
    rounded quotient of the exact operands, raises [ZeroDivisionError] on a
    zero divisor and [OverflowError] when the quotient exceeds the float
    range. [SFdiv] rounds the exact quotient of its two mantissas once. *)
Definition truediv (a b : Z) : result float :=
  if b =? 0 then Raise ZeroDivisionError
  else match SFdiv prec emax (of_Z_exact a) (of_Z_exact b) with
       | S754_infinity _ => Raise OverflowError
       | S754_nan => Raise OverflowError
       | q => Ok q
       end.

(** [x * n] with [n] an integer: [n] is converted first. *)
Definition mul_int (x : float) (n : Z) : float := SFmul prec emax x (of_int n).

Definition ltb (x y : float) : bool := SFltb x y.
Definition leb (x y : float) : bool := SFleb x y.

(** The builtin [max(x, y)]: the first argument unless the second is
    strictly greater. *)
Definition max (x y : float) : float := if ltb x y then y else x.

(** [int(x)]: truncation towards zero; infinities and NaN raise. *)
Definition to_int (x : float) : result Z :=
  match x with
  | S754_zero _ => Ok 0
  | S754_finite s m e =>
      let a := match e with
               | Z0 => Zpos m
               | Zpos _ => Z.shiftl (Zpos m) e
               | Zneg _ => Z.shiftr (Zpos m) (- e)
               end in
      Ok (if s then - a else a)
  | S754_infinity _ => Raise OverflowError
  | S754_nan => Raise ValueError
  end.

(** The literal [1.2]: [0x1.3333333333333p+0]. *)
Definition lit_1_2 : float := S754_finite false 5404319552844595 (-52).
End Float.

(** ** ImageValidator: [is_valid_manga_image] *)

Section ImageValidator.
(** [Image.open(io.BytesIO(img_data)).size]: the decoder of the imaging
    library, which raises on a buffer it cannot identify. *)
Variable Image_open_size : bytes -> result (Z * Z).

Definition len (img_data : bytes) : Z := Z.of_nat (length img_data).

Definition aspect_ratio_of (width height : Z) : result Float.float :=
  r1 ← Float.truediv width height;
  r2 ← Float.truediv height width;
  Ok (Float.max r1 r2).

Definition img_size_kb_of (img_data : bytes) : result Float.float :=
  Float.truediv (len img_data) 1024.

(** The body of the [try] block. *)
Definition is_valid_manga_image_body (img_data : bytes)
    (min_width min_height : Z) (min_aspect_ratio : Float.float) : result bool :=
  '(width, height) ← Image_open_size img_data;
  aspect_ratio ← aspect_ratio_of width height;
  img_size_kb ← img_size_kb_of img_data;
  let is_valid :=
    (min_width <? width) && (min_height <? height)
    && Float.leb min_aspect_ratio aspect_ratio
    && Float.ltb (Float.of_int 30) img_size_kb in
  Ok is_valid.

Definition is_valid_manga_image_with (img_data : bytes)
    (min_width min_height : Z) (min_aspect_ratio : Float.float) : result bool :=
  try_except
    (is_valid_manga_image_body img_data min_width min_height min_aspect_ratio)
    (fun _ => Ok false).

(** The call with the default arguments, as every caller makes it. *)
Definition is_valid_manga_image (img_data : bytes) : result bool :=
  is_valid_manga_image_with img_data 400 400 Float.lit_1_2.
End ImageValidator.

(** ** Strings and paths

    The [str] methods and the [os.path] functions the program calls, on 8-bit
    strings. [os.path] is [posixpath]. *)

Module Str.
(** [s.split(sep)] for a one-character separator: never empty. *)
Fixpoint split (sep : ascii) (s : string) : list string :=
  match s with
  | EmptyString => [EmptyString]
  | String a s' =>
      if decide (a = sep) then EmptyString :: split sep s'
      else match split sep s' with
           | h :: t => String a h :: t
           | [] => [String a EmptyString]
           end
  end.

(** [l[-1]] and [l[0]] on the result of a [split]. *)
Definition last_item (l : list string) : string := List.last l EmptyString.
Definition first_item (l : list string) : string := List.hd EmptyString l.

Definition lower_char (a : ascii) : ascii :=
  let n := nat_of_ascii a in
  if (65 <=? n)%nat && (n <=? 90)%nat then ascii_of_nat (n + 32) else a.

(** [s.lower()]: characters outside [A-Z] are unchanged. *)
Fixpoint lower (s : string) : string :=
  match s with
  | EmptyString => EmptyString
  | String a s' => String (lower_char a) (lower s')
  end.

(** [s.replace(old, new)] for one-character arguments. *)
Fixpoint replace_char (old new : ascii) (s : string) : string :=
  match s with
  | EmptyString => EmptyString
  | String a s' =>
      String (if decide (a = old) then new else a) (replace_char old new s')
  end.

Fixpoint startswith (p s : string) : bool :=
  match p, s with
  | EmptyString, _ => true
  | String a p', String b s' => bool_decide (a = b) && startswith p' s'
  | String _ _, EmptyString => false
  end.

(** [s.endswith(suffix)]: [s] or one of its tails is [suffix]. *)
Fixpoint endswith (suffix s : string) : bool :=
  bool_decide (s = suffix)
  || match s with
     | EmptyString => false
     | String _ s' => endswith suffix s'
     end.

(** [s.endswith((x1, ..., xn))] *)
Definition endswith_any (suffixes : list string) (s : string) : bool :=
  existsb (fun x => endswith x s) suffixes.

Fixpoint contains_char (c : ascii) (s : string) : bool :=
  match s with
  | EmptyString => false
  | String a s' => bool_decide (a = c) || contains_char c s'
  end.

(** [s[len(p):]] when [s] starts with [p]. *)
Fixpoint strip_prefix (p s : string) : option string :=
  match p, s with
  | EmptyString, _ => Some s
  | String a p', String b s' =>
      if decide (a = b) then strip_prefix p' s' else None
  | String _ _, EmptyString => None
  end.

Fixpoint repeat_char (c : ascii) (n : nat) : string :=
  match n with
  | O => EmptyString
  | S n' => String c (repeat_char c n')
  end.

(** The format specification [{n:03d}] for a non-negative [n]: decimal,
    zero-padded on the left to at least three characters. *)
Definition format_03d (n : nat) : string :=
  let s := pretty n in repeat_char "0" (3 - String.length s) +:+ s.

(** The decimal value of a string of digits, leading zeros allowed. *)
Fixpoint decimal_value (s : string) : nat :=
  match s with
  | EmptyString => 0
  | String c s' =>
      (default 0 (Ascii.is_nat c) * 10 ^ String.length s' + decimal_value s')%nat
  end.

Fixpoint drop_leading_dots (s : string) : string :=
  match s with
  | String "." s' => drop_leading_dots s'
  | _ => s
  end.
End Str.

Module Path.
(** [os.path.join(a, b)] *)
Definition join (a b : string) : string :=
  if Str.startswith "/" b then b
  else if bool_decide (a = "") || Str.endswith "/" a then a +:+ b
  else a +:+ "/" +:+ b.

(** [os.path.basename(p)]: what follows the last separator. *)
Definition basename (p : string) : string := Str.last_item (Str.split "/" p).

(** [os.path.splitext(p)[1]]: the extension starts at the last dot of the
    base name, leading dots of the base name not counted; empty when there
    is none. *)
Definition splitext_ext (p : string) : string :=
  let rest := Str.drop_leading_dots (basename p) in
  if Str.contains_char "." rest
  then "." +:+ Str.last_item (Str.split "." rest)
  else "".

(** [n] when [p] names the entry [n] of directory [d], that is
    [p = join d n] for a non-empty [n] without separator. *)
Definition entry_name (d p : string) : option string :=
  let prefix :=
    if bool_decide (d = "") || Str.endswith "/" d then d else d +:+ "/" in
  match Str.strip_prefix prefix p with
  | Some n =>
      if bool_decide (n = "") || Str.contains_char "/" n then None else Some n
  | None => None
  end.

(** [p] lies below directory [d], at any depth. *)
Definition below (d p : string) : bool :=
  match Str.strip_prefix (d +:+ "/") p with
  | Some _ => true
  | None => false
  end.
End Path.

(** ** File system

    A store from paths, spelled as the program spells them, to nodes. Paths
    are compared as strings: two spellings of one location are two keys.
    Each operation is atomic; an operation the environment may refuse takes
    the environment's decision [ok] and leaves the store unchanged when it
    fails. *)

Inductive node : Type :=
  | Dir
  | File (data : bytes).

Abbreviation fs := (gmap string node).

Module FS.
Definition exists_ (p : string) (d : fs) : bool := bool_decide (is_Some (d !! p)).
Definition isdir (p : string) (d : fs) : bool :=
  match d !! p with
  | Some Dir => true
  | _ => false
  end.

(** [os.makedirs(p, exist_ok=True)]. The program calls it outside of any
    handler; it is assumed to succeed (the path is absent or already a
    directory, and the parent is writable). *)
Definition makedirs (p : string) (d : fs) : fs :=
  match d !! p with
  | None => <[p := Dir]> d
  | Some _ => d
  end.

(** [open(p, 'wb').write(data)]: creates or replaces a regular file. *)
Definition write_file (ok : bool) (p : string) (data : bytes) (d : fs) : result fs :=
  if ok && negb (isdir p d) then Ok (<[p := File data]> d) else Raise OSError.

Definition read_file (p : string) (d : fs) : result bytes :=
  match d !! p with
  | Some (File f) => Ok f
  | _ => Raise OSError
  end.

(** [os.rename(src, dst)] for a regular file [src]. *)
Definition rename (src dst : string) (d : fs) : result fs :=
  match d !! src with
  | Some (File f) =>
      if isdir dst d then Raise OSError
      else Ok (<[dst := File f]> (delete src d))
  | _ => Raise OSError
  end.

(** [os.listdir(p)]: the entry names, in the store's order. *)
Definition listdir (ok : bool) (p : string) (d : fs) : result (list string) :=
  if ok && isdir p d
  then Ok (omap (Path.entry_name p) (fst <$> map_to_list d))
  else Raise OSError.

(** [shutil.rmtree(p)] *)
Definition rmtree (ok : bool) (p : string) (d : fs) : result fs :=
  if ok && isdir p d
  then Ok (filter (fun kv => kv.1 ≠ p ∧ Path.below p kv.1 = false) d)
  else Raise OSError.
End FS.

(** ** Stateful computations that may raise *)

Definition io (S A : Type) : Type := S -> result A * S.

Global Instance io_ret {S} : MRet (io S) := fun A a s => (Ok a, s).
Global Instance io_bind {S} : MBind (io S) := fun A B k m s =>
  match m s with
  | (Ok a, s') => k a s'
  | (Raise e, s') => (Raise e, s')
  end.

Definition io_lift {S A} (r : result A) : io S A := fun s => (r, s).

(** [try: body  except Exception as e: handler e] *)
Definition io_try {S A} (body : io S A) (handler : exception -> io S A) : io S A :=
  fun s =>
    match body s with
    | (Ok a, s') => (Ok a, s')
    | (Raise e, s') => handler e s'
    end.

(** A fallible file-system operation as a computation on the store. *)
Definition io_fs {A} (op : fs -> result A) (upd : A -> fs) : io fs unit :=
  fun d =>
    match op d with
    | Ok a => (Ok tt, upd a)
    | Raise e => (Raise e, d)
    end.

(** ** The environment of a run *)

Record response : Type := { status_code : Z; content : bytes }.

(** What the browser shows for a chapter page: the [src] attribute of every
    element matched by the selector [img.w-full.h-full], the same for the
    fallback selector [main img], and the page source. *)
Record page : Type := {
  img_w_full : list (option string);
  main_img : list (option string);
  page_source : bytes
}.

Record chapter : Type := { title : string; url : string }.

Record Env : Type := {
  (** [urllib.parse.urljoin] *)
  urljoin : string -> string -> string;
  (** starting the browser and loading the chapter page; raises when the
      browser cannot be started or the navigation fails *)
  browse : string -> result page;
  (** [requests.get(url, headers={'Referer': referer})] *)
  requests_get : string -> string -> result response;
  (** [Image.open(io.BytesIO(data)).size] *)
  Image_open_size : bytes -> result (Z * Z);
  (** whether the download stage can open this path for writing *)
  open_ok : string -> bool;
  (** the thread scheduler: which running worker finishes at a given step *)
  pick : nat -> nat;
  (** the conversion stage: the n-th fallible I/O operation fails *)
  fault : nat -> bool;
  (** [zipfile]: the archive holding these members *)
  zip_encode : list (string * bytes) -> bytes;
  (** [img2pdf.convert] on the pages' data *)
  img2pdf_convert : list bytes -> result bytes;
  (** the chapter-level pool of [download_chapters_threaded], whose workers
      interleave with each other: any function of the store *)
  download_chapters_threaded :
    list chapter -> Z -> fs -> list (string * string) * fs
}.

(** [response.raise_for_status()] *)
Definition raise_for_status (r : response) : result unit :=
  if (400 <=? status_code r) && (status_code r <? 600)
  then Raise HTTPError else Ok tt.

(** ** ImageFetchWorker: [download_image] *)

Definition image_extensions : list string := ["jpg"; "jpeg"; "png"; "webp"; "gif"].

(** [img_url.split('.')[-1].split('?')[0].lower()] *)
Definition url_extension (img_url : string) : string :=
  Str.lower (Str.first_item (Str.split "?" (Str.last_item (Str.split "." img_url)))).

Definition image_result : Type := nat * option string * bool.

Definition temp_name (img_index : nat) (extension : string) : string :=
  "temp_" +:+ Str.format_03d img_index +:+ "." +:+ extension.

Section Worker.
Context (E : Env).

Definition download_image_body (img_url referer : string) (img_index : nat)
    (chapter_dir chapter_title : string) : io fs image_result :=
  img_response ← io_lift (requests_get E img_url referer);
  _ ← io_lift (raise_for_status img_response);
  valid ← io_lift (is_valid_manga_image (Image_open_size E) (content img_response));
  if negb valid then mret (img_index, None, false)
  else
    let extension := url_extension img_url in
    let extension :=
      if bool_decide (extension ∈ image_extensions) then extension else "jpg" in
    let img_path := Path.join chapter_dir (temp_name img_index extension) in
    _ ← io_fs (FS.write_file (open_ok E img_path) img_path (content img_response))
           (fun d' => d');
    mret (img_index, Some img_path, true).

Definition download_image (img_url referer : string) (img_index : nat)
    (chapter_dir chapter_title : string) : io fs image_result :=
  io_try
    (download_image_body img_url referer img_index chapter_dir chapter_title)
    (fun _ => mret (img_index, None, false)).
End Worker.

(** ** ImageFetchPool: [ThreadPoolExecutor] and [as_completed]

    All tasks are submitted at once; at most [K] run at a time, started in
    submission order; any running worker may be the next to finish. A worker
    acts on the store when it finishes. The futures are read in completion
    order. *)

Section Pool.
Context {T R : Type}.
Variable work : T -> io fs R.

Record pool_state : Type := {
  queued : list T;
  running : list T;
  completed : list (result R);
  disk : fs
}.

Inductive pool_step (K : nat) : pool_state -> pool_state -> Prop :=
  | pool_start t q r c d :
      (length r < K)%nat ->
      pool_step K
        {| queued := t :: q; running := r; completed := c; disk := d |}
        {| queued := q; running := r ++ [t]; completed := c; disk := d |}
  | pool_finish t q r1 r2 c d res d' :
      work t d = (res, d') ->
      pool_step K
        {| queued := q; running := r1 ++ t :: r2; completed := c; disk := d |}
        {| queued := q; running := r1 ++ r2; completed := c ++ [res]; disk := d' |}.

Definition pool_init (tasks : list T) (d : fs) : pool_state :=
  {| queued := tasks; running := []; completed := []; disk := d |}.

Definition pool_done (st : pool_state) : Prop :=
  queued st = [] ∧ running st = [].

(** A complete run of the pool on [tasks]. *)
Definition pool_run (K : nat) (tasks : list T) (d : fs) (st : pool_state) : Prop :=
  rtc (pool_step K) (pool_init tasks d) st ∧ pool_done st.

(** The executable scheduler: idle workers take queued tasks at once, then
    the running worker chosen by [choose] finishes. *)
Fixpoint pool_fill (K : nat) (q r : list T) : list T * list T :=
  match q with
  | [] => (q, r)
  | t :: q' => if (length r <? K)%nat then pool_fill K q' (r ++ [t]) else (q, r)
  end.

Fixpoint run_pool (choose : nat -> nat) (K fuel step : nat) (st : pool_state)
  : pool_state :=
  match fuel with
  | O => st
  | S fuel' =>
      let '(q, r) := pool_fill K (queued st) (running st) in
      let j := (choose step `mod` length r)%nat in
      match r !! j with
      | Some t =>
          let '(res, d') := work t (disk st) in
          run_pool choose K fuel' (S step)
            {| queued := q; running := delete j r;
               completed := completed st ++ [res]; disk := d' |}
      | None => {| queued := q; running := r;
                   completed := completed st; disk := disk st |}
      end
  end.
End Pool.

Arguments pool_state : clear implicits.

(** ** ChapterAssembler: [download_chapter_with_selenium] *)

(** [l.sort(key=lambda x: x[0])]: a stable sort on the first component. *)
Fixpoint insert_by_index (x : image_result) (l : list image_result)
  : list image_result :=
  match l with
  | [] => [x]
  | y :: l' =>
      if (x.1.1 <=? y.1.1)%nat then x :: y :: l' else y :: insert_by_index x l'
  end.

Fixpoint sort_by_index (l : list image_result) : list image_result :=
  match l with
  | [] => []
  | x :: l' => insert_by_index x (sort_by_index l')
  end.

(** The loop over [as_completed]: [future.result()] re-raises what the worker
    raised; only successful results are kept. *)
Fixpoint collect_successful (futures : list (result image_result))
    (results : list image_result) : result (list image_result) :=
  match futures with
  | [] => Ok results
  | future :: rest =>
      match future with
      | Ok r => collect_successful rest (if r.2 then results ++ [r] else results)
      | Raise e => Raise e
      end
  end.

(** The renaming loop: every result with a path gets the next sequential
    name, with the extension of its temporary file. *)
Fixpoint rename_results (chapter_dir : string) (results : list image_result)
    (valid_images_count : nat) (valid_image_paths : list string)
  : io fs (nat * list string) :=
  match results with
  | [] => mret (valid_images_count, valid_image_paths)
  | (_, Some temp_path, _) :: rest =>
      if bool_decide (temp_path = "")
      then rename_results chapter_dir rest valid_images_count valid_image_paths
      else
        let valid_images_count := S valid_images_count in
        let extension := Path.splitext_ext temp_path in
        let final_path :=
          Path.join chapter_dir (Str.format_03d valid_images_count +:+ extension) in
        _ ← io_fs (FS.rename temp_path final_path) (fun d' => d');
        rename_results chapter_dir rest valid_images_count
          (valid_image_paths ++ [final_path])
  | (_, None, _) :: rest =>
      rename_results chapter_dir rest valid_images_count valid_image_paths
  end.

(** What follows the pool: collect, sort, rename. Returns
    [valid_images_count] and [valid_image_paths]. *)
Definition assemble (chapter_dir : string) (futures : list (result image_result))
  : io fs (nat * list string) :=
  results ← io_lift (collect_successful futures []);
  rename_results chapter_dir (sort_by_index results) 0 [].

(** [chapter_title.replace('/', '-').replace('\\', '-').replace(':', '-')] *)
Definition sanitize (chapter_title : string) : string :=
  Str.replace_char ":" "-" (Str.replace_char "\" "-" (Str.replace_char "/" "-" chapter_title)).

Definition chapter_dir_of (chapter_title : string) : string :=
  Path.join "downloads" (sanitize chapter_title).

(** [img.get_attribute('src')] kept when truthy. *)
Definition truthy_src (src : option string) : option string :=
  match src with
  | Some s => if bool_decide (s = "") then None else Some s
  | None => None
  end.

(** [enumerate(image_urls)] *)
Definition enumerate {A} (l : list A) : list (nat * A) := imap (fun i x => (i, x)) l.

Section Chapter.
Context (E : Env).

Definition image_worker (referer chapter_dir chapter_title : string)
    (task : nat * string) : io fs image_result :=
  download_image E task.2 referer task.1 chapter_dir chapter_title.

(** [with ThreadPoolExecutor(max_workers=K) as executor: ...]: the futures
    in completion order, once every worker has finished. *)
Definition thread_pool (referer chapter_dir chapter_title : string) (K : Z)
    (tasks : list (nat * string)) : io fs (list (result image_result)) :=
  if K <=? 0 then io_lift (Raise ValueError)
  else fun d =>
    let st := run_pool (image_worker referer chapter_dir chapter_title)
                (pick E) (Z.to_nat K) (length tasks) 0 (pool_init tasks d) in
    (Ok (completed st), disk st).

Definition download_chapter_body (chapter_url chapter_title chapter_dir : string)
    (max_concurrent_downloads : Z) : io fs (string * bool) :=
  let absolute_chapter_url := urljoin E "https://mangapark.net" chapter_url in
  pg ← io_lift (browse E absolute_chapter_url);
  let image_elements := img_w_full pg in
  let image_elements :=
    match image_elements with [] => main_img pg | _ => image_elements end in
  match image_elements with
  | [] =>
      let debug := Path.join chapter_dir "debug_page.html" in
      _ ← io_fs (FS.write_file (open_ok E debug) debug (page_source pg)) (fun d' => d');
      mret (chapter_dir, false)
  | _ =>
      let image_urls := omap truthy_src image_elements in
      futures ← thread_pool absolute_chapter_url chapter_dir chapter_title
                  max_concurrent_downloads (enumerate image_urls);
      '(valid_images_count, valid_image_paths) ← assemble chapter_dir futures;
      mret (chapter_dir, bool_decide (0 < valid_images_count)%nat)
  end.

Definition download_chapter_with_selenium (chapter_url chapter_title : string)
    (max_concurrent_downloads : Z) : io fs (string * bool) :=
  fun d =>
    let chapter_dir := chapter_dir_of chapter_title in
    io_try
      (download_chapter_body chapter_url chapter_title chapter_dir
         max_concurrent_downloads)
      (fun _ => mret (chapter_dir, false))
      (FS.makedirs chapter_dir d).
End Chapter.

(** ** ArchiveBuilder: [create_cbz] and [create_pdf] *)

Inductive event : Type :=
  | LogDownloading (n : nat) (threaded : bool) (concurrency : Z)
  | LogChapter (idx total : nat) (chapter_title : string)
  | LogNoneFinished
  | LogConversionRunning (label : string)
  | LogSourcesMissing (label : string) (idx : nat) (chapter_title : string)
  | LogReady (label : string) (idx : nat) (output : string)
  | LogRemoved (label : string) (idx : nat) (chapter_title : string)
  | LogCleanupFailed (label : string) (idx : nat) (chapter_title : string)
  | LogFailed (label : string) (idx : nat) (chapter_title : string).

(** The state of the conversion stage and of the job: the store, the number
    of fallible I/O operations made so far, and what went through
    [signals.log] and [signals.progress]. The [label] and [idx] of an event
    are not in the text of the log line; they record which iteration emitted
    it. *)
Record world : Type := {
  w_fs : fs;
  w_clock : nat;
  w_log : list event;
  w_progress : list Z
}.

Definition cbz_suffixes : list string := [".jpg"; ".jpeg"; ".png"; ".webp"; ".gif"].
Definition pdf_suffixes : list string := [".jpg"; ".jpeg"; ".png"].

Definition is_cbz_image (file : string) : bool :=
  Str.endswith_any cbz_suffixes (Str.lower file).
Definition is_pdf_image (file : string) : bool :=
  Str.endswith_any pdf_suffixes (Str.lower file).

Section Archive.
Context (E : Env).

(** A fallible operation of the conversion stage: the environment decides
    whether it goes through, then the store does. *)
Definition guarded {A} (op : bool -> fs -> result A) (upd : A -> fs -> fs)
  : io world A :=
  fun w =>
    let ok := negb (fault E (w_clock w)) in
    let w' := {| w_fs := w_fs w; w_clock := S (w_clock w);
                 w_log := w_log w; w_progress := w_progress w |} in
    match op ok (w_fs w) with
    | Ok a => (Ok a, {| w_fs := upd a (w_fs w); w_clock := S (w_clock w);
                        w_log := w_log w; w_progress := w_progress w |})
    | Raise e => (Raise e, w')
    end.

Definition w_listdir (p : string) : io world (list string) :=
  guarded (A := list string) (fun ok => FS.listdir ok p) (fun _ d => d).
Definition w_read (p : string) : io world bytes :=
  guarded (A := bytes)
    (fun ok d => if ok then FS.read_file p d else Raise OSError) (fun _ d => d).
Definition w_write (p : string) (data : bytes) : io world fs :=
  guarded (A := fs) (fun ok => FS.write_file ok p data) (fun d' _ => d').
Definition w_rmtree (p : string) : io world fs :=
  guarded (A := fs) (fun ok => FS.rmtree ok p) (fun d' _ => d').

Fixpoint read_all (paths : list string) : io world (list (string * bytes)) :=
  match paths with
  | [] => mret []
  | p :: rest =>
      data ← w_read p;
      more ← read_all rest;
      mret ((p, data) :: more)
  end.

(** The files of [chapter_dir] whose lower-cased name ends with one of the
    suffixes, as full paths, sorted. *)
Definition image_files_of (eligible : string -> bool) (chapter_dir : string)
    (names : list string) : list string :=
  merge_sort String.le (Path.join chapter_dir <$> List.filter eligible names).

Definition create_cbz_body (chapter_dir chapter_title : string)
  : io world (option string) :=
  names ← w_listdir chapter_dir;
  match List.filter is_cbz_image names with
  | [] => mret None
  | _ =>
      let image_files := image_files_of is_cbz_image chapter_dir names in
      let cbz_path := chapter_dir +:+ ".cbz" in
      (* zipfile.ZipFile(cbz_path, 'w') creates the archive *)
      _ ← w_write cbz_path (zip_encode E []);
      members ← read_all image_files;
      _ ← w_write cbz_path
            (zip_encode E ((fun m => (Path.basename m.1, m.2)) <$> members));
      mret (Some cbz_path)
  end.

Definition create_cbz (chapter_dir chapter_title : string)
  : io world (option string) :=
  io_try (create_cbz_body chapter_dir chapter_title) (fun _ => mret None).

Definition create_pdf_body (chapter_dir chapter_title : string)
  : io world (option string) :=
  names ← w_listdir chapter_dir;
  match List.filter is_pdf_image names with
  | [] => mret None
  | _ =>
      let image_files := image_files_of is_pdf_image chapter_dir names in
      let pdf_path := chapter_dir +:+ ".pdf" in
      (* open(pdf_path, "wb") creates the file *)
      _ ← w_write pdf_path [];
      pages ← read_all image_files;
      pdf_bytes ← io_lift (img2pdf_convert E (snd <$> pages));
      _ ← match pdf_bytes with
          | [] => mret (M := io world) tt
          | _ => _ ← w_write pdf_path pdf_bytes; mret tt
          end;
      mret (Some pdf_path)
  end.

Definition create_pdf (chapter_dir chapter_title : string)
  : io world (option string) :=
  io_try (create_pdf_body chapter_dir chapter_title) (fun _ => mret None).
End Archive.

(** ** Orchestrator: [run_download_job] *)

Definition emit_log (e : event) : io world unit :=
  fun w => (Ok tt, {| w_fs := w_fs w; w_clock := w_clock w;
                      w_log := w_log w ++ [e]; w_progress := w_progress w |}).

Definition emit_progress (v : Z) : io world unit :=
  fun w => (Ok tt, {| w_fs := w_fs w; w_clock := w_clock w;
                      w_log := w_log w; w_progress := w_progress w ++ [v] |}).

Definition get_fs : io world fs := fun w => (Ok (w_fs w), w).

(** A computation of the download stage, run on the store of the job. *)
Definition on_fs {A} (m : io fs A) : io world A :=
  fun w =>
    let '(r, d') := m (w_fs w) in
    (r, {| w_fs := d'; w_clock := w_clock w;
           w_log := w_log w; w_progress := w_progress w |}).

(** [int(idx / total * span)] *)
Definition scaled (idx total span : Z) : result Z :=
  q ← Float.truediv idx total;
  Float.to_int (Float.mul_int q span).

(** A path or [None] used as a condition. *)
Definition truthy (output : option string) : bool :=
  match output with
  | Some p => negb (bool_decide (p = ""))
  | None => false
  end.

Section Job.
Context (E : Env).

Definition converter : Type := string -> string -> io world (option string).

(** The sequential fetch loop, [idx] counting from 1. *)
Fixpoint fetch_sequential (chapters : list chapter) (idx total : nat)
    (successful : list (string * string)) : io world (list (string * string)) :=
  match chapters with
  | [] => mret successful
  | chapter :: rest =>
      _ ← emit_log (LogChapter idx total (title chapter));
      '(chapter_dir, ok) ←
        on_fs (download_chapter_with_selenium E (url chapter) (title chapter) 1);
      let successful :=
        if ok : bool then successful ++ [(chapter_dir, title chapter)]
        else successful in
      v ← io_lift (scaled (Z.of_nat idx) (Z.of_nat total) 60);
      _ ← emit_progress v;
      fetch_sequential rest (S idx) total successful
  end.

Definition conversions_of (convert_mode : string) : list (string * converter) :=
  (if bool_decide (convert_mode ∈ ["cbz"; "both"]) then [("CBZ", create_cbz E)] else [])
  ++ (if bool_decide (convert_mode ∈ ["pdf"; "both"]) then [("PDF", create_pdf E)] else []).

(** The cleanup after a successful conversion. *)
Definition cleanup (label : string) (idx : nat) (chapter_dir chapter_title : string)
  : io world unit :=
  io_try
    (_ ← w_rmtree E chapter_dir;
     emit_log (LogRemoved label idx chapter_title))
    (fun _ => emit_log (LogCleanupFailed label idx chapter_title)).

(** The inner loop of a conversion phase, [idx] counting from 1. *)
Fixpoint convert_chapters (label : string) (convert : converter)
    (delete_sources : bool) (phase n_conversions total : nat)
    (items : list (string * string)) (idx : nat) : io world unit :=
  match items with
  | [] => mret tt
  | (chapter_dir, chapter_title) :: rest =>
      d ← get_fs;
      if bool_decide (label = "PDF") && negb (FS.exists_ chapter_dir d)
      then
        _ ← emit_log (LogSourcesMissing label idx chapter_title);
        convert_chapters label convert delete_sources phase n_conversions
          total rest (S idx)
      else
        output ← convert chapter_dir chapter_title;
        _ ← (if truthy output
             then
               _ ← emit_log (LogReady label idx (default "" output));
               d' ← get_fs;
               if delete_sources && FS.isdir chapter_dir d'
               then cleanup label idx chapter_dir chapter_title
               else mret tt
             else emit_log (LogFailed label idx chapter_title));
        let span := 35 `div` Z.max 1 (Z.of_nat n_conversions) in
        p ← io_lift (scaled (Z.of_nat idx) (Z.max 1 (Z.of_nat total)) span);
        let progress := 60 + (Z.of_nat phase - 1) * span + p in
        _ ← emit_progress (Z.min 95 progress);
        convert_chapters label convert delete_sources phase n_conversions
          total rest (S idx)
  end.

(** The outer loop over the requested conversions, [phase] counting from 1. *)
Fixpoint run_conversions (conversions : list (string * converter))
    (delete_sources : bool) (phase n_conversions : nat)
    (successful : list (string * string)) : io world unit :=
  match conversions with
  | [] => mret tt
  | (label, convert) :: rest =>
      _ ← emit_log (LogConversionRunning label);
      _ ← convert_chapters label convert delete_sources phase n_conversions
            (length successful) successful 1;
      run_conversions rest delete_sources (S phase) n_conversions successful
  end.

Definition fetch_stage (chapters : list chapter) (threaded : bool)
    (concurrency : Z) : io world (list (string * string)) :=
  if threaded
  then on_fs (fun d =>
         let '(successful, d') :=
           download_chapters_threaded E chapters (Z.max 1 concurrency) d in
         (Ok successful, d'))
  else fetch_sequential chapters 1 (length chapters) [].

Definition run_download_job (chapters : list chapter) (threaded : bool)
    (concurrency : Z) (convert_mode : string) (delete_sources : bool)
  : io world (list (string * string)) :=
  match chapters with
  | [] => io_lift (Raise ValueError)
  | _ =>
      _ ← on_fs (fun d => (Ok tt, FS.makedirs "downloads" d));
      _ ← emit_log (LogDownloading (length chapters) threaded concurrency);
      successful ← fetch_stage chapters threaded concurrency;
      match successful with
      | [] =>
          _ ← emit_log LogNoneFinished;
          _ ← emit_progress 100;
          mret []
      | _ =>
          let conversions := conversions_of convert_mode in
          _ ← run_conversions conversions delete_sources 1 (length conversions)
                successful;
          _ ← emit_progress 100;
          mret successful
      end
  end.
End Job.

(** ** Real-number reading of the floats

    Used only to state and prove facts about [Float.truediv],
    [Float.mul_int] and [Float.to_int]; the program's functions above never
    mention it. *)

Module FloatSem.
Local Open Scope R_scope.

(** [2 ^ e] for an integer [e] of any sign. *)
Definition bpow (e : Z) : R := powerRZ 2 e.

(** [l] locates [y] in the unit interval that starts at [m]. *)
Definition loc_ok (y : R) (m : Z) (l : location) : Prop :=
  match l with
  | loc_Exact => y = IZR m
  | loc_Inexact Lt => IZR m < y < IZR m + / 2
  | loc_Inexact Eq => y = IZR m + / 2
  | loc_Inexact Gt => IZR m + / 2 < y < IZR m + 1
  end.

(** [k] is [y] rounded to the nearest integer, ties to even. *)
Definition rne_ok (y : R) (k : Z) : Prop :=
  IZR k - / 2 <= y <= IZR k + / 2 /\
  (y = IZR k - / 2 \/ y = IZR k + / 2 -> Z.even k = true).

(** [e] is the exponent of the binary64 numbers nearest to [x > 0]: the
    subnormal exponent, or the one that gives [x] a 53-bit mantissa. *)
Definition cexp_of (x : R) (e : Z) : Prop :=
  (e = (-1074)%Z /\ x < bpow (-1021)) \/
  ((-1074 < e)%Z /\ bpow (e + 52) <= x < bpow (e + 53)).

(** What [binary_round_aux] returns for the rounded mantissa [k]. *)
Definition rounded (s : bool) (k e : Z) : spec_float :=
  if (k =? 0)%Z then S754_zero s
  else if (k =? 2 ^ 53)%Z then
    if (e + 1 <=? 971)%Z then S754_finite s (2 ^ 52) (e + 1) else S754_infinity s
  else if (e <=? 971)%Z then S754_finite s (Z.to_pos k) e else S754_infinity s.

(** The real number a float stands for. *)
Definition F2R (f : spec_float) : R :=
  match f with
  | S754_finite s m e => (if s then - IZR (Zpos m) else IZR (Zpos m)) * bpow e
  | _ => 0
  end.

Definition is_finite (f : spec_float) : bool :=
  match f with
  | S754_finite _ _ _ | S754_zero _ => true
  | _ => false
  end.

(** The rounding relation: [v] is [x] rounded to nearest, ties to even. *)
Definition is_RN (x v : R) : Prop :=
  exists e k, cexp_of x e /\ rne_ok (x / bpow e) k /\ v = IZR k * bpow e.

(** [q] is the float [binary_round_aux] returns for [x > 0], in range. *)
Definition rounds_to (x : R) (q : spec_float) : Prop :=
  exists k e, q = rounded false k e /\ cexp_of x e /\ rne_ok (x / bpow e) k /\
              (e + 1 <= 971)%Z.

(** The canonical representation of a non-negative binary64 number. *)
Definition canonical (f : spec_float) : Prop :=
  f = S754_zero false \/
  exists m e, f = S754_finite false m e /\ (-1074 <= e)%Z /\
    (Z.pos m < 2 ^ 53)%Z /\ ((2 ^ 52 <= Z.pos m)%Z \/ e = (-1074)%Z).

(** A positive integer constant whose float is exact with a full mantissa. *)
Definition exact_const (c : Z) : Prop :=
  exists my ey, Float.of_int c = S754_finite false my ey /\
    (2 ^ 52 <= Z.pos my < 2 ^ 53)%Z /\ (-1074 < ey)%Z /\
    IZR (Z.pos my) * bpow ey = IZR c.

(** What [scaled idx total span] computes, read over the reals. *)
Definition scaled_sem (x c : R) (v : Z) : Prop :=
  exists V1, is_RN x V1 /\
    ((V1 = 0 /\ v = 0%Z) \/
     (0 < V1 /\ exists V2, is_RN (V1 * c) V2 /\ IZR v <= V2 < IZR v + 1)).

(** The widths the job scales by: the fetch stage and the conversion phases. *)
Definition span_ok (c : Z) : Prop := (c = 60 \/ c = 35 \/ c = 17)%Z.
End FloatSem.

(** ** Shapes of names *)

Definition is_digit (c : ascii) : bool :=
  match Ascii.is_nat c with Some _ => true | None => false end.

Fixpoint all_digits (s : string) : bool :=
  match s with
  | EmptyString => true
  | String c s' => is_digit c && all_digits s'
  end.

(** A directory entry name has no separator. *)
Definition no_slash (n : string) : Prop := Str.contains_char "/" n = false.

(** What [os.path.join] puts before a relative name. *)
Definition dir_prefix (d : string) : string :=
  if bool_decide (d = "") || Str.endswith "/" d then d else d +:+ "/".

(** ** Reference definitions for the statements

    What a worker does with one task, read off [download_image]; used to
    state what the pool and the assembler produce. *)

(** The extension the file is saved under. *)
Definition saved_extension (img_url : string) : string :=
  let extension := url_extension img_url in
  if bool_decide (extension ∈ image_extensions) then extension else "jpg".

Definition temp_path (chapter_dir : string) (img_index : nat) (img_url : string)
  : string :=
  Path.join chapter_dir (temp_name img_index (saved_extension img_url)).

(** The bytes of the image when the retrieval succeeds with a success status
    and the validator accepts them. *)
Definition fetched (E : Env) (img_url referer : string) : option bytes :=
  match requests_get E img_url referer with
  | Ok img_response =>
      match raise_for_status img_response with
      | Ok _ =>
          match is_valid_manga_image (Image_open_size E) (content img_response) with
          | Ok true => Some (content img_response)
          | _ => None
          end
      | Raise _ => None
      end
  | Raise _ => None
  end.

(** Following the specification's words: the extension of the URL's trailing
    path segment, once the query string is stripped; [None] when that
    segment has no dot. Lower-cased, as the allow-list is. *)
Definition spec_url_extension (img_url : string) : option string :=
  let without_query := Str.first_item (Str.split "?" img_url) in
  let segment := Str.last_item (Str.split "/" without_query) in
  match Str.split "." segment with
  | [] | [_] => None
  | pieces => Some (Str.lower (Str.last_item pieces))
  end.

(** Following the specification's words: [jpg] when the extension is absent
    or not in the allow-list. *)
Definition spec_saved_extension (img_url : string) : string :=
  match spec_url_extension img_url with
  | Some extension =>
      if bool_decide (extension ∈ image_extensions) then extension else "jpg"
  | None => "jpg"
  end.

(** ** A sample environment, for concrete runs *)

Definition sample_image : bytes := repeat Byte.x00 40960.

Definition sample_page (chapter_url : string) : page :=
  if Str.endswith "/empty" chapter_url then
    {| img_w_full := []; main_img := []; page_source := [Byte.x3c; Byte.x3e] |}
  else if Str.endswith "/nosrc" chapter_url then
    {| img_w_full := [None; Some ""]; main_img := []; page_source := [] |}
  else
    {| img_w_full := [ Some "https://cdn.example/p/001.png?v=1.2";
                       Some "https://cdn.example/p/002.JPG";
                       None;
                       Some "https://cdn.example/p/down.png";
                       Some "https://cdn.example/p/icon.gif";
                       Some "https://cdn.example/p/005.webp" ];
       main_img := []; page_source := [] |}.

Definition sample_env : Env := {|
  urljoin := fun base u => base +:+ u;
  browse := fun u => Ok (sample_page u);
  requests_get := fun u _ =>
    if Str.endswith "down.png" u then Raise RequestException
    else if Str.endswith "icon.gif" u
    then Ok {| status_code := 200; content := [Byte.x47; Byte.x49; Byte.x46] |}
    else Ok {| status_code := 200; content := sample_image |};
  Image_open_size := fun data =>
    if (length data <? 100)%nat then Ok (32, 32) else Ok (800, 1200);
  open_ok := fun _ => true;
  pick := fun step => step;
  fault := fun _ => false;
  zip_encode := fun members => concat (snd <$> members);
  img2pdf_convert := fun pages => Ok (concat pages);
  download_chapters_threaded := fun _ _ d => ([], d)
|}.

(** ** Reference definitions for the pool and the assembler *)

(** The bytes the worker of [task] stores, when it stores them, for a pool
    started on the store [d0]. *)
Definition stored (E : Env) (referer chapter_dir : string) (d0 : fs)
    (task : nat * string) : option bytes :=
  match fetched E task.2 referer with
  | Some data =>
      let p := temp_path chapter_dir task.1 task.2 in
      if open_ok E p && negb (FS.isdir p d0) then Some data else None
  | None => None
  end.

(** The result tuple of the worker of [task]. *)
Definition task_result (E : Env) (referer chapter_dir : string) (d0 : fs)
    (task : nat * string) : image_result :=
  match stored E referer chapter_dir d0 task with
  | Some _ => (task.1, Some (temp_path chapter_dir task.1 task.2), true)
  | None => (task.1, None, false)
  end.

(** The accepted tasks with their bytes, in task order. *)
Definition accepted_files (E : Env) (referer chapter_dir : string) (d0 : fs)
    (tasks : list (nat * string)) : list (nat * string * bytes) :=
  omap (fun task => pair task <$> stored E referer chapter_dir d0 task) tasks.

(** The result tuples of accepted tasks. *)
Definition results_of (chapter_dir : string)
    (accepted : list (nat * string * bytes)) : list image_result :=
  (fun f => (f.1.1, Some (temp_path chapter_dir f.1.1 f.1.2), true)) <$> accepted.

(** The store once the workers of [done] have finished, in that order. *)
Definition written (E : Env) (referer chapter_dir : string) (d0 : fs)
    (done : list (nat * string)) : fs :=
  foldl (fun d task =>
           match stored E referer chapter_dir d0 task with
           | Some data => <[temp_path chapter_dir task.1 task.2 := File data]> d
           | None => d
           end) d0 done.

(** The [k]-th final name, [k] counting from 1: [NNN.<ext>]. *)
Definition final_name (k : nat) (task : nat * string) : string :=
  Str.format_03d k +:+ "." +:+ saved_extension task.2.

Definition final_names (accepted : list (nat * string)) : list string :=
  imap (fun k task => final_name (S k) task) accepted.

(** The chapter directory holds no entry yet. *)
Definition fresh_dir (chapter_dir : string) (d : fs) : Prop :=
  forall n, n <> "" -> no_slash n -> d !! Path.join chapter_dir n = None.

(** The store after the renaming loop has moved the files of [accepted],
    the first of them to the name numbered [S count]. *)
Fixpoint renamed (chapter_dir : string) (count : nat)
    (accepted : list (nat * string * bytes)) (d : fs) : fs :=
  match accepted with
  | [] => d
  | (task, data) :: rest =>
      renamed chapter_dir (S count) rest
        (<[Path.join chapter_dir (final_name (S count) task) := File data]>
           (delete (temp_path chapter_dir task.1 task.2) d))
  end.

(** What holds of the pool at every step of a run started on [d0]: the
    futures completed so far are the results of the tasks [done], whose
    workers have written what they store; no task is lost or run twice. *)
Definition pool_inv (E : Env) (referer chapter_dir : string) (d0 : fs)
    (tasks : list (nat * string)) (st : pool_state (nat * string) image_result)
  : Prop :=
  exists done,
    completed st = (fun t => Ok (task_result E referer chapter_dir d0 t)) <$> done /\
    done ++ running st ++ queued st ≡ₚ tasks /\
    disk st = written E referer chapter_dir d0 done.

(** The order of [results.sort(key=lambda x: x[0])], and its strict part. *)
Definition by_index (x y : image_result) : Prop := (x.1.1 <= y.1.1)%nat.
Definition index_lt (x y : image_result) : Prop := (x.1.1 < y.1.1)%nat.

(** Tasks listed by strictly increasing index, as [enumerate] lists them. *)
Definition increasing (tasks : list (nat * string)) : Prop :=
  StronglySorted (fun a b => (a.1 < b.1)%nat) tasks.

(** The temporary and the final paths of the files of [accepted]. *)
Definition temp_paths (chapter_dir : string)
    (accepted : list (nat * string * bytes)) : list string :=
  (fun f => temp_path chapter_dir f.1.1 f.1.2) <$> accepted.

Definition final_paths (chapter_dir : string) (count : nat)
    (accepted : list (nat * string * bytes)) : list string :=
  imap (fun k f => Path.join chapter_dir (final_name (S (count + k)%nat) f.1))
    accepted.

(** No directory sits among the entries of the chapter directory. *)
Definition flat_dir (chapter_dir : string) (d : fs) : Prop :=
  forall n, n <> "" -> no_slash n -> d !! Path.join chapter_dir n <> Some Dir.

(** One result per task index, none missing and none twice. *)
Definition one_result_per_task (tasks : list (nat * string))
    (results : list image_result) : Prop :=
  results.*1.*1 ≡ₚ tasks.*1.

(** The image URLs of a sample chapter page, and a run of the pool on them. *)
Definition sample_urls : list string :=
  omap truthy_src (img_w_full (sample_page "/title/1/chapter-1")).

Definition sample_dir : string := chapter_dir_of "Chapter 1".
Definition sample_referer : string := "https://mangapark.net/title/1/chapter-1".

Definition sample_run : pool_state (nat * string) image_result :=
  run_pool (image_worker sample_env sample_referer sample_dir "Chapter 1")
    (fun step => step) 2 (length (enumerate sample_urls)) 0
    (pool_init (enumerate sample_urls) ∅).

(** [driver.find_elements] with the first selector, else with the second. *)
Definition found_elements (pg : page) : list (option string) :=
  match img_w_full pg with
  | [] => main_img pg
  | image_elements => image_elements
  end.

(** Nothing but the entry [chapter_dir] itself differs between [d] and [d']. *)
Definition only_chapter_dir_created (chapter_dir : string) (d d' : fs) : Prop :=
  forall p, p <> chapter_dir -> d' !! p = d !! p.

(** A directory holding one [webp] page, in an otherwise empty store. *)
Definition webp_only : world :=
  {| w_fs := {[ "downloads/Chapter 1" := Dir;
                "downloads/Chapter 1/001.webp" := File sample_image ]};
     w_clock := 0; w_log := []; w_progress := [] |}.

(** An image URL whose query string holds a dot. *)
Definition dotted_query_url : string := "https://cdn.example/p/001.png?v=1.2".

(** A computation of the job that emits no progress value, whatever it
    returns or raises. *)
Definition keeps_progress {A} (m : io world A) : Prop :=
  forall w, w_progress (m w).2 = w_progress w.

(** A converter as the job needs it: it returns, and emits no progress. *)
Definition converter_ok (convert : converter) : Prop :=
  forall chapter_dir chapter_title w,
    exists r w', convert chapter_dir chapter_title w = (Ok r, w') /\
                 w_progress w' = w_progress w.

(** [35 // max(1, len(conversions))] *)
Definition span_of (n_conversions : nat) : Z :=
  (35 `div` Z.max 1 (Z.of_nat n_conversions))%Z.

(** A job on the sample environment: the second chapter has no image. *)
Definition start_world : world :=
  {| w_fs := ∅; w_clock := 0; w_log := []; w_progress := [] |}.

Definition sample_chapters : list chapter :=
  [ {| title := "Chapter 1"; url := "/title/1/chapter-1" |};
    {| title := "Chapter 2"; url := "/title/1/empty" |};
    {| title := "Chapter 3"; url := "/title/1/chapter-3" |} ].

(** Two chapters, the directory of the first being where the archive of the
    second goes. *)
Definition colliding_chapters : list chapter :=
  [ {| title := "Ch.1.cbz"; url := "/title/1/chapter-1-archive" |};
    {| title := "Ch.1"; url := "/title/1/chapter-1" |} ].

(** A property of the state of the job that a computation keeps, whatever
    it returns or raises. *)
Definition preserves {A} (P : world -> Prop) (m : io world A) : Prop :=
  forall w, P w -> P (m w).2.

(** No directory sits at [p]. *)
Definition not_dir (p : string) (w : world) : Prop := FS.isdir p (w_fs w) = false.

(** Kept by the four file operations of the conversion stage. *)
Definition fs_stable (E : Env) (P : world -> Prop) : Prop :=
  (forall p, preserves P (w_listdir E p)) /\
  (forall p, preserves P (w_read E p)) /\
  (forall p data, preserves P (w_write E p data)) /\
  (forall p, preserves P (w_rmtree E p)).

(** The conversion a log line belongs to. *)
Definition event_label (e : event) : option string :=
  match e with
  | LogSourcesMissing label _ _ | LogReady label _ _ | LogRemoved label _ _
  | LogCleanupFailed label _ _ | LogFailed label _ _ => Some label
  | _ => None
  end.

(** A converter as the log needs it: it returns, logs nothing through
    [signals], creates no directory, and gives a path only for a directory
    it could list. *)
Definition converter_sound (convert : converter) : Prop :=
  forall chapter_dir chapter_title w,
    exists r w', convert chapter_dir chapter_title w = (Ok r, w') /\
      w_log w' = w_log w /\
      (forall p, not_dir p w -> not_dir p w') /\
      (truthy r = true -> FS.isdir chapter_dir (w_fs w) = true).

(** * Chapter listing: [get_chapter_info]

    The scraper of the chapter list, in its two modes, and the GUI task
    [fetch_chapter_metadata] that calls it. *)

Module Text.
(** White space of [str.strip()] among the ASCII characters: tab, line feed,
    vertical tab, form feed, carriage return, the four separators 28 to 31
    and the space. Characters above 127 are kept as they are. *)
Definition is_space (a : ascii) : bool :=
  let n := nat_of_ascii a in
  ((9 <=? n) && (n <=? 13) || (28 <=? n) && (n <=? 32))%nat.

Fixpoint lstrip (s : string) : string :=
  match s with
  | EmptyString => EmptyString
  | String a s' => if is_space a then lstrip s' else s
  end.

Fixpoint rstrip (s : string) : string :=
  match s with
  | EmptyString => EmptyString
  | String a s' =>
      match rstrip s' with
      | EmptyString => if is_space a then EmptyString else String a EmptyString
      | r => String a r
      end
  end.

(** [s.strip()] *)
Definition strip (s : string) : string := rstrip (lstrip s).

(** [sub in s] *)
Fixpoint contains (sub s : string) : bool :=
  Str.startswith sub s
  || match s with
     | EmptyString => false
     | String _ s' => contains sub s'
     end.
End Text.

(** The exceptions of the listing: those of the download code, and the
    [KeyError] of a subscript on a tag without the attribute. *)
Inductive raised : Type :=
  | Exn (e : exception)
  | KeyError.

Inductive outcome (A : Type) : Type :=
  | Return (a : A)
  | Throw (e : raised).
Arguments Return {A} a.
Arguments Throw {A} e.

(** Stateful computations that may raise any of them. *)
Definition xio (S A : Type) : Type := S -> outcome A * S.

Global Instance xio_ret {S} : MRet (xio S) := fun A a s => (Return a, s).
Global Instance xio_bind {S} : MBind (xio S) := fun A B k m s =>
  match m s with
  | (Return a, s') => k a s'
  | (Throw e, s') => (Throw e, s')
  end.

Definition xio_raise {S A} (e : raised) : xio S A := fun s => (Throw e, s).

Definition xio_result {S A} (r : result A) : xio S A := fun s =>
  match r with
  | Ok a => (Return a, s)
  | Raise e => (Throw (Exn e), s)
  end.

Definition xio_io {S A} (m : io S A) : xio S A := fun s =>
  match m s with
  | (Ok a, s') => (Return a, s')
  | (Raise e, s') => (Throw (Exn e), s')
  end.

(** The classes derived from [requests.exceptions.RequestException]. *)
Definition is_request_exception (e : raised) : bool :=
  match e with
  | Exn RequestException | Exn HTTPError => true
  | _ => false
  end.

(** [try: body  except requests.exceptions.RequestException: handler] *)
Definition xio_except_request {S A} (body handler : xio S A) : xio S A :=
  fun s =>
    match body s with
    | (Return a, s') => (Return a, s')
    | (Throw e, s') => if is_request_exception e then handler s' else (Throw e, s')
    end.

(** An [a] tag of the parsed page: [get_text(strip=True)], and the [href]
    attribute when the tag has one. *)
Record tag : Type := { tag_text : string; tag_href : option string }.

(** The parsed page: the tags matched by the selector
    [a.link-hover.link-primary.visited\:text-accent], in document order, and
    [soup.prettify()]. *)
Record soup : Type := { select_links : list tag; prettify : bytes }.

(** An element of the browser: [element.text] and
    [element.get_attribute('href')]; either call may raise. *)
Record element : Type := {
  element_text : result string;
  element_href : result (option string)
}.

(** The CSS selectors tried in the browser: the one of the page layout, then
    [a[href*=/title/][href*=/chapter]], [a[href*=/c]], [.chapter-list a],
    [[data-mal-sync-episode] a] and [a[href*=chapter]]. *)
Inductive selector : Type :=
  | sel_layout
  | sel_title_chapter
  | sel_c
  | sel_chapter_list
  | sel_mal_sync
  | sel_chapter.

Record driver : Type := {
  find_elements : selector -> result (list element);
  driver_page_source : bytes
}.

Record Site : Type := {
  (** [requests.get(manga_url)] *)
  get_page : string -> result response;
  (** [BeautifulSoup(response.text, 'html.parser')] *)
  BeautifulSoup : bytes -> soup;
  (** [initialize_browser_with_nsfw()] then [driver.get(manga_url)]; the
      browser quits without raising *)
  open_browser : string -> result driver
}.

(** [href if href.startswith('http') else urljoin(manga_url, href)] *)
Definition absolute_url (E : Env) (manga_url href : string) : string :=
  if Str.startswith "http" href then href else urljoin E manga_url href.

(** The loop that removes duplicates based on the URL. *)
Fixpoint unique_by_url (chapters : list chapter) (seen_urls : gset string)
    (unique_chapters : list chapter) : list chapter :=
  match chapters with
  | [] => unique_chapters
  | chapter :: rest =>
      if bool_decide (url chapter ∈ seen_urls)
      then unique_by_url rest seen_urls unique_chapters
      else unique_by_url rest ({[url chapter]} ∪ seen_urls)
             (unique_chapters ++ [chapter])
  end.

Section Listing.
Context (E : Env) (W : Site).

Definition selectors_to_try : list selector :=
  [sel_title_chapter; sel_c; sel_chapter_list; sel_mal_sync; sel_chapter].

(** The loop over the fallback selectors: the elements of the first one that
    matches any, none when no selector does. *)
Fixpoint try_selectors (drv : driver) (selectors : list selector)
  : result (list element) :=
  match selectors with
  | [] => Ok []
  | selector :: rest =>
      chapter_elements ← find_elements drv selector;
      match chapter_elements with
      | [] => try_selectors drv rest
      | _ => Ok chapter_elements
      end
  end.

(** One turn of the loop over the browser's elements: the chapter appended,
    if any. An exception skips the element. *)
Definition element_chapter (manga_url : string) (element : element)
  : option chapter :=
  let body :=
    text ← element_text element;
    let title := Text.strip text in
    href ← element_href element;
    if bool_decide (title = "") || (String.length title <? 3)%nat
    then Ok None
    else
      match href with
      | None => Ok None
      | Some href =>
          if bool_decide (href = "")
             || (negb (Text.contains "/title/" href)
                 && negb (Text.contains "/c" href))
          then Ok None
          else Ok (Some {| title := title;
                           url := absolute_url E manga_url href |})
      end in
  match body with
  | Ok c => c
  | Raise _ => None            (* except Exception: continue *)
  end.

Fixpoint collect_elements (manga_url : string) (chapter_elements : list element)
    (chapters : list chapter) : list chapter :=
  match chapter_elements with
  | [] => chapters
  | element :: rest =>
      collect_elements manga_url rest
        match element_chapter manga_url element with
        | Some c => chapters ++ [c]
        | None => chapters
        end
  end.

Definition get_chapter_info_nsfw_body (manga_url : string)
  : io fs (option (list chapter)) :=
  drv ← io_lift (open_browser W manga_url);
  chapter_elements ← io_lift (find_elements drv sel_layout);
  chapter_elements ←
    match chapter_elements with
    | [] => io_lift (try_selectors drv selectors_to_try)
    | _ => mret chapter_elements
    end;
  match chapter_elements with
  | [] =>
      let debug_file := Path.join "downloads" "debug_page_selenium.html" in
      _ ← (fun d => (Ok tt, FS.makedirs "downloads" d));
      _ ← io_fs (FS.write_file (open_ok E debug_file) debug_file
                   (driver_page_source drv)) (fun d' => d');
      mret None
  | _ =>
      let chapters := collect_elements manga_url chapter_elements [] in
      let chapters := unique_by_url chapters ∅ [] in
      mret (Some (rev chapters))
  end.

(** The loop over the tags of the parsed page. *)
Fixpoint collect_tags (manga_url : string) (chapter_elements : list tag)
    (chapters : list chapter) : outcome (list chapter) :=
  match chapter_elements with
  | [] => Return chapters
  | chapter_element :: rest =>
      match tag_href chapter_element with
      | None => Throw KeyError
      | Some href =>
          collect_tags manga_url rest
            (chapters ++ [{| title := tag_text chapter_element;
                             url := absolute_url E manga_url href |}])
      end
  end.

Definition get_chapter_info_sfw_body (manga_url : string)
  : xio fs (option (list chapter)) :=
  response ← xio_result (get_page W manga_url);
  _ ← xio_result (raise_for_status response);
  let soup := BeautifulSoup W (content response) in
  match select_links soup with
  | [] =>
      let debug_file := Path.join "downloads" "debug_page_sfw.html" in
      _ ← xio_io (fun d => (Ok tt, FS.makedirs "downloads" d));
      _ ← xio_io (io_fs (FS.write_file (open_ok E debug_file) debug_file
                           (prettify soup)) (fun d' => d'));
      mret None
  | chapter_elements =>
      chapters ← (fun d => (collect_tags manga_url chapter_elements [], d));
      let chapters := unique_by_url chapters ∅ [] in
      mret (Some (rev chapters))
  end.

Definition get_chapter_info_sfw (manga_url : string)
  : xio fs (option (list chapter)) :=
  xio_except_request (get_chapter_info_sfw_body manga_url) (mret None).

Definition get_chapter_info (manga_url : string) (use_nsfw_mode : bool)
  : xio fs (option (list chapter)) :=
  if use_nsfw_mode
  then xio_io (io_try (get_chapter_info_nsfw_body manga_url) (fun _ => mret None))
  else get_chapter_info_sfw manga_url.

(** [fetch_chapter_metadata(signals, manga_url)]: the state is what went
    through [signals.log], and the store. *)
Definition signal_log (line : string) : xio (list string * fs) unit :=
  fun s => (Return tt, (s.1 ++ [line], s.2)).

Definition with_store {A} (m : xio fs A) : xio (list string * fs) A :=
  fun s => let '(r, d') := m s.2 in (r, (s.1, d')).

Definition fetch_chapter_metadata (manga_url : string)
  : xio (list string * fs) (list chapter) :=
  _ ← signal_log ("Fetching chapter information from " +:+ manga_url +:+ "...");
  chapters ← with_store (get_chapter_info manga_url false);
  match chapters with
  | None | Some [] => xio_raise (Exn ValueError)
  | Some chapters =>
      _ ← signal_log ("Found " +:+ pretty (length chapters) +:+ " chapter(s).");
      mret chapters
  end.
End Listing.

(** The link a tag gives, when it has an [href]. *)
Definition tag_link (E : Env) (manga_url : string) (t : tag) : option chapter :=
  href ← tag_href t;
  Some {| title := tag_text t; url := absolute_url E manga_url href |}.

(** [c] is the first of [links] with its URL. *)
Definition first_with_url (links : list chapter) (c : chapter) : Prop :=
  exists l1 l2, links = l1 ++ c :: l2 /\ url c ∉ (url <$> l1).

(** The two lines [fetch_chapter_metadata] logs. *)
Definition fetching_line (manga_url : string) : string :=
  "Fetching chapter information from " +:+ manga_url +:+ "...".
Definition found_line (n : nat) : string :=
  "Found " +:+ pretty n +:+ " chapter(s).".

(** A sample site: a page with four links, two of them to one chapter; a
    page without links; a page with a link that has no [href]; a browser that
    finds nothing with the selector of the layout. *)
Definition sample_tags : list tag :=
  [ {| tag_text := "Chapter 3"; tag_href := Some "/title/1/chapter-3" |};
    {| tag_text := "Chapter 2";
       tag_href := Some "https://mangapark.net/title/1/chapter-2" |};
    {| tag_text := "Ch. 3 (again)"; tag_href := Some "/title/1/chapter-3" |};
    {| tag_text := "Chapter 1"; tag_href := Some "/title/1/chapter-1" |} ].

Definition sample_elements : list element :=
  [ {| element_text := Ok "  Chapter 2 ";
       element_href := Ok (Some "https://mangapark.net/title/1/chapter-2") |};
    {| element_text := Ok "x"; element_href := Ok (Some "/title/1/c") |};
    {| element_text := Raise OSError; element_href := Ok (Some "/title/1/c") |};
    {| element_text := Ok "Chapter 1"; element_href := Ok None |};
    {| element_text := Ok "About"; element_href := Ok (Some "/about") |};
    {| element_text := Ok "Chapter 1";
       element_href := Ok (Some "/title/1/chapter-1") |} ].

Definition sample_site : Site := {|
  get_page := fun u =>
    if Str.endswith "/down" u then Raise RequestException
    else if Str.endswith "/gone" u then Ok {| status_code := 404; content := [] |}
    else if Str.endswith "/none" u then Ok {| status_code := 200; content := [] |}
    else if Str.endswith "/broken" u
    then Ok {| status_code := 200; content := [Byte.x32] |}
    else Ok {| status_code := 200; content := [Byte.x31] |};
  BeautifulSoup := fun text =>
    match text with
    | [] => {| select_links := []; prettify := [Byte.x3c; Byte.x3e] |}
    | [Byte.x31] => {| select_links := sample_tags; prettify := [] |}
    | _ => {| select_links :=
                sample_tags ++ [{| tag_text := "Chapter 0"; tag_href := None |}];
              prettify := [] |}
    end;
  open_browser := fun u =>
    if Str.endswith "/down" u then Raise OSError
    else Ok {| find_elements := fun sel =>
                 match sel with
                 | sel_c => Ok sample_elements
                 | _ => Ok []
                 end;
               driver_page_source := [] |}
|}.

Definition sample_manga_url : string := "https://mangapark.net/title/1".

(** What the listing of the sample page without browser returns. *)
Definition sample_listing : list chapter :=
  [ {| title := "Chapter 1";
       url := "https://mangapark.net/title/1/title/1/chapter-1" |};
    {| title := "Chapter 2"; url := "https://mangapark.net/title/1/chapter-2" |};
    {| title := "Chapter 3";
       url := "https://mangapark.net/title/1/title/1/chapter-3" |} ].

(** * The GUI's output redirection: [_StreamRedirect], [redirect_streams]
    and [TaskRunnable.run] *)

Module Lines.
(** The line feed. *)
Definition nl : ascii := "010"%char.

(** [s.split(sep, 1)] when [sep] occurs in [s]: what precedes the first
    occurrence, and what follows it. *)
Fixpoint split_once (sep : ascii) (s : string) : option (string * string) :=
  match s with
  | EmptyString => None
  | String a s' =>
      if decide (a = sep) then Some (EmptyString, s')
      else match split_once sep s' with
           | Some (line, rest) => Some (String a line, rest)
           | None => None
           end
  end.
End Lines.

(** A redirector is its [buffer] and the state its [emit] acts on. *)
Section StreamRedirect.
Context {S : Type} (emit : string -> S -> S).

Definition _push (chunk : string) (s : S) : S :=
  let chunk := Text.strip chunk in
  if bool_decide (chunk = "") then s else emit chunk s.

(** The loop of [write]: [while "\n" in self.buffer]. A turn removes a line
    feed from the buffer, so the length of the buffer bounds the turns. *)
Fixpoint write_loop (fuel : nat) (st : string * S) : string * S :=
  match fuel with
  | O => st
  | Datatypes.S fuel' =>
      match Lines.split_once Lines.nl st.1 with
      | Some (line, buffer) => write_loop fuel' (buffer, _push line st.2)
      | None => st
      end
  end.

Definition write (text : string) (st : string * S) : string * S :=
  let buffer := st.1 +:+ text in
  write_loop (String.length buffer) (buffer, st.2).

Definition flush (st : string * S) : string * S :=
  if bool_decide (st.1 = "") then st else ("", _push st.1 st.2).
End StreamRedirect.

(** What a task does that the runner can observe: it prints (to [sys.stdout]
    or [sys.stderr]), it emits [signals.log] and [signals.progress], and it
    returns or raises. *)
Inductive action : Type :=
  | Print (text : string)
  | EmitLog (line : string)
  | EmitProgress (value : Z).

Inductive signal (R : Type) : Type :=
  | SigLog (line : string)
  | SigProgress (value : Z)
  | SigResult (r : R)
  | SigError (e : raised)
  | SigFinished.
Arguments SigLog {R} line.
Arguments SigProgress {R} value.
Arguments SigResult {R} r.
Arguments SigError {R} e.
Arguments SigFinished {R}.

Section TaskRunnable.
Context {R : Type}.

Definition log_emit (line : string) (sigs : list (signal R)) : list (signal R) :=
  sigs ++ [SigLog line].

Definition perform (a : action) (st : string * list (signal R))
  : string * list (signal R) :=
  match a with
  | Print text => write log_emit text st
  | EmitLog line => (st.1, st.2 ++ [SigLog line])
  | EmitProgress value => (st.1, st.2 ++ [SigProgress value])
  end.

(** [with redirect_streams(emit): fn(...)]: the redirector starts with an
    empty buffer and is flushed when the block is left, however it is left. *)
Definition redirect_streams (actions : list action) (sigs : list (signal R))
  : list (signal R) :=
  (flush log_emit (foldl (fun st a => perform a st) ("", sigs) actions)).2.

(** [TaskRunnable.run], for a task that performs [actions] and then returns
    or raises [res]: the signals emitted, in order. The error signal carries
    the traceback; the model keeps the exception. *)
Definition run (actions : list action) (res : outcome R) : list (signal R) :=
  let sigs := redirect_streams actions [] in
  let sigs :=
    match res with
    | Return result => sigs ++ [SigResult result]
    | Throw e => sigs ++ [SigError e]
    end in
  sigs ++ [SigFinished].
End TaskRunnable.

(** The lines of a text that the redirector passes on: the pieces between
    line feeds, stripped, the empty ones left out. *)
Definition nonblank_lines (text : string) : list string :=
  List.filter (fun l => negb (bool_decide (l = "")))
    (Text.strip <$> Str.split Lines.nl text).

(** A signal a task emits itself: a log line or a progress value. *)
Definition task_signal {R} (sg : signal R) : Prop :=
  match sg with
  | SigLog _ | SigProgress _ => True
  | _ => False
  end.

(** The signal that tells how the task ended. *)
Definition ending {R} (res : outcome R) : signal R :=
  match res with
  | Return result => SigResult result
  | Throw e => SigError e
  end.

(** The redirector of a list of lines. *)
Definition keep_line (line : string) (lines : list string) : list string :=
  lines ++ [line].

(** * The command line: the chapter selection of [main] *)

Module PyInt.
(** The digits of [int(s)], for ASCII text: decimal digits, a single
    underscore allowed between two digits. [after_digit] tells whether the
    previous character was a digit. *)
Fixpoint digits (s : string) (acc : Z) (after_digit : bool) : option Z :=
  match s with
  | EmptyString => if after_digit then Some acc else None
  | String c s' =>
      match Ascii.is_nat c with
      | Some d => digits s' (10 * acc + Z.of_nat d)%Z true
      | None =>
          if bool_decide (c = "_"%char) && after_digit
          then digits s' acc false
          else None
      end
  end.

(** [int(s)] for a string: white space around, an optional sign, digits. *)
Definition int (s : string) : result Z :=
  let s := Text.strip s in
  let '(negative, body) :=
    match s with
    | String "-" body => (true, body)
    | String "+" body => (false, body)
    | _ => (false, s)
    end in
  match digits body 0 false with
  | Some n => Ok (if negative : bool then - n else n)%Z
  | None => Raise ValueError
  end.
End PyInt.

(** [l[start:stop]] *)
Definition slice {A} (l : list A) (start stop : Z) : list A :=
  let n := Z.of_nat (length l) in
  let clamp i := Z.max 0 (Z.min n (if (i <? 0)%Z then i + n else i))%Z in
  take (Z.to_nat (clamp stop - clamp start)) (drop (Z.to_nat (clamp start)) l).

(** How the selection stage of [main] ends: with the chapters to download,
    or with a message, after which [main] returns. *)
Inductive selection_result : Type :=
  | Selected (chapters_to_download : list chapter)
  | Rejected (message : string).

(** The stage of [main] that processes the answer [selection], from the
    test for [all] to the test that something is selected. ([main] creates
    the directory [downloads] before it, whatever the answer.) *)
Definition select_chapters (selection : string) (chapters : list chapter)
  : selection_result :=
  let checked chapters_to_download :=
    match chapters_to_download with
    | [] => Rejected "No valid chapters selected."
    | _ => Selected chapters_to_download
    end in
  if bool_decide (Str.lower selection = "all") then checked chapters
  else if Str.contains_char "-" selection then
    let range :=
      match Str.split "-" selection with
      | [a; b] => start ← PyInt.int a; stop ← PyInt.int b; Ok (start, stop)
      | _ => Raise ValueError
      end in
    match range with
    | Ok (start, stop) =>
        if (0 <? start)%Z && (stop <=? Z.of_nat (length chapters))%Z
        then checked (slice chapters (start - 1) stop)
        else Rejected "Invalid chapter range."
    | Raise _ => Rejected "Invalid range format."
    end
  else
    match PyInt.int selection with
    | Ok n =>
        let index := (n - 1)%Z in
        if (0 <=? index)%Z && (index <? Z.of_nat (length chapters))%Z
        then match chapters !! Z.to_nat index with
             | Some c => checked [c]
             | None => Rejected "Chapter number out of range."
             end
        else Rejected "Chapter number out of range."
    | Raise _ => Rejected "Invalid chapter number."
    end.

(** The number of concurrent downloads [main] asks for: 5 when the answer
    is no integer or is below 1. *)
Definition read_concurrency (answer : string) : Z :=
  match PyInt.int answer with
  | Ok max_concurrent_downloads =>
      if (max_concurrent_downloads <? 1)%Z then 5%Z else max_concurrent_downloads
  | Raise _ => 5%Z
  end.

(** An environment whose PDF encoder fails, and a directory holding one
    [png] page. *)
Definition no_pdf_env : Env := {|
  urljoin := urljoin sample_env;
  browse := browse sample_env;
  requests_get := requests_get sample_env;
  Image_open_size := Image_open_size sample_env;
  open_ok := open_ok sample_env;
  pick := pick sample_env;
  fault := fault sample_env;
  zip_encode := zip_encode sample_env;
  img2pdf_convert := fun _ => Raise OSError;
  download_chapters_threaded := download_chapters_threaded sample_env
|}.

Definition png_only : world :=
  {| w_fs := {[ "downloads/Chapter 1" := Dir;
                "downloads/Chapter 1/001.png" := File [Byte.x89] ]};
     w_clock := 0; w_log := []; w_progress := [] |}.

(** A site whose browser finds no element with any selector. *)
Definition blank_site : Site := {|
  get_page := get_page sample_site;
  BeautifulSoup := BeautifulSoup sample_site;
  open_browser := fun _ =>
    Ok {| find_elements := fun _ => Ok [];
          driver_page_source := [Byte.x3c; Byte.x3e] |}
|}.

(** * Properties *)

(** ** The result monad *)

Lemma rbind_Ok {A B} (r : result A) (k : A -> result B) (b : B) :
  rbind r k = Ok b <-> exists a, r = Ok a /\ k a = Ok b.
Proof.
  destruct r as [a|e]; simpl; split.
  - intros H. exists a. auto.
  - intros (a' & Ha & Hk). congruence.
  - discriminate.
  - intros (a' & Ha & _). discriminate.
Qed.

Lemma try_except_total {A} (body : result A) (a : A) :
  exists a', try_except body (fun _ => Ok a) = Ok a'.
Proof. destruct body; simpl; eauto. Qed.

Lemma try_except_Raise {A} (body : result A) (h : exception -> result A) e :
  body = Raise e -> try_except body h = h e.
Proof. intros ->. reflexivity. Qed.


(** ** Floats: rounding to nearest is what the operations compute, and it is
    monotone *)

Module FloatFacts.
  Import FloatSem.
  Local Open Scope R_scope.

Lemma bpow_gt_0 e : 0 < bpow e.
Proof. apply powerRZ_lt. lra. Qed.

Lemma bpow_add a b : bpow (a + b) = bpow a * bpow b.
Proof. apply powerRZ_add. lra. Qed.

Lemma bpow_0 : bpow 0 = 1.
Proof. reflexivity. Qed.

Lemma bpow_1 : bpow 1 = 2.
Proof. unfold bpow. simpl. lra. Qed.

Lemma bpow_m1 : bpow (-1) = / 2.
Proof. unfold bpow. simpl. f_equal. lra. Qed.

Lemma bpow_succ a : bpow (a + 1) = 2 * bpow a.
Proof. rewrite bpow_add, bpow_1. lra. Qed.

Lemma bpow_ge_1 n : (0 <= n)%Z -> 1 <= bpow n.
Proof.
  intros Hn. pattern n. apply natlike_ind; auto.
  - rewrite bpow_0. lra.
  - intros k Hk IH. unfold Z.succ. rewrite bpow_succ. lra.
Qed.

Lemma bpow_le a b : (a <= b)%Z -> bpow a <= bpow b.
Proof.
  intros H. replace b with (a + (b - a))%Z by lia. rewrite bpow_add.
  pose proof (bpow_ge_1 (b - a) ltac:(lia)). pose proof (bpow_gt_0 a). nra.
Qed.

Lemma bpow_lt a b : (a < b)%Z -> bpow a < bpow b.
Proof.
  intros H. apply Rlt_le_trans with (bpow (a + 1)).
  - rewrite bpow_succ. pose proof (bpow_gt_0 a). lra.
  - apply bpow_le. lia.
Qed.

Lemma bpow_lt_inv a b : bpow a < bpow b -> (a < b)%Z.
Proof.
  intros H. destruct (Z_lt_le_dec a b) as [|Hle]; auto.
  apply bpow_le in Hle. lra.
Qed.

Lemma bpow_le_inv a b : bpow a <= bpow b -> (a <= b)%Z.
Proof.
  intros H. destruct (Z_le_gt_dec a b) as [|Hgt]; auto.
  apply Z.gt_lt, bpow_lt in Hgt. lra.
Qed.

Lemma bpow_IZR n : (0 <= n)%Z -> bpow n = IZR (2 ^ n).
Proof.
  intros Hn. pattern n. apply natlike_ind; auto.
  intros k Hk IH. unfold Z.succ. rewrite bpow_succ, IH, Z.pow_add_r by lia.
  rewrite mult_IZR. change (IZR (2 ^ 1)) with 2. lra.
Qed.

Lemma bpow_opp_l a : bpow (- a) * bpow a = 1.
Proof. rewrite <- bpow_add. replace (- a + a)%Z with 0%Z by lia. apply bpow_0. Qed.

Lemma div_bpow x a : x / bpow a = x * bpow (- a).
Proof.
  unfold Rdiv. f_equal. pose proof (bpow_opp_l a). pose proof (bpow_gt_0 a).
  apply Rmult_eq_reg_r with (bpow a); [|lra]. rewrite Rinv_l by lra. lra.
Qed.

(** Binary digits *)
Lemma digits2_pos_bounds p :
  (2 ^ (Zpos (digits2_pos p) - 1) <= Zpos p < 2 ^ Zpos (digits2_pos p))%Z.
Proof.
  induction p as [p IH | p IH |]; simpl digits2_pos.
  - rewrite Pos2Z.inj_succ. replace (Z.succ (Z.pos (digits2_pos p)) - 1)%Z
      with (Z.pos (digits2_pos p) - 1 + 1)%Z by lia.
    rewrite Z.pow_succ_r, Z.pow_add_r by lia. change (2 ^ 1)%Z with 2%Z. lia.
  - rewrite Pos2Z.inj_succ. replace (Z.succ (Z.pos (digits2_pos p)) - 1)%Z
      with (Z.pos (digits2_pos p) - 1 + 1)%Z by lia.
    rewrite Z.pow_succ_r, Z.pow_add_r by lia. change (2 ^ 1)%Z with 2%Z. lia.
  - simpl. lia.
Qed.

Lemma digits_bounds_R p :
  bpow (Zpos (digits2_pos p) - 1) <= IZR (Zpos p) < bpow (Zpos (digits2_pos p)).
Proof.
  pose proof (digits2_pos_bounds p) as [H1 H2].
  rewrite !bpow_IZR by lia. split; [apply IZR_le | apply IZR_lt]; assumption.
Qed.


Lemma loc_ok_bounds y m l : loc_ok y m l -> IZR m <= y < IZR m + 1.
Proof. destruct l as [|[]]; simpl; lra. Qed.

Lemma loc_of_record_of m l : loc_of_shr_record (shr_record_of_loc m l) = l.
Proof. destruct l as [|[]]; reflexivity. Qed.

Lemma shr_m_record_of m l : shr_m (shr_record_of_loc m l) = m.
Proof. destruct l as [|[]]; reflexivity. Qed.

Lemma shr_1_ok y mrs :
  (0 <= shr_m mrs)%Z -> loc_ok y (shr_m mrs) (loc_of_shr_record mrs) ->
  (0 <= shr_m (shr_1 mrs))%Z /\
  loc_ok (y / 2) (shr_m (shr_1 mrs)) (loc_of_shr_record (shr_1 mrs)).
Proof.
  destruct mrs as [m r s]. simpl shr_m. intros Hm H.
  destruct m as [|p|p]; [| |lia].
  - destruct r, s; simpl in *; split; try lia; lra.
  - destruct p as [p|p|].
    + assert (IZR (Z.pos p~1) = 2 * IZR (Z.pos p) + 1) as Hp
        by (rewrite Pos2Z.inj_xI, plus_IZR, mult_IZR; lra).
      destruct r, s; simpl in *; rewrite ?Hp in H; split; try lia; lra.
    + assert (IZR (Z.pos p~0) = 2 * IZR (Z.pos p)) as Hp
        by (rewrite Pos2Z.inj_xO, mult_IZR; lra).
      destruct r, s; simpl in *; rewrite ?Hp in H; split; try lia; lra.
    + destruct r, s; simpl in *; split; try lia; lra.
Qed.

Lemma iter_shr_1_ok p : forall y mrs,
  (0 <= shr_m mrs)%Z -> loc_ok y (shr_m mrs) (loc_of_shr_record mrs) ->
  (0 <= shr_m (SpecFloat.iter_pos shr_1 p mrs))%Z /\
  loc_ok (y / bpow (Zpos p)) (shr_m (SpecFloat.iter_pos shr_1 p mrs))
    (loc_of_shr_record (SpecFloat.iter_pos shr_1 p mrs)).
Proof.
  induction p as [p IH | p IH |]; intros y mrs Hm H; simpl SpecFloat.iter_pos.
  - destruct (shr_1_ok y mrs Hm H) as [Hm1 H1].
    destruct (IH _ _ Hm1 H1) as [Hm2 H2].
    destruct (IH _ _ Hm2 H2) as [Hm3 H3].
    split; auto.
    replace (y / bpow (Z.pos p~1)) with (y / 2 / bpow (Z.pos p) / bpow (Z.pos p)); auto.
    rewrite Pos2Z.inj_xI. replace (2 * Z.pos p + 1)%Z with (Z.pos p + Z.pos p + 1)%Z by lia.
    rewrite !bpow_add, bpow_1. pose proof (bpow_gt_0 (Z.pos p)). field. lra.
  - destruct (IH _ _ Hm H) as [Hm2 H2].
    destruct (IH _ _ Hm2 H2) as [Hm3 H3].
    split; auto.
    replace (y / bpow (Z.pos p~0)) with (y / bpow (Z.pos p) / bpow (Z.pos p)); auto.
    rewrite Pos2Z.inj_xO. replace (2 * Z.pos p)%Z with (Z.pos p + Z.pos p)%Z by lia.
    rewrite !bpow_add. pose proof (bpow_gt_0 (Z.pos p)). field. lra.
  - rewrite bpow_1. apply shr_1_ok; auto.
Qed.

Lemma shr_ok y m l e n :
  (0 <= m)%Z -> (0 <= n)%Z -> loc_ok y m l ->
  let '(mrs, e') := shr (shr_record_of_loc m l) e n in
  e' = (e + n)%Z /\ (0 <= shr_m mrs)%Z /\
  loc_ok (y / bpow n) (shr_m mrs) (loc_of_shr_record mrs).
Proof.
  intros Hm Hn H. unfold shr. destruct n as [|p|p]; [| |lia].
  - rewrite shr_m_record_of, loc_of_record_of, bpow_0.
    replace (y / 1) with y by field. repeat split; auto. lia.
  - destruct (iter_shr_1_ok p y (shr_record_of_loc m l)) as [H1 H2].
    + rewrite shr_m_record_of. auto.
    + rewrite shr_m_record_of, loc_of_record_of. auto.
    + repeat split; auto.
Qed.


Lemma round_nearest_even_ok y m l :
  loc_ok y m l ->
  rne_ok y (round_nearest_even m l) /\
  (m <= round_nearest_even m l <= m + 1)%Z.
Proof.
  unfold rne_ok. destruct l as [|[]]; simpl; intros H.
  - split; [|lia]. split; [lra|]. intros [|]; lra.
  - destruct (Z.even m) eqn:He.
    + split; [|lia]. split; [lra|]. auto.
    + split; [|lia]. rewrite plus_IZR. split; [lra|]. intros _.
      rewrite Z.even_add, He. reflexivity.
  - split; [|lia]. split; [lra|]. intros [|]; lra.
  - split; [|lia]. rewrite plus_IZR. split; [lra|]. intros [|]; lra.
Qed.


Lemma fexp_eq e : fexp 53 1024 e = Z.max (e - 53) (-1074).
Proof. reflexivity. Qed.

Lemma cexp_of_ge x e : cexp_of x e -> (-1074 <= e)%Z.
Proof. intros [[-> _]|[H _]]; lia. Qed.

Lemma cexp_of_lt x e : cexp_of x e -> x < bpow (e + 53).
Proof.
  intros [[-> H]|[_ H]].
  - replace (-1074 + 53)%Z with (-1021)%Z by lia. lra.
  - lra.
Qed.

Lemma cexp_of_mag x M :
  bpow (M - 1) <= x < bpow M -> cexp_of x (fexp 53 1024 M).
Proof.
  intros [H1 H2]. rewrite fexp_eq. unfold cexp_of.
  destruct (Z_le_gt_dec (M - 53) (-1074)) as [Hle|Hgt].
  - left. split; [lia|]. apply Rlt_le_trans with (1 := H2). apply bpow_le. lia.
  - right. rewrite Z.max_l by lia. split; [lia|].
    replace (M - 53 + 52)%Z with (M - 1)%Z by lia.
    replace (M - 53 + 53)%Z with M by lia. lra.
Qed.

Lemma cexp_of_fexp x e M :
  cexp_of x e -> bpow (M - 1) <= x < bpow M -> e = fexp 53 1024 M.
Proof.
  intros Hc [H1 H2]. rewrite fexp_eq. destruct Hc as [[-> Hx]|[He [Hx1 Hx2]]].
  - assert (M - 1 < -1021)%Z by (apply bpow_lt_inv; lra). lia.
  - assert (M - 1 < e + 53)%Z by (apply bpow_lt_inv; lra).
    assert (e + 52 < M)%Z by (apply bpow_lt_inv; lra). lia.
Qed.

Lemma Zdigits2_mag m y :
  (0 < m)%Z -> IZR m <= y < IZR m + 1 ->
  bpow (Zdigits2 m - 1) <= y < bpow (Zdigits2 m).
Proof.
  intros Hm [H1 H2]. destruct m as [|p|p]; try lia. simpl Zdigits2.
  pose proof (digits2_pos_bounds p) as [Hd1 Hd2].
  assert (Z.pos p + 1 <= 2 ^ Z.pos (digits2_pos p))%Z as Hd3 by lia.
  apply IZR_le in Hd1, Hd3. rewrite plus_IZR in Hd3.
  rewrite !bpow_IZR by lia. lra.
Qed.

Lemma scale_bounds y x ex a :
  0 < x -> y = x / bpow ex -> (bpow a <= y <-> bpow (a + ex) <= x).
Proof.
  intros Hx ->. rewrite bpow_add. pose proof (bpow_gt_0 ex) as Hp.
  split; intros H.
  - apply Rmult_le_compat_r with (r := bpow ex) in H; [|lra].
    unfold Rdiv in H. rewrite Rmult_assoc, Rinv_l, Rmult_1_r in H by lra. lra.
  - apply Rmult_le_reg_r with (bpow ex); [lra|].
    unfold Rdiv. rewrite Rmult_assoc, Rinv_l, Rmult_1_r by lra. lra.
Qed.

Lemma scale_bounds_lt y x ex a :
  0 < x -> y = x / bpow ex -> (y < bpow a <-> x < bpow (a + ex)).
Proof.
  intros Hx ->. rewrite bpow_add. pose proof (bpow_gt_0 ex) as Hp.
  split; intros H.
  - apply Rmult_lt_compat_r with (r := bpow ex) in H; [|lra].
    unfold Rdiv in H. rewrite Rmult_assoc, Rinv_l, Rmult_1_r in H by lra. lra.
  - apply Rmult_lt_reg_r with (bpow ex); [lra|].
    unfold Rdiv. rewrite Rmult_assoc, Rinv_l, Rmult_1_r by lra. lra.
Qed.

Lemma fexp_digits_cexp x mx ex e :
  0 < x -> (0 <= mx)%Z -> IZR mx <= x / bpow ex < IZR mx + 1 ->
  cexp_of x e -> (ex <= e)%Z ->
  fexp 53 1024 (Zdigits2 mx + ex) = e.
Proof.
  intros Hx Hm Hy Hc Hle.
  assert (mx = 0 \/ 0 < mx)%Z as [-> | Hpos] by lia.
  - simpl Zdigits2. rewrite fexp_eq. simpl in Hy.
    assert (x < bpow ex) as Hlt.
    { apply (proj1 (scale_bounds_lt (x / bpow ex) x ex 0 Hx eq_refl)).
      rewrite bpow_0. lra. }
    destruct Hc as [[-> _]|[He [Hx1 _]]]; [lia|].
    assert (e + 52 < ex)%Z by (apply bpow_lt_inv; lra). lia.
  - symmetry. apply (cexp_of_fexp x); auto.
    pose proof (Zdigits2_mag mx _ Hpos Hy) as [H1 H2].
    split.
    + replace (Zdigits2 mx + ex - 1)%Z with (Zdigits2 mx - 1 + ex)%Z by lia.
      apply (proj1 (scale_bounds (x / bpow ex) x ex _ Hx eq_refl)); auto.
    + apply (proj1 (scale_bounds_lt (x / bpow ex) x ex _ Hx eq_refl)); auto.
Qed.


Lemma shr_nop mrs e n : (n <= 0)%Z -> shr mrs e n = (mrs, e).
Proof. intros H. destruct n; try reflexivity; lia. Qed.

Lemma bra_spec s mx ex lx x e :
  0 < x -> (0 <= mx)%Z -> loc_ok (x / bpow ex) mx lx ->
  cexp_of x e -> (ex <= e)%Z ->
  exists k, rne_ok (x / bpow e) k /\ (0 <= k <= 2 ^ 53)%Z /\
            binary_round_aux 53 1024 s mx ex lx = rounded s k e.
Proof.
  intros Hx Hm Hloc Hc Hle.
  unfold binary_round_aux, shr_fexp.
  rewrite (fexp_digits_cexp x mx ex e Hx Hm (loc_ok_bounds _ _ _ Hloc) Hc Hle).
  pose proof (shr_ok (x / bpow ex) mx lx ex (e - ex) Hm ltac:(lia) Hloc) as Hshr.
  destruct (shr (shr_record_of_loc mx lx) ex (e - ex)) as [mrs' e'].
  destruct Hshr as (-> & Hm1 & Hloc1).
  replace (ex + (e - ex))%Z with e by lia.
  replace (x / bpow ex / bpow (e - ex)) with (x / bpow e) in Hloc1.
  2:{ replace e with (ex + (e - ex))%Z at 1 by lia. rewrite bpow_add.
      pose proof (bpow_gt_0 ex). pose proof (bpow_gt_0 (e - ex)). field. lra. }
  destruct (round_nearest_even_ok _ _ _ Hloc1) as [Hrne Hk].
  set (k := round_nearest_even (shr_m mrs') (loc_of_shr_record mrs')) in *.
  assert (shr_m mrs' < 2 ^ 53)%Z as Hm1lt.
  { apply lt_IZR. rewrite <- bpow_IZR by lia.
    pose proof (loc_ok_bounds _ _ _ Hloc1) as [Hb _].
    apply Rle_lt_trans with (1 := Hb).
    apply (proj2 (scale_bounds_lt (x / bpow e) x e 53 Hx eq_refl)).
    rewrite Z.add_comm. apply cexp_of_lt. auto. }
  pose proof (cexp_of_ge _ _ Hc) as Hege.
  exists k. split; [exact Hrne|]. split; [lia|].
  unfold rounded.
  assert (k = 0 \/ k = 2 ^ 53 \/ (0 < k < 2 ^ 53))%Z as [Hk0 | [Hk1 | Hk2]] by lia.
  - rewrite Hk0. simpl Zdigits2. rewrite shr_nop by (rewrite fexp_eq; lia).
    reflexivity.
  - rewrite Hk1. change (Zdigits2 (2 ^ 53)) with 54%Z.
    replace (fexp 53 1024 (54 + e) - e)%Z with 1%Z by (rewrite fexp_eq; lia).
    simpl. reflexivity.
  - destruct k as [|p|p]; try lia.
    pose proof (digits2_pos_bounds p) as [Hd1 Hd2].
    assert (Z.pos (digits2_pos p) - 1 < 53)%Z as Hd.
    { apply (Z.pow_lt_mono_r_iff 2); lia. }
    rewrite shr_nop by (simpl Zdigits2; rewrite fexp_eq; lia).
    simpl shr_m.
    destruct (Z.pos p =? 0)%Z eqn:E0; [lia|].
    destruct (Z.pos p =? 2 ^ 53)%Z eqn:E1; [lia|].
    reflexivity.
Qed.



Lemma rounded_finite k e :
  (0 <= k <= 2 ^ 53)%Z -> (e + 1 <= 971)%Z ->
  is_finite (rounded false k e) = true /\
  F2R (rounded false k e) = IZR k * bpow e.
Proof.
  intros Hk He. unfold rounded.
  destruct (k =? 0)%Z eqn:E0.
  - apply Z.eqb_eq in E0. subst. simpl. split; auto. lra.
  - destruct (k =? 2 ^ 53)%Z eqn:E1.
    + apply Z.eqb_eq in E1. subst.
      destruct (e + 1 <=? 971)%Z eqn:E2; [|lia]. split; auto.
      unfold F2R. rewrite bpow_succ.
      change (IZR (2 ^ 53)) with (2 * IZR (Z.pos (2 ^ 52))). lra.
    + destruct (e <=? 971)%Z eqn:E2; [|lia]. split; auto.
      unfold F2R. destruct k; try lia. reflexivity.
Qed.


Lemma rne_mono y y' k k' :
  y <= y' -> rne_ok y k -> rne_ok y' k' -> (k <= k')%Z.
Proof.
  intros Hy [[H1 H2] He] [[H1' H2'] He'].
  destruct (Z_le_gt_dec k k') as [|Hgt]; auto. exfalso.
  assert (k' + 1 <= k)%Z as Hk by lia. apply IZR_le in Hk. rewrite plus_IZR in Hk.
  assert (y = IZR k - / 2) as Ey by lra.
  assert (y' = IZR k' + / 2) as Ey' by lra.
  assert (IZR k = IZR k' + 1) as Ek by lra.
  assert (k = k' + 1)%Z as Ek'.
  { apply eq_IZR. rewrite plus_IZR. lra. }
  specialize (He (or_introl Ey)). specialize (He' (or_intror Ey')).
  rewrite Ek', Z.even_add, He' in He. discriminate.
Qed.

Lemma cexp_of_pos_k x e k :
  0 < x -> cexp_of x e -> rne_ok (x / bpow e) k -> (0 <= k <= 2 ^ 53)%Z.
Proof.
  intros Hx Hc [[H1 H2] _]. pose proof (bpow_gt_0 e) as Hp.
  assert (0 < x / bpow e) as Hy by (apply Rdiv_lt_0_compat; lra).
  assert (x / bpow e < bpow 53) as Hy2.
  { apply (proj2 (scale_bounds_lt (x / bpow e) x e 53 Hx eq_refl)).
    rewrite Z.add_comm. apply cexp_of_lt; auto. }
  rewrite (bpow_IZR 53) in Hy2 by lia.
  split.
  - assert (-1 < k)%Z; [|lia]. apply lt_IZR. lra.
  - assert (k < 2 ^ 53 + 1)%Z; [|lia]. apply lt_IZR. rewrite plus_IZR. lra.
Qed.

Lemma is_RN_mono x x' v v' :
  0 < x -> x <= x' -> is_RN x v -> is_RN x' v' -> v <= v'.
Proof.
  intros Hx Hxx (e & k & Hc & Hr & ->) (e' & k' & Hc' & Hr' & ->).
  assert (0 < x') as Hx' by lra.
  pose proof (cexp_of_pos_k _ _ _ Hx Hc Hr) as Hk.
  pose proof (cexp_of_pos_k _ _ _ Hx' Hc' Hr') as Hk'.
  pose proof (bpow_gt_0 e) as Hp. pose proof (bpow_gt_0 e') as Hp'.
  destruct (Z.lt_trichotomy e e') as [Hlt | [Heq | Hgt]].
  - (* e < e' : x' is normal *)
    destruct Hc' as [[-> _]|[He' [Hx1' Hx2']]].
    { apply cexp_of_ge in Hc. lia. }
    assert (2 ^ 52 <= k')%Z as Hk52.
    { destruct Hr' as [[_ H2'] _].
      assert (bpow 52 <= x' / bpow e') as Hb.
      { apply (proj2 (scale_bounds (x' / bpow e') x' e' 52 Hx' eq_refl)).
        rewrite Z.add_comm. auto. }
      rewrite (bpow_IZR 52) in Hb by lia.
      assert (2 ^ 52 - 1 < k')%Z; [|lia]. apply lt_IZR. rewrite minus_IZR. lra. }
    apply Rle_trans with (IZR (2 ^ 53) * bpow e).
    { apply Rmult_le_compat_r; [lra|]. apply IZR_le. lia. }
    apply Rle_trans with (IZR (2 ^ 52) * bpow e').
    2:{ apply Rmult_le_compat_r; [lra|]. apply IZR_le. lia. }
    rewrite <- !bpow_IZR by lia. rewrite <- !bpow_add. apply bpow_le. lia.
  - subst e'. apply Rmult_le_compat_r; [lra|]. apply IZR_le.
    apply (rne_mono (x / bpow e) (x' / bpow e)); auto.
    unfold Rdiv. apply Rmult_le_compat_r; [|lra].
    apply Rlt_le, Rinv_0_lt_compat; lra.
  - (* e' < e : impossible *)
    exfalso. destruct Hc as [[-> _]|[He [Hx1 Hx2]]].
    { apply cexp_of_ge in Hc'. lia. }
    apply cexp_of_lt in Hc'.
    assert (bpow (e' + 53) <= bpow (e + 52)) by (apply bpow_le; lia). lra.
Qed.

Lemma is_RN_exact x e k :
  cexp_of x e -> x = IZR k * bpow e -> is_RN x x.
Proof.
  intros Hc Hx. exists e, k. split; auto. split; auto.
  pose proof (bpow_gt_0 e) as Hp.
  assert (x / bpow e = IZR k) as ->.
  { rewrite Hx. field. lra. }
  split; [lra|]. intros [|]; lra.
Qed.

Lemma is_RN_nonneg x v : 0 < x -> is_RN x v -> 0 <= v.
Proof.
  intros Hx (e & k & Hc & Hr & ->).
  pose proof (cexp_of_pos_k _ _ _ Hx Hc Hr) as [Hk _]. apply IZR_le in Hk.
  pose proof (bpow_gt_0 e). nra.
Qed.

(** Division of two positive integers *)
Lemma new_location_ok q b r :
  (0 < b)%Z -> (0 <= r < b)%Z ->
  loc_ok (IZR q + IZR r / IZR b) q (new_location b r).
Proof.
  intros Hb [Hr1 Hr2].
  assert (0 < IZR b) as HB by (apply IZR_lt; lia).
  set (t := IZR r / IZR b).
  assert (t * IZR b = IZR r) as Ht by (unfold t; field; lra).
  set (P := / (2 * IZR b)).
  assert (0 < P) as HP by (apply Rinv_0_lt_compat; lra).
  assert (t - / 2 = (2 * IZR r - IZR b) * P) as Hd by (unfold t, P; field; lra).
  assert (t = IZR r * (2 * P)) as Ht' by (unfold t, P; field; lra).
  unfold new_location.
  destruct (Z.even b) eqn:Eb; unfold new_location_even, new_location_odd;
    destruct (Z.eqb_spec r 0) as [E0|E0].
  - subst r. unfold loc_ok. lra.
  - assert (1 <= r)%Z as Hr3 by lia. apply IZR_le in Hr3.
    apply IZR_lt in Hr2.
    destruct (Z.compare_spec (2 * r) b) as [H|H|H]; unfold loc_ok.
    + apply (f_equal IZR) in H. rewrite mult_IZR in H.
      assert (t = / 2) as ->; [|reflexivity]. unfold t. rewrite <- H. field. lra.
    + apply IZR_lt in H. rewrite mult_IZR in H. nra.
    + apply IZR_lt in H. rewrite mult_IZR in H. nra.
  - subst r. unfold loc_ok. lra.
  - assert (1 <= r)%Z as Hr3 by lia. apply IZR_le in Hr3.
    apply IZR_lt in Hr2.
    assert (2 * r <> b)%Z as Hne.
    { intros <-. rewrite Z.even_mul in Eb. discriminate. }
    destruct (Z.compare_spec (2 * r + 1) b) as [H|H|H]; unfold loc_ok.
    + assert (2 * r < b)%Z as H' by lia.
      apply IZR_lt in H'. rewrite mult_IZR in H'. nra.
    + assert (2 * r < b)%Z as H' by lia.
      apply IZR_lt in H'. rewrite mult_IZR in H'. nra.
    + assert (b < 2 * r)%Z as H' by lia.
      apply IZR_lt in H'. rewrite mult_IZR in H'. nra.
Qed.

Lemma fexp_mono a b : (a <= b)%Z -> (fexp 53 1024 a <= fexp 53 1024 b)%Z.
Proof. rewrite !fexp_eq. lia. Qed.

Lemma SFdiv_int_spec a b :
  let x := IZR (Zpos a) / IZR (Zpos b) in
  exists e k, cexp_of x e /\ rne_ok (x / bpow e) k /\ (0 <= k <= 2 ^ 53)%Z /\
    SFdiv 53 1024 (S754_finite false a 0) (S754_finite false b 0)
    = rounded false k e.
Proof.
  intros x.
  assert (0 < IZR (Zpos a)) as HA by (apply IZR_lt; lia).
  assert (0 < IZR (Zpos b)) as HB by (apply IZR_lt; lia).
  assert (0 < x) as Hx by (apply Rdiv_lt_0_compat; lra).
  unfold SFdiv, SFdiv_core_binary.
  set (D := (Zdigits2 (Z.pos a) + 0 - (Zdigits2 (Z.pos b) + 0))%Z).
  set (e' := Z.min (fexp 53 1024 D) (0 - 0)).
  assert (e' <= 0)%Z as He' by (unfold e'; lia).
  replace (0 - 0 - e')%Z with (- e')%Z by lia.
  set (m' := match (- e')%Z with
             | 0%Z => Z.pos a
             | Z.pos _ => Z.shiftl (Z.pos a) (- e')
             | Z.neg _ => 0%Z
             end).
  assert (m' = Z.pos a * 2 ^ (- e'))%Z as Hm'.
  { unfold m'. destruct (- e')%Z eqn:E; [lia | | lia].
    rewrite Z.shiftl_mul_pow2 by lia. reflexivity. }
  pose proof (Z_div_mod m' (Z.pos b) ltac:(lia)) as Hdiv.
  destruct (Z.div_eucl m' (Z.pos b)) as [q r]. destruct Hdiv as [Hqr Hr].
  assert (0 <= q)%Z as Hq by nia.
  (* magnitude of the quotient *)
  pose proof (digits_bounds_R a) as [Ha1 Ha2].
  pose proof (digits_bounds_R b) as [Hb1 Hb2].
  assert (Zdigits2 (Z.pos a) = Z.pos (digits2_pos a)) as Eda by reflexivity.
  assert (Zdigits2 (Z.pos b) = Z.pos (digits2_pos b)) as Edb by reflexivity.
  assert (bpow (D - 1) < x < bpow (D + 1)) as [HD1 HD2].
  { unfold D. rewrite Eda, Edb.
    set (da := Z.pos (digits2_pos a)) in *. set (db := Z.pos (digits2_pos b)) in *.
    replace (da + 0 - (db + 0) - 1)%Z with ((da - 1) + - db)%Z by lia.
    replace (da + 0 - (db + 0) + 1)%Z with (da + - (db - 1))%Z by lia.
    rewrite !bpow_add, <- !div_bpow.
    pose proof (bpow_gt_0 db). pose proof (bpow_gt_0 (db - 1)).
    pose proof (bpow_gt_0 da). pose proof (bpow_gt_0 (da - 1)).
    unfold x. split.
    - apply Rle_lt_trans with (IZR (Z.pos a) / bpow db).
      + unfold Rdiv. apply Rmult_le_compat_r; [|lra].
        apply Rlt_le, Rinv_0_lt_compat; lra.
      + unfold Rdiv. apply Rmult_lt_compat_l; [lra|].
        apply Rinv_lt_contravar; [|lra]. apply Rmult_lt_0_compat; lra.
    - apply Rlt_le_trans with (bpow da / IZR (Z.pos b)).
      + unfold Rdiv. apply Rmult_lt_compat_r; [|lra].
        apply Rinv_0_lt_compat; lra.
      + unfold Rdiv. apply Rmult_le_compat_l; [lra|].
        apply Rinv_le_contravar; lra. }
  set (M := if Rlt_dec x (bpow D) then D else (D + 1)%Z).
  assert (bpow (M - 1) <= x < bpow M /\ (D <= M)%Z) as [HM HDM].
  { unfold M. destruct (Rlt_dec x (bpow D)).
    - split; [lra|lia].
    - replace (D + 1 - 1)%Z with D by lia. split; [lra|lia]. }
  pose proof (cexp_of_mag x M HM) as Hc.
  assert (e' <= fexp 53 1024 M)%Z as Hle.
  { pose proof (fexp_mono D M HDM). unfold e'. lia. }
  assert (loc_ok (x / bpow e') q (new_location (Z.pos b) r)) as Hloc.
  { replace (x / bpow e') with (IZR q + IZR r / IZR (Z.pos b)).
    - apply new_location_ok; lia.
    - rewrite div_bpow, bpow_IZR by lia. unfold x.
      assert (IZR (Z.pos a) * IZR (2 ^ (- e')) = IZR (Z.pos b) * IZR q + IZR r) as E.
      { rewrite <- !mult_IZR, <- plus_IZR. f_equal. lia. }
      field_simplify; [|lra|lra]. rewrite E. field. lra. }
  destruct (bra_spec (xorb false false) q e' (new_location (Z.pos b) r) x
              (fexp 53 1024 M) Hx Hq Hloc Hc Hle) as (k & Hk1 & Hk2 & Hk3).
  exists (fexp 53 1024 M), k. split; [exact Hc|]. split; [exact Hk1|].
  split; [lia|]. exact Hk3.
Qed.

(** Multiplication by a float with a full mantissa *)
Lemma SFmul_spec mx ex my ey :
  (2 ^ 52 <= Z.pos my)%Z ->
  let x := IZR (Z.pos mx) * bpow ex * (IZR (Z.pos my) * bpow ey) in
  exists e k, cexp_of x e /\ rne_ok (x / bpow e) k /\ (0 <= k <= 2 ^ 53)%Z /\
    SFmul 53 1024 (S754_finite false mx ex) (S754_finite false my ey)
    = rounded false k e.
Proof.
  intros Hmy x. unfold SFmul.
  pose proof (bpow_gt_0 ex). pose proof (bpow_gt_0 ey).
  pose proof (bpow_gt_0 (ex + ey)) as Hp.
  assert (0 < IZR (Zpos mx)) as HA by (apply IZR_lt; lia).
  assert (0 < IZR (Zpos my)) as HB by (apply IZR_lt; lia).
  assert (0 < x) as Hx.
  { unfold x. apply Rmult_lt_0_compat; apply Rmult_lt_0_compat; lra. }
  assert (x / bpow (ex + ey) = IZR (Z.pos (mx * my))) as Hy.
  { unfold x. rewrite Pos2Z.inj_mul, mult_IZR, bpow_add. field. lra. }
  set (m := Z.pos (mx * my)) in *.
  assert (0 < m)%Z as Hm by (unfold m; lia).
  pose proof (Zdigits2_mag m (IZR m) Hm ltac:(lra)) as [Hd1 Hd2].
  set (M := (Zdigits2 m + (ex + ey))%Z).
  assert (bpow (M - 1) <= x < bpow M) as HM.
  { unfold M. split.
    - replace (Zdigits2 m + (ex + ey) - 1)%Z with (Zdigits2 m - 1 + (ex + ey))%Z by lia.
      apply (proj1 (scale_bounds (x / bpow (ex + ey)) x (ex + ey) _ Hx eq_refl)).
      rewrite Hy. auto.
    - apply (proj1 (scale_bounds_lt (x / bpow (ex + ey)) x (ex + ey) _ Hx eq_refl)).
      rewrite Hy. auto. }
  pose proof (cexp_of_mag x M HM) as Hc.
  assert (53 <= Zdigits2 m)%Z as Hdig.
  { assert (2 ^ 52 <= m)%Z as H52 by (unfold m; nia).
    unfold m in *. simpl Zdigits2.
    pose proof (digits2_pos_bounds (mx * my)) as [_ Hlt].
    assert (52 < Z.pos (digits2_pos (mx * my)))%Z; [|lia].
    apply (Z.pow_lt_mono_r_iff 2); lia. }
  assert (ex + ey <= fexp 53 1024 M)%Z as Hle by (rewrite fexp_eq; unfold M; lia).
  assert (loc_ok (x / bpow (ex + ey)) m loc_Exact) as Hloc by (simpl; auto).
  destruct (bra_spec (xorb false false) m (ex + ey) loc_Exact x
              (fexp 53 1024 M) Hx ltac:(lia) Hloc Hc Hle) as (k & Hk1 & Hk2 & Hk3).
  exists (fexp 53 1024 M), k. split; [exact Hc|]. split; [exact Hk1|].
  split; [lia|]. exact Hk3.
Qed.


Lemma to_int_floor m e :
  exists v, Float.to_int (S754_finite false m e) = Ok v /\
            IZR v <= F2R (S754_finite false m e) < IZR v + 1.
Proof.
  unfold Float.to_int, F2R. destruct e as [|p|p].
  - eexists. split; [reflexivity|]. rewrite bpow_0. lra.
  - eexists. split; [reflexivity|].
    rewrite Z.shiftl_mul_pow2, mult_IZR, <- bpow_IZR by lia. lra.
  - eexists. split; [reflexivity|].
    rewrite Z.shiftr_div_pow2 by lia.
    replace (- Z.neg p)%Z with (Z.pos p) by lia.
    pose proof (Z_div_mod (Z.pos m) (2 ^ Z.pos p) ltac:(lia)) as Hdiv.
    unfold Z.div. destruct (Z.div_eucl (Z.pos m) (2 ^ Z.pos p)) as [q r].
    destruct Hdiv as [Hqr [Hr1 Hr2]].
    replace (Z.neg p) with (- Z.pos p)%Z by lia.
    rewrite <- div_bpow, bpow_IZR by lia.
    assert (0 < IZR (2 ^ Z.pos p)) as HP by (apply IZR_lt; lia).
    rewrite Hqr, plus_IZR, mult_IZR.
    apply IZR_le in Hr1. apply IZR_lt in Hr2.
    split.
    + apply Rmult_le_reg_r with (IZR (2 ^ Z.pos p)); [lra|].
      unfold Rdiv. rewrite Rmult_assoc, Rinv_l by lra. nra.
    + apply Rmult_lt_reg_r with (IZR (2 ^ Z.pos p)); [lra|].
      unfold Rdiv. rewrite Rmult_assoc, Rinv_l by lra. nra.
Qed.

(** The scaling [int(idx / total * span)] of the job *)
Lemma cexp_of_small x e B :
  cexp_of x e -> x <= bpow B -> (B <= 1000)%Z -> (e + 1 <= 971)%Z.
Proof.
  intros [[-> _]|[_ [H1 _]]] Hx HB; [lia|].
  assert (e + 52 <= B)%Z; [|lia]. apply bpow_le_inv. lra.
Qed.

Lemma rounds_to_RN x q :
  0 < x -> rounds_to x q ->
  is_RN x (F2R q) /\
  ((q = S754_zero false /\ F2R q = 0) \/
   (exists m e, q = S754_finite false m e /\ 0 < F2R q)).
Proof.
  intros Hx (k & e & -> & Hc & Hr & He).
  pose proof (cexp_of_pos_k _ _ _ Hx Hc Hr) as Hk.
  destruct (rounded_finite k e Hk He) as [Hfin HF].
  split.
  - exists e, k. auto.
  - unfold rounded in *.
    destruct (k =? 0)%Z eqn:E0.
    + left. split; auto.
    + right. apply Z.eqb_neq in E0.
      assert (0 < IZR k * bpow e) as Hpos.
      { apply Rmult_lt_0_compat; [apply IZR_lt; lia | apply bpow_gt_0]. }
      rewrite HF.
      destruct (k =? 2 ^ 53)%Z.
      * destruct (e + 1 <=? 971)%Z; [|discriminate]. eauto.
      * destruct (e <=? 971)%Z; [|discriminate]. eauto.
Qed.

Lemma truediv_rounds a b :
  (0 < a)%Z -> (0 < b)%Z -> IZR a / IZR b <= bpow 1000 ->
  exists q, Float.truediv a b = Ok q /\ rounds_to (IZR a / IZR b) q.
Proof.
  intros Ha Hb Hx. destruct a as [|a|a]; try lia. destruct b as [|b|b]; try lia.
  destruct (SFdiv_int_spec a b) as (e & k & Hc & Hr & Hk & Hdiv).
  pose proof (cexp_of_small _ _ _ Hc Hx ltac:(lia)) as He.
  exists (rounded false k e). split.
  - unfold Float.truediv. simpl Z.eqb. cbv iota.
    unfold Float.of_Z_exact, Float.prec, Float.emax. rewrite Hdiv.
    destruct (rounded_finite k e Hk He) as [Hfin _].
    destruct (rounded false k e); try discriminate; reflexivity.
  - exists k, e. auto.
Qed.

Lemma exact_const_RN c : exact_const c -> is_RN (IZR c) (IZR c).
Proof.
  intros (my & ey & _ & [H1 H2] & He & Hv).
  apply (is_RN_exact _ ey (Z.pos my)); auto.
  right. split; auto. rewrite <- Hv.
  apply IZR_le in H1. apply IZR_lt in H2.
  rewrite <- (bpow_IZR 52), <- (bpow_IZR 53) in * by lia.
  rewrite !(Z.add_comm ey), !bpow_add. pose proof (bpow_gt_0 ey). nra.
Qed.

Lemma mul_int_rounds m e c :
  exact_const c ->
  F2R (S754_finite false m e) * IZR c <= bpow 1000 ->
  rounds_to (F2R (S754_finite false m e) * IZR c)
            (Float.mul_int (S754_finite false m e) c).
Proof.
  intros (my & ey & Hof & [H1 H2] & He & Hv) Hx.
  unfold Float.mul_int. rewrite Hof.
  destruct (SFmul_spec m e my ey H1) as (e' & k & Hc & Hr & Hk & Hmul).
  unfold F2R in *. rewrite <- Hv in *.
  pose proof (cexp_of_small _ _ _ Hc Hx ltac:(lia)) as He'.
  exists k, e'. unfold Float.prec, Float.emax. auto.
Qed.

Lemma to_int_nonneg q :
  q = S754_zero false \/ (exists m e, q = S754_finite false m e) ->
  exists v, Float.to_int q = Ok v /\ IZR v <= F2R q < IZR v + 1.
Proof.
  intros [-> | (m & e & ->)].
  - exists 0%Z. simpl. split; auto. lra.
  - apply to_int_floor.
Qed.

Lemma is_RN_one : is_RN 1 1.
Proof.
  apply (is_RN_exact _ (-52) (2 ^ 52)).
  - right. split; [lia|]. change (-52 + 52)%Z with 0%Z.
    change (-52 + 53)%Z with 1%Z. rewrite bpow_0, bpow_1. lra.
  - rewrite <- (bpow_IZR 52), <- bpow_add by lia. reflexivity.
Qed.

Lemma scaled_sound a b c :
  (0 < a <= b)%Z -> (0 < c < 2 ^ 53)%Z -> exact_const c ->
  exists v, scaled a b c = Ok v /\ scaled_sem (IZR a / IZR b) (IZR c) v.
Proof.
  intros [Ha Hab] Hc Hconst.
  assert (0 < IZR a) as HA by (apply IZR_lt; lia).
  assert (0 < IZR b) as HB by (apply IZR_lt; lia).
  assert (0 < IZR a / IZR b <= 1) as [Hx0 Hx1].
  { split; [apply Rdiv_lt_0_compat; lra|].
    apply Rmult_le_reg_r with (IZR b); [lra|].
    unfold Rdiv. rewrite Rmult_assoc, Rinv_l by lra. apply IZR_le in Hab. lra. }
  destruct (truediv_rounds a b Ha ltac:(lia)) as (q & Hq & Hrq).
  { apply Rle_trans with (1 := Hx1). rewrite <- bpow_0. apply bpow_le. lia. }
  destruct (rounds_to_RN _ _ Hx0 Hrq) as [HRN Hshape].
  assert (F2R q <= 1) as Hq1 by (apply (is_RN_mono _ 1 _ 1 Hx0 Hx1 HRN is_RN_one)).
  unfold scaled, mbind, result_bind. rewrite Hq. cbn [rbind].
  destruct Hshape as [[-> HF] | (m & e & -> & HF)].
  - exists 0%Z. split.
    + unfold Float.mul_int. destruct Hconst as (my & ey & -> & _). reflexivity.
    + exists 0. split; [exact HRN|]. left. auto.
  - assert (0 < IZR c) as HC by (apply IZR_lt; lia).
    assert (F2R (S754_finite false m e) * IZR c <= bpow 1000) as Hx2.
    { apply Rle_trans with (IZR (2 ^ 53)).
      - apply Rle_trans with (1 * IZR c); [nra|].
        rewrite Rmult_1_l. apply IZR_le. lia.
      - rewrite <- bpow_IZR by lia. apply bpow_le. lia. }
    pose proof (mul_int_rounds m e c Hconst Hx2) as Hrm.
    assert (0 < F2R (S754_finite false m e) * IZR c) as Hx3 by nra.
    destruct (rounds_to_RN _ _ Hx3 Hrm) as [HRN2 Hshape2].
    destruct (to_int_nonneg (Float.mul_int (S754_finite false m e) c)) as (v & Hv & Hfl).
    { destruct Hshape2 as [[-> _] | (m2 & e2 & -> & _)]; eauto. }
    exists v. split; auto.
    exists (F2R (S754_finite false m e)). split; auto. right. split; auto.
    eauto.
Qed.

Lemma scaled_sem_bounds x c v :
  0 < x <= 1 -> (0 < c)%Z -> is_RN (IZR c) (IZR c) ->
  scaled_sem x (IZR c) v -> (0 <= v <= c)%Z.
Proof.
  intros [Hx0 Hx1] Hc HRNc (V1 & HRN1 & [[_ ->] | (HV1 & V2 & HRN2 & Hv1 & Hv2)]).
  - lia.
  - assert (0 < IZR c) as HC by (apply IZR_lt; lia).
    assert (V1 <= 1) as HV11 by (apply (is_RN_mono _ 1 _ 1 Hx0 Hx1 HRN1 is_RN_one)).
    assert (0 < V1 * IZR c) as Hp by nra.
    assert (V2 <= IZR c) as HV2.
    { apply (is_RN_mono (V1 * IZR c) (IZR c)); auto. nra. }
    pose proof (is_RN_nonneg _ _ Hp HRN2) as HV20.
    split.
    + assert (-1 < v)%Z; [|lia]. apply lt_IZR. lra.
    + apply le_IZR. lra.
Qed.

Lemma scaled_sem_mono x x' c v v' :
  0 < x <= x' -> 0 < c ->
  scaled_sem x c v -> scaled_sem x' c v' -> (v <= v')%Z.
Proof.
  intros [Hx0 Hxx] Hc (V1 & HRN1 & H1) (V1' & HRN1' & H1').
  assert (V1 <= V1') as HV by (apply (is_RN_mono x x'); auto).
  assert (0 < x') as Hx0' by lra.
  destruct H1 as [[E1 ->] | (HV1 & V2 & HRN2 & Hv1 & Hv2)].
  - destruct H1' as [[_ ->] | (HV1' & V2' & HRN2' & Hv1' & Hv2')]; [lia|].
    assert (0 < V1' * c) as Hp by nra.
    pose proof (is_RN_nonneg _ _ Hp HRN2').
    assert (-1 < v')%Z; [|lia]. apply lt_IZR. lra.
  - destruct H1' as [[E1' ->] | (HV1' & V2' & HRN2' & Hv1' & Hv2')]; [lra|].
    assert (V2 <= V2') as HV2.
    { apply (is_RN_mono (V1 * c) (V1' * c)); auto; nra. }
    assert (v < v' + 1)%Z; [|lia]. apply lt_IZR. rewrite plus_IZR. lra.
Qed.

Lemma exact_const_shift c n :
  (0 < c)%Z -> (0 <= n < 1074)%Z -> (2 ^ 52 <= c * 2 ^ n < 2 ^ 53)%Z ->
  Float.of_int c = S754_finite false (Z.to_pos (c * 2 ^ n)) (- n) ->
  exact_const c.
Proof.
  intros Hc Hn Hb Hof. exists (Z.to_pos (c * 2 ^ n)), (- n)%Z.
  rewrite Z2Pos.id by lia. repeat split; auto; try lia.
  rewrite mult_IZR, <- bpow_IZR, Rmult_assoc, <- bpow_add by lia.
  replace (n + - n)%Z with 0%Z by lia. rewrite bpow_0. lra.
Qed.

Lemma exact_const_60 : exact_const 60.
Proof. apply (exact_const_shift 60 47); [lia | lia | lia | vm_compute; reflexivity]. Qed.

Lemma exact_const_35 : exact_const 35.
Proof. apply (exact_const_shift 35 47); [lia | lia | lia | vm_compute; reflexivity]. Qed.

Lemma exact_const_17 : exact_const 17.
Proof. apply (exact_const_shift 17 48); [lia | lia | lia | vm_compute; reflexivity]. Qed.

Lemma is_RN_unique x v v' : 0 < x -> is_RN x v -> is_RN x v' -> v = v'.
Proof.
  intros Hx H H'. apply Rle_antisym; eapply (is_RN_mono x x); eauto; lra.
Qed.

(** Comparisons of canonical floats, and the thresholds of the validator *)
Lemma rounds_to_canonical x q : 0 < x -> rounds_to x q -> canonical q.
Proof.
  intros Hx (k & e & -> & Hc & Hr & He).
  pose proof (cexp_of_pos_k _ _ _ Hx Hc Hr) as Hk.
  pose proof (cexp_of_ge _ _ Hc) as Hege.
  unfold rounded, canonical.
  destruct (Z.eqb_spec k 0) as [E0|E0]; [left; reflexivity|right].
  destruct (Z.eqb_spec k (2 ^ 53)) as [E1|E1].
  - destruct (e + 1 <=? 971)%Z eqn:E2; [|lia].
    exists (2 ^ 52)%positive, (e + 1)%Z.
    split; [reflexivity|]. split; [lia|].
    split; [apply Z.ltb_lt; reflexivity|]. left. apply Z.leb_le. reflexivity.
  - destruct (e <=? 971)%Z eqn:E2; [|lia].
    exists (Z.to_pos k), e. rewrite Z2Pos.id by lia.
    split; [reflexivity|]. split; [lia|]. split; [lia|].
    destruct Hc as [[-> _]|[He' [Hx1 _]]]; [right; reflexivity|left].
    destruct Hr as [[_ H2] _].
    assert (bpow 52 <= x / bpow e) as Hb.
    { apply (proj2 (scale_bounds (x / bpow e) x e 52 Hx eq_refl)).
      rewrite Z.add_comm. auto. }
    rewrite (bpow_IZR 52) in Hb by lia.
    assert (2 ^ 52 - 1 < k)%Z; [|lia]. apply lt_IZR. rewrite minus_IZR. lra.
Qed.

Lemma canonical_nonneg f : canonical f -> 0 <= F2R f.
Proof.
  intros [-> | (m & e & -> & _)]; simpl; [lra|].
  pose proof (bpow_gt_0 e). assert (0 < IZR (Z.pos m)) by (apply IZR_lt; lia). nra.
Qed.

Lemma canonical_lt_exp m1 e1 m2 e2 :
  (Z.pos m1 < 2 ^ 53)%Z -> (2 ^ 52 <= Z.pos m2)%Z -> (e1 < e2)%Z ->
  IZR (Z.pos m1) * bpow e1 < IZR (Z.pos m2) * bpow e2.
Proof.
  intros H1 H2 He. pose proof (bpow_gt_0 e1). pose proof (bpow_gt_0 e2).
  apply Rlt_le_trans with (IZR (2 ^ 53) * bpow e1).
  { apply Rmult_lt_compat_r; [lra|]. apply IZR_lt. lia. }
  apply Rle_trans with (IZR (2 ^ 52) * bpow e2).
  2:{ apply Rmult_le_compat_r; [lra|]. apply IZR_le. lia. }
  rewrite <- !bpow_IZR by lia. rewrite <- !bpow_add. apply bpow_le. lia.
Qed.

Lemma SFcompare_canonical f g :
  canonical f -> canonical g ->
  SFcompare f g = Some Lt /\ F2R f < F2R g \/
  SFcompare f g = Some Eq /\ F2R f = F2R g \/
  SFcompare f g = Some Gt /\ F2R g < F2R f.
Proof.
  intros [-> | (m1 & e1 & -> & He1 & Hm1 & Hc1)] [-> | (m2 & e2 & -> & He2 & Hm2 & Hc2)].
  - right; left. split; reflexivity.
  - left. split; [reflexivity|]. simpl.
    pose proof (bpow_gt_0 e2). assert (0 < IZR (Z.pos m2)) by (apply IZR_lt; lia). nra.
  - right; right. split; [reflexivity|]. simpl.
    pose proof (bpow_gt_0 e1). assert (0 < IZR (Z.pos m1)) by (apply IZR_lt; lia). nra.
  - unfold SFcompare, F2R.
    destruct (Z.compare_spec e1 e2) as [E|E|E].
    + subst e2. rewrite Pos.compare_cont_spec. simpl Pos.switch_Eq.
      pose proof (bpow_gt_0 e1).
      destruct (Pos.compare_spec m1 m2) as [E|E|E].
      * right; left. subst. auto.
      * left. split; auto. apply Rmult_lt_compat_r; [lra|]. apply IZR_lt. lia.
      * right; right. split; auto. apply Rmult_lt_compat_r; [lra|]. apply IZR_lt. lia.
    + left. split; auto. apply canonical_lt_exp; auto. lia.
    + right; right. split; auto. apply canonical_lt_exp; auto. lia.
Qed.

Lemma ltb_canonical f g :
  canonical f -> canonical g -> (Float.ltb f g = true <-> F2R f < F2R g).
Proof.
  intros Hf Hg. unfold Float.ltb, SFltb.
  destruct (SFcompare_canonical f g Hf Hg) as [[-> H]|[[-> H]|[-> H]]];
    split; intros; try discriminate; auto; lra.
Qed.

Lemma leb_canonical f g :
  canonical f -> canonical g -> (Float.leb f g = true <-> F2R f <= F2R g).
Proof.
  intros Hf Hg. unfold Float.leb, SFleb.
  destruct (SFcompare_canonical f g Hf Hg) as [[-> H]|[[-> H]|[-> H]]];
    split; intros; try discriminate; auto; lra.
Qed.

Lemma canonical_lit_1_2 : canonical Float.lit_1_2.
Proof.
  right. exists 5404319552844595%positive, (-52)%Z.
  split; [reflexivity|]. split; [lia|]. split; [lia|]. left. lia.
Qed.

Lemma F2R_lit_1_2 : F2R Float.lit_1_2 = IZR 5404319552844595 * bpow (-52).
Proof. reflexivity. Qed.

Lemma bpow_52 : bpow 52 = IZR 4503599627370496.
Proof. rewrite bpow_IZR by lia. reflexivity. Qed.

Lemma bpow_m52 : bpow (-52) = / IZR 4503599627370496.
Proof.
  apply Rmult_eq_reg_r with (bpow 52); [|pose proof (bpow_gt_0 52); lra].
  rewrite <- bpow_add. change (-52 + 52)%Z with 0%Z.
  rewrite bpow_0, bpow_52, Rinv_l; lra.
Qed.

Lemma cexp_of_unit_binade x : 1 <= x < 2 -> cexp_of x (-52).
Proof.
  intros H. right. split; [lia|]. change (-52 + 52)%Z with 0%Z.
  change (-52 + 53)%Z with 1%Z. rewrite bpow_0, bpow_1. lra.
Qed.

Lemma is_RN_six_fifths : is_RN (6 / 5) (F2R Float.lit_1_2).
Proof.
  exists (-52)%Z, 5404319552844595%Z. split; [apply cexp_of_unit_binade; lra|].
  split; [|reflexivity].
  rewrite div_bpow. change (- -52)%Z with 52%Z. rewrite bpow_52.
  split; [lra|]. intros [|]; lra.
Qed.

Lemma is_RN_below_lit :
  is_RN (IZR 5404319552844594 * bpow (-52)) (IZR 5404319552844594 * bpow (-52)).
Proof.
  apply (is_RN_exact _ (-52) 5404319552844594); [|reflexivity].
  apply cexp_of_unit_binade. rewrite bpow_m52. lra.
Qed.

Lemma ratio_le a b c d :
  (0 < b)%Z -> (0 < d)%Z -> (a * d <= c * b)%Z -> IZR a / IZR b <= IZR c / IZR d.
Proof.
  intros Hb Hd H. apply IZR_lt in Hb, Hd. apply IZR_le in H.
  rewrite !mult_IZR in H.
  apply Rmult_le_reg_r with (IZR b * IZR d); [nra|].
  replace (IZR a / IZR b * (IZR b * IZR d)) with (IZR a * IZR d) by (field; lra).
  replace (IZR c / IZR d * (IZR b * IZR d)) with (IZR c * IZR b) by (field; lra).
  exact H.
Qed.

Lemma truediv_vs_1_2 w h :
  (0 < w < 2 ^ 31)%Z -> (0 < h < 2 ^ 31)%Z ->
  exists q, Float.truediv w h = Ok q /\ canonical q /\
    (Float.leb Float.lit_1_2 q = true <-> (6 * h <= 5 * w)%Z).
Proof.
  intros Hw Hh.
  assert (0 < IZR w) as HW by (apply IZR_lt; lia).
  assert (0 < IZR h) as HH by (apply IZR_lt; lia).
  assert (0 < IZR w / IZR h) as Hx by (apply Rdiv_lt_0_compat; lra).
  destruct (truediv_rounds w h ltac:(lia) ltac:(lia)) as (q & Hq & Hr).
  { apply Rle_trans with (IZR (2 ^ 31) / IZR 1).
    - apply ratio_le; lia.
    - rewrite <- bpow_IZR by lia. replace (bpow 31 / 1) with (bpow 31) by field.
      apply bpow_le. lia. }
  pose proof (rounds_to_canonical _ _ Hx Hr) as Hcan.
  destruct (rounds_to_RN _ _ Hx Hr) as [HRN _].
  exists q. split; auto. split; auto.
  rewrite (leb_canonical _ _ canonical_lit_1_2 Hcan).
  split.
  - intros Hle. destruct (Z_le_gt_dec (6 * h) (5 * w)) as [|Hgt]; auto. exfalso.
    assert (IZR w / IZR h <= IZR 5404319552844594 * bpow (-52)) as Hz.
    { rewrite bpow_m52. apply (ratio_le w h 5404319552844594 4503599627370496); lia. }
    pose proof (is_RN_mono _ _ _ _ Hx Hz HRN is_RN_below_lit) as Hm.
    rewrite F2R_lit_1_2 in Hle. pose proof (bpow_gt_0 (-52)). nra.
  - intros Hle. apply (is_RN_mono (6 / 5) (IZR w / IZR h)); auto using is_RN_six_fifths; [lra|].
    apply (ratio_le 6 5 w h); lia.
Qed.

Lemma exact_const_30 : exact_const 30.
Proof. apply (exact_const_shift 30 48); [lia | lia | lia | vm_compute; reflexivity]. Qed.

Lemma exact_const_canonical c :
  exact_const c -> canonical (Float.of_int c) /\ F2R (Float.of_int c) = IZR c.
Proof.
  intros (my & ey & -> & [H1 H2] & He & Hv). split; auto.
  right. exists my, ey. split; auto. split; [lia|]. split; auto.
Qed.

Lemma size_kb_vs_30 n :
  (0 <= n < 2 ^ 63)%Z ->
  exists q, Float.truediv n 1024 = Ok q /\
    (Float.ltb (Float.of_int 30) q = true <-> (30 * 1024 < n)%Z).
Proof.
  intros [Hn0 Hn1].
  assert (n = 0 \/ 0 < n)%Z as [-> | Hpos] by lia.
  { exists (S754_zero false). split; [reflexivity|]. split; [discriminate|lia]. }
  assert (0 < IZR n) as HN by (apply IZR_lt; lia).
  assert (0 < IZR n / IZR 1024) as Hx by (apply Rdiv_lt_0_compat; lra).
  destruct (truediv_rounds n 1024 ltac:(lia) ltac:(lia)) as (q & Hq & Hr).
  { apply Rle_trans with (IZR (2 ^ 63) / IZR 1).
    - apply ratio_le; lia.
    - rewrite <- bpow_IZR by lia. replace (bpow 63 / 1) with (bpow 63) by field.
      apply bpow_le. lia. }
  pose proof (rounds_to_canonical _ _ Hx Hr) as Hcan.
  destruct (rounds_to_RN _ _ Hx Hr) as [HRN _].
  destruct (exact_const_canonical 30 exact_const_30) as [Hc30 HF30].
  exists q. split; auto.
  rewrite (ltb_canonical _ _ Hc30 Hcan), HF30.
  split.
  - intros Hlt. destruct (Z_lt_ge_dec (30 * 1024) n) as [|Hge]; auto. exfalso.
    assert (F2R q <= 30); [|lra].
    apply (is_RN_mono (IZR n / IZR 1024) 30); auto using exact_const_RN, exact_const_30.
    replace 30 with (IZR 30 / IZR 1) by field. apply ratio_le; lia.
  - intros Hlt.
    assert (is_RN (IZR 30721 / IZR 1024) (IZR 30721 / IZR 1024)) as Hu.
    { apply (is_RN_exact _ (-48) (30721 * 2 ^ 38)).
      - right. split; [lia|]. change (-48 + 52)%Z with 4%Z.
        change (-48 + 53)%Z with 5%Z. rewrite !bpow_IZR by lia.
        change (IZR (2 ^ 4)) with 16. change (IZR (2 ^ 5)) with 32. lra.
      - rewrite mult_IZR, <- bpow_IZR, Rmult_assoc, <- bpow_add by lia.
        change (38 + -48)%Z with (- (10))%Z. rewrite <- div_bpow, bpow_IZR by lia.
        reflexivity. }
    assert (IZR 30721 / IZR 1024 <= F2R q); [|lra].
    apply (is_RN_mono (IZR 30721 / IZR 1024) (IZR n / IZR 1024)); auto; [lra|].
    apply ratio_le; lia.
Qed.

Local Close Scope R_scope.
Local Open Scope Z_scope.

Lemma span_ok_const c : span_ok c -> 0 < c < 2 ^ 53 /\ exact_const c.
Proof.
  intros [-> | [-> | ->]]; (split; [lia|]);
    auto using exact_const_60, exact_const_35, exact_const_17.
Qed.

Lemma ratio_bounds a b : 0 < a <= b -> (0 < IZR a / IZR b <= 1)%R.
Proof.
  intros [Ha Hab].
  assert (0 < IZR a)%R as HA by (apply IZR_lt; lia).
  assert (0 < IZR b)%R as HB by (apply IZR_lt; lia).
  split; [apply Rdiv_lt_0_compat; lra|].
  apply Rmult_le_reg_r with (IZR b); [lra|].
  unfold Rdiv. rewrite Rmult_assoc, Rinv_l by lra. apply IZR_le in Hab. lra.
Qed.

Lemma scaled_total idx total span :
  0 < idx <= total -> span_ok span ->
  exists v, scaled idx total span = Ok v /\ 0 <= v <= span.
Proof.
  intros Hidx Hs. destruct (span_ok_const _ Hs) as [Hc Hconst].
  destruct (scaled_sound idx total span Hidx Hc Hconst) as (v & Hv & Hsem).
  exists v. split; auto.
  apply (scaled_sem_bounds (IZR idx / IZR total)); auto.
  - apply ratio_bounds; auto.
  - lia.
  - apply exact_const_RN; auto.
Qed.

Lemma scaled_monotone idx idx' total span v v' :
  0 < idx <= idx' -> idx' <= total -> span_ok span ->
  scaled idx total span = Ok v -> scaled idx' total span = Ok v' -> v <= v'.
Proof.
  intros [Hidx Hii] Hit Hs Hv Hv'. destruct (span_ok_const _ Hs) as [Hc Hconst].
  destruct (scaled_sound idx total span ltac:(lia) Hc Hconst) as (w & Hw & Hsem).
  destruct (scaled_sound idx' total span ltac:(lia) Hc Hconst) as (w' & Hw' & Hsem').
  assert (w = v) as <- by congruence. assert (w' = v') as <- by congruence.
  apply (scaled_sem_mono (IZR idx / IZR total) (IZR idx' / IZR total) (IZR span)); auto.
  - split; [apply ratio_bounds; lia|].
    unfold Rdiv. apply Rmult_le_compat_r.
    + apply Rlt_le, Rinv_0_lt_compat, IZR_lt. lia.
    + apply IZR_le. lia.
  - apply IZR_lt. lia.
Qed.

Lemma scaled_full total span :
  0 < total -> span_ok span -> scaled total total span = Ok span.
Proof.
  intros Ht Hs. destruct (span_ok_const _ Hs) as [Hc Hconst].
  destruct (scaled_sound total total span ltac:(lia) Hc Hconst)
    as (v & Hv & V1 & HRN1 & Hsem).
  rewrite Hv. f_equal.
  assert (IZR total / IZR total = 1)%R as E1.
  { field. apply Rgt_not_eq, IZR_lt. lia. }
  rewrite E1 in HRN1.
  assert (V1 = 1%R) as -> by (apply (is_RN_unique 1); auto using is_RN_one; lra).
  destruct Hsem as [[H _] | (_ & V2 & HRN2 & Hv1 & Hv2)]; [lra|].
  rewrite Rmult_1_l in HRN2.
  assert (V2 = IZR span) as ->.
  { apply (is_RN_unique (IZR span)); auto using exact_const_RN.
    apply IZR_lt. lia. }
  apply le_IZR in Hv1. rewrite <- plus_IZR in Hv2. apply lt_IZR in Hv2. lia.
Qed.
End FloatFacts.

(** ** ImageValidator *)

Section ImageValidatorFacts.
Variable decode : bytes -> result (Z * Z).

Lemma truediv_zero_divisor a : Float.truediv a 0 = Raise ZeroDivisionError.
Proof. reflexivity. Qed.

Lemma aspect_ratio_zero w h :
  w = 0 \/ h = 0 -> exists e, aspect_ratio_of w h = Raise e.
Proof.
  intros [-> | ->]; unfold aspect_ratio_of, mbind, result_bind.
  - destruct (Float.truediv 0 h) as [q|e]; simpl; eauto.
  - simpl. eauto.
Qed.

Lemma is_valid_body_true data :
  is_valid_manga_image_body decode data 400 400 Float.lit_1_2 = Ok true <->
  exists w h a s,
    decode data = Ok (w, h) /\ aspect_ratio_of w h = Ok a /\
    img_size_kb_of data = Ok s /\
    400 < w /\ 400 < h /\ Float.leb Float.lit_1_2 a = true /\
    Float.ltb (Float.of_int 30) s = true.
Proof.
  unfold is_valid_manga_image_body, mbind, result_bind. split.
  - intros H. apply rbind_Ok in H as ([w h] & Hd & H).
    apply rbind_Ok in H as (a & Ha & H).
    apply rbind_Ok in H as (s & Hs & H).
    injection H as H.
    repeat (apply andb_prop in H as [H ?]).
    exists w, h, a, s. repeat split; auto; lia.
  - intros (w & h & a & s & Hd & Ha & Hs & Hw & Hh & Hasp & Hsz).
    rewrite Hd. cbn [rbind]. rewrite Ha. cbn [rbind]. rewrite Hs. cbn [rbind].
    rewrite Hasp, Hsz.
    assert ((400 <? w) = true) as -> by lia.
    assert ((400 <? h) = true) as -> by lia.
    reflexivity.
Qed.

Lemma is_valid_total data :
  is_valid_manga_image decode data = Ok true \/
  is_valid_manga_image decode data = Ok false.
Proof.
  unfold is_valid_manga_image, is_valid_manga_image_with.
  destruct (is_valid_manga_image_body decode data 400 400 Float.lit_1_2)
    as [[|]|e]; simpl; auto.
Qed.

Lemma is_valid_true_iff_body data :
  is_valid_manga_image decode data = Ok true <->
  is_valid_manga_image_body decode data 400 400 Float.lit_1_2 = Ok true.
Proof.
  unfold is_valid_manga_image, is_valid_manga_image_with.
  destruct (is_valid_manga_image_body decode data 400 400 Float.lit_1_2)
    as [[|]|e]; simpl; split; congruence.
Qed.

Lemma is_valid_not_true data :
  is_valid_manga_image decode data <> Ok true ->
  is_valid_manga_image decode data = Ok false.
Proof. destruct (is_valid_total data); congruence. Qed.

Lemma aspect_ratio_exact w h :
  0 < w < 2 ^ 31 -> 0 < h < 2 ^ 31 ->
  exists a, aspect_ratio_of w h = Ok a /\
    (Float.leb Float.lit_1_2 a = true <-> 6 * Z.min w h <= 5 * Z.max w h).
Proof.
  intros Hw Hh.
  destruct (FloatFacts.truediv_vs_1_2 w h Hw Hh) as (r1 & Hr1 & Hc1 & H1).
  destruct (FloatFacts.truediv_vs_1_2 h w Hh Hw) as (r2 & Hr2 & Hc2 & H2).
  unfold aspect_ratio_of, mbind, result_bind. rewrite Hr1. cbn [rbind].
  rewrite Hr2. cbn [rbind]. eexists. split; [reflexivity|].
  pose proof (FloatFacts.leb_canonical _ _ FloatFacts.canonical_lit_1_2 Hc1) as L1.
  pose proof (FloatFacts.leb_canonical _ _ FloatFacts.canonical_lit_1_2 Hc2) as L2.
  unfold Float.max. destruct (Float.ltb r1 r2) eqn:E.
  - apply (FloatFacts.ltb_canonical _ _ Hc1 Hc2) in E. rewrite H2. split; [lia|]. intros Hm.
    destruct (Z_le_gt_dec (6 * w) (5 * h)) as [|Hgt]; auto.
    assert (6 * h <= 5 * w) as Hb by lia.
    apply H1, L1 in Hb. apply H2, L2. lra.
  - assert (~ (FloatSem.F2R r1 < FloatSem.F2R r2)%R) as E'.
    { intros Hlt. apply (FloatFacts.ltb_canonical _ _ Hc1 Hc2) in Hlt. congruence. }
    rewrite H1. split; [lia|]. intros Hm.
    destruct (Z_le_gt_dec (6 * h) (5 * w)) as [|Hgt]; auto.
    assert (6 * w <= 5 * h) as Hb by lia.
    apply H2, L2 in Hb. apply H1, L1. lra.
Qed.

(** In exact arithmetic, for dimensions that fit the 31-bit size fields of
    the image formats and a buffer below 2^63 bytes. *)
Lemma is_valid_exact data w h :
  decode data = Ok (w, h) -> w < 2 ^ 31 -> h < 2 ^ 31 -> len data < 2 ^ 63 ->
  (is_valid_manga_image decode data = Ok true <->
   400 < w /\ 400 < h /\ 6 * Z.min w h <= 5 * Z.max w h /\
   30 * 1024 < len data).
Proof.
  intros Hd Hw Hh Hlen. rewrite is_valid_true_iff_body, is_valid_body_true.
  assert (0 <= len data) as Hl0 by (unfold len; lia).
  destruct (FloatFacts.size_kb_vs_30 (len data) ltac:(lia)) as (s & Hs & Hsz).
  split.
  - intros (w' & h' & a & s' & Hd' & Ha & Hs' & Hw' & Hh' & Hasp & Hsize).
    rewrite Hd in Hd'. injection Hd' as <- <-.
    destruct (aspect_ratio_exact w h ltac:(lia) ltac:(lia)) as (a' & Ha' & Hiff).
    rewrite Ha in Ha'. injection Ha' as <-.
    unfold img_size_kb_of in Hs'. rewrite Hs in Hs'. injection Hs' as <-.
    repeat split; auto; tauto.
  - intros (Hw' & Hh' & Hasp & Hsize).
    destruct (aspect_ratio_exact w h ltac:(lia) ltac:(lia)) as (a & Ha & Hiff).
    exists w, h, a, s. repeat split; auto; tauto.
Qed.
End ImageValidatorFacts.

(** C2. The image validator accepts a byte buffer exactly when the buffer
    decodes to an image of width [w > 400] and height [h > 400] whose aspect
    ratio [max(w/h, h/w)] is at least 1.2 and whose size [len/1024] exceeds
    30. The first conjunct states it on the floats the code computes; the
    fourth in exact arithmetic ([6 * min w h <= 5 * max w h] and
    [len > 30 * 1024]), for dimensions within the 31-bit size fields of the
    image formats. A buffer that does not decode is rejected, every buffer
    gets a decision, and the four test vectors of the specification hold. *)
Theorem C2_validator_thresholds (decode : bytes -> result (Z * Z)) (data : bytes) :
  (is_valid_manga_image decode data = Ok true <->
   exists w h a s,
     decode data = Ok (w, h) /\ aspect_ratio_of w h = Ok a /\
     img_size_kb_of data = Ok s /\
     400 < w /\ 400 < h /\ Float.leb Float.lit_1_2 a = true /\
     Float.ltb (Float.of_int 30) s = true) /\
  (is_valid_manga_image decode data = Ok true \/
   is_valid_manga_image decode data = Ok false) /\
  (forall e, decode data = Raise e ->
             is_valid_manga_image decode data = Ok false) /\
  (forall w h,
     decode data = Ok (w, h) -> w < 2 ^ 31 -> h < 2 ^ 31 -> len data < 2 ^ 63 ->
     (is_valid_manga_image decode data = Ok true <->
      400 < w /\ 400 < h /\ 6 * Z.min w h <= 5 * Z.max w h /\
      30 * 1024 < len data)) /\
  (decode data = Ok (399, 500) -> len data = 50 * 1024 ->
   is_valid_manga_image decode data = Ok false) /\
  (decode data = Ok (500, 500) -> len data = 50 * 1024 ->
   is_valid_manga_image decode data = Ok false) /\
  (decode data = Ok (500, 800) -> len data = 20 * 1024 ->
   is_valid_manga_image decode data = Ok false) /\
  (decode data = Ok (500, 800) -> len data = 50 * 1024 ->
   is_valid_manga_image decode data = Ok true).
Proof.
  split; [rewrite is_valid_true_iff_body; apply is_valid_body_true|].
  split; [apply is_valid_total|].
  split.
  { intros e He. unfold is_valid_manga_image, is_valid_manga_image_with,
      is_valid_manga_image_body, mbind, result_bind. rewrite He. reflexivity. }
  split; [intros w h; apply is_valid_exact|].
  repeat split; intros Hd Hl.
  - apply is_valid_not_true. rewrite (is_valid_exact decode data _ _ Hd); lia.
  - apply is_valid_not_true. rewrite (is_valid_exact decode data _ _ Hd); lia.
  - apply is_valid_not_true. rewrite (is_valid_exact decode data _ _ Hd); lia.
  - rewrite (is_valid_exact decode data _ _ Hd); lia.
Qed.

Lemma C2_validator_thresholds_witness :
  is_valid_manga_image (fun _ => Ok (500, 800)) (repeat Byte.x00 51200) = Ok true.
Proof.
  apply (proj2 (proj2 (proj2 (proj2 (proj2 (proj2 (proj2
           (C2_validator_thresholds (fun _ => Ok (500, 800))
              (repeat Byte.x00 51200))))))))).
  - reflexivity.
  - vm_compute. reflexivity.
Defined.

(** C9. The image validator is total: for every decoder, buffer and
    thresholds it returns a boolean and never raises; every exception of its
    body is turned into [False]; in particular a decoded image with a zero
    width or height, whose aspect ratio divides by zero, is rejected. *)
Theorem C9_validator_total (decode : bytes -> result (Z * Z)) (data : bytes)
    (min_width min_height : Z) (min_aspect_ratio : Float.float) :
  (exists b, is_valid_manga_image_with decode data min_width min_height
               min_aspect_ratio = Ok b) /\
  (forall e,
     is_valid_manga_image_body decode data min_width min_height min_aspect_ratio
     = Raise e ->
     is_valid_manga_image_with decode data min_width min_height min_aspect_ratio
     = Ok false) /\
  (forall w h,
     decode data = Ok (w, h) -> w = 0 \/ h = 0 ->
     (exists e, aspect_ratio_of w h = Raise e) /\
     is_valid_manga_image_with decode data min_width min_height min_aspect_ratio
     = Ok false).
Proof.
  unfold is_valid_manga_image_with. split; [apply try_except_total|].
  split; [intros e ->; reflexivity|].
  intros w h Hd Hz. destruct (aspect_ratio_zero w h Hz) as [e He].
  split; [eauto|].
  unfold is_valid_manga_image_body, mbind, result_bind.
  rewrite Hd. cbn [rbind]. rewrite He. reflexivity.
Qed.

Lemma C9_validator_total_witness :
  is_valid_manga_image_with (fun _ => Ok (640, 0)) [] 400 400 Float.lit_1_2
  = Ok false.
Proof.
  apply (proj2 (proj2 (C9_validator_total (fun _ => Ok (640, 0)) [] 400 400
                         Float.lit_1_2)) 640 0).
  - reflexivity.
  - right. reflexivity.
Defined.

(** ** ImageFetchWorker *)

Lemma io_bind_unfold {S A B} (m : io S A) (k : A -> io S B) (s : S) :
  (mbind k m) s = match m s with
                  | (Ok a, s') => k a s'
                  | (Raise e, s') => (Raise e, s')
                  end.
Proof. reflexivity. Qed.

Lemma is_valid_cases (decode : bytes -> result (Z * Z)) data :
  exists b, is_valid_manga_image decode data = Ok b.
Proof. destruct (is_valid_total decode data) as [-> | ->]; eauto. Qed.

(** What one call of the worker does, in one equation. *)
Lemma download_image_spec (E : Env) img_url referer img_index chapter_dir
    chapter_title (d : fs) :
  download_image E img_url referer img_index chapter_dir chapter_title d =
  match fetched E img_url referer with
  | Some data =>
      let p := temp_path chapter_dir img_index img_url in
      if open_ok E p && negb (FS.isdir p d)
      then (Ok (img_index, Some p, true), <[p := File data]> d)
      else (Ok (img_index, None, false), d)
  | None => (Ok (img_index, None, false), d)
  end.
Proof.
  unfold download_image, io_try, download_image_body, fetched.
  rewrite io_bind_unfold. unfold io_lift at 1.
  destruct (requests_get E img_url referer) as [resp|e]; [|reflexivity].
  rewrite io_bind_unfold. unfold io_lift at 1.
  destruct (raise_for_status resp) as [[]|e]; [|reflexivity].
  rewrite io_bind_unfold. unfold io_lift at 1.
  destruct (is_valid_cases (Image_open_size E) (content resp)) as [b ->].
  destruct b; cbn [negb]; [|reflexivity].
  rewrite io_bind_unfold. unfold io_fs, FS.write_file, temp_path, saved_extension.
  cbv zeta.
  destruct (open_ok E _ && negb (FS.isdir _ d)); reflexivity.
Qed.

(** C4. The single-image worker never propagates an exception: for every
    task, referer, directory and store it returns a result that carries the
    task's own index; when the retrieval fails in transport or with an error
    status, and more generally whenever its body raises, the result has no
    storage path and [accepted = false], and the store is unchanged. *)
Theorem C4_worker_absorbs_errors (E : Env) (img_url referer : string)
    (img_index : nat) (chapter_dir chapter_title : string) (d : fs) :
  (exists path accepted d',
     download_image E img_url referer img_index chapter_dir chapter_title d
     = (Ok (img_index, path, accepted), d')) /\
  (forall e, requests_get E img_url referer = Raise e ->
     download_image E img_url referer img_index chapter_dir chapter_title d
     = (Ok (img_index, None, false), d)) /\
  (forall img_response e,
     requests_get E img_url referer = Ok img_response ->
     raise_for_status img_response = Raise e ->
     download_image E img_url referer img_index chapter_dir chapter_title d
     = (Ok (img_index, None, false), d)) /\
  (forall e d',
     download_image_body E img_url referer img_index chapter_dir chapter_title d
     = (Raise e, d') ->
     download_image E img_url referer img_index chapter_dir chapter_title d
     = (Ok (img_index, None, false), d')).
Proof.
  split; [|split; [|split]].
  - rewrite download_image_spec.
    destruct (fetched E img_url referer); cbv zeta;
      [destruct (open_ok E _ && negb (FS.isdir _ d))|]; eauto.
  - intros e He. rewrite download_image_spec. unfold fetched. rewrite He.
    reflexivity.
  - intros resp e Hr Hs. rewrite download_image_spec. unfold fetched.
    rewrite Hr, Hs. reflexivity.
  - intros e d' Hb. unfold download_image, io_try. rewrite Hb. reflexivity.
Qed.

Lemma C4_worker_absorbs_errors_witness :
  download_image sample_env "https://cdn.example/p/down.png"
    "https://mangapark.net/c1" 3 "downloads/Ch 1" "Ch 1" ∅
  = (Ok (3%nat, None, false), ∅).
Proof.
  apply (proj1 (proj2 (C4_worker_absorbs_errors sample_env
           "https://cdn.example/p/down.png" "https://mangapark.net/c1" 3
           "downloads/Ch 1" "Ch 1" ∅)) RequestException).
  reflexivity.
Defined.

(** ** Strings, decimal formatting and paths *)

Local Open Scope nat_scope.
Local Arguments String.append : simpl nomatch.

Lemma app_assoc_s (a b c : string) : (a +:+ b) +:+ c = a +:+ (b +:+ c).
Proof. induction a; simpl; f_equal; auto. Qed.

Lemma app_nil_r_s (a : string) : a +:+ "" = a.
Proof. induction a; simpl; f_equal; auto. Qed.

Lemma split_nonempty c s : Str.split c s <> [].
Proof.
  destruct s as [|a s]; simpl; [discriminate|].
  destruct (decide (a = c)); [discriminate|].
  destruct (Str.split c s); discriminate.
Qed.

Lemma split_app_sep c a b :
  Str.split c (a +:+ String c b) = Str.split c a ++ Str.split c b.
Proof.
  induction a as [|x a IH]; simpl.
  - destruct (decide (c = c)); [reflexivity|congruence].
  - destruct (decide (x = c)); [rewrite IH; reflexivity|].
    rewrite IH. pose proof (split_nonempty c a).
    destruct (Str.split c a); [congruence|reflexivity].
Qed.

Lemma split_no_sep c s : Str.contains_char c s = false -> Str.split c s = [s].
Proof.
  induction s as [|a s IH]; simpl; [reflexivity|].
  intros H. apply orb_false_iff in H as [H1 H2].
  apply bool_decide_eq_false in H1.
  destruct (decide (a = c)); [congruence|]. rewrite IH by auto. reflexivity.
Qed.

Lemma last_item_app l1 l2 :
  l2 <> [] -> Str.last_item (l1 ++ l2) = Str.last_item l2.
Proof.
  unfold Str.last_item. intros H. induction l1 as [|x l1 IH]; [reflexivity|].
  simpl. destruct (l1 ++ l2) eqn:E; [|exact IH].
  destruct l1; simpl in E; congruence.
Qed.

Lemma last_split_sep c a b :
  Str.contains_char c b = false ->
  Str.last_item (Str.split c (a +:+ String c b)) = b.
Proof.
  intros H. rewrite split_app_sep, last_item_app by apply split_nonempty.
  rewrite split_no_sep by auto. reflexivity.
Qed.

Lemma contains_char_app c a b :
  Str.contains_char c (a +:+ b) = Str.contains_char c a || Str.contains_char c b.
Proof. induction a; simpl; [reflexivity|]. rewrite IHa, orb_assoc. reflexivity. Qed.

Lemma endswith_spec x s :
  Str.endswith x s = true <-> exists pre, s = pre +:+ x.
Proof.
  induction s as [|a s IH]; simpl.
  - rewrite orb_false_r, bool_decide_eq_true. split.
    + intros <-. exists "". reflexivity.
    + intros [pre H]. destruct pre; simpl in H; [auto|discriminate].
  - rewrite orb_true_iff, bool_decide_eq_true, IH. split.
    + intros [<- | [pre ->]]; [exists ""; reflexivity|].
      exists (String a pre). reflexivity.
    + intros [[|b pre] H]; simpl in H; [left; auto|].
      injection H as -> ->. right. eauto.
Qed.

(** Two strings cut at their first separator. *)
Lemma app_sep_inj c s1 t1 s2 t2 :
  Str.contains_char c s1 = false -> Str.contains_char c s2 = false ->
  s1 +:+ String c t1 = s2 +:+ String c t2 -> s1 = s2 /\ t1 = t2.
Proof.
  revert s2. induction s1 as [|a s1 IH]; intros [|b s2] H1 H2 H; simpl in *.
  - injection H as ->. auto.
  - injection H as -> _. rewrite bool_decide_eq_true_2 in H2 by auto. discriminate.
  - injection H as -> _. rewrite bool_decide_eq_true_2 in H1 by auto. discriminate.
  - injection H as -> H. apply orb_false_iff in H1 as [_ H1].
    apply orb_false_iff in H2 as [_ H2].
    destruct (IH s2 H1 H2 H) as [-> ->]. auto.
Qed.

(** ** Decimal formatting *)

Lemma pretty_N_char_digit x :
  (x < 10)%N -> Ascii.is_nat (pretty_N_char x) = Some (N.to_nat x).
Proof.
  intros H.
  assert (x = 0 \/ x = 1 \/ x = 2 \/ x = 3 \/ x = 4 \/ x = 5 \/ x = 6 \/ x = 7
          \/ x = 8 \/ x = 9)%N as Hc by lia.
  repeat (destruct Hc as [-> | Hc]; [reflexivity|]). subst. reflexivity.
Qed.

Lemma pretty_N_go_digits x : forall s,
  all_digits s = true -> all_digits (pretty_N_go x s) = true.
Proof.
  induction (N.lt_wf_0 x) as [x _ IH]. intros s Hs.
  assert (x = 0 \/ 0 < x)%N as [-> | Hx] by lia; [exact Hs|].
  rewrite pretty_N_go_step by auto. apply IH.
  - apply N.div_lt; lia.
  - simpl. rewrite Hs, andb_true_r. unfold is_digit.
    rewrite pretty_N_char_digit; [reflexivity|]. apply N.mod_lt. lia.
Qed.

Lemma pretty_N_go_value x : forall s,
  Str.decimal_value (pretty_N_go x s)
  = N.to_nat x * 10 ^ String.length s + Str.decimal_value s.
Proof.
  induction (N.lt_wf_0 x) as [x _ IH]. intros s.
  assert (x = 0 \/ 0 < x)%N as [-> | Hx] by lia; [reflexivity|].
  rewrite pretty_N_go_step by auto. rewrite IH by (apply N.div_lt; lia).
  simpl Str.decimal_value. simpl String.length.
  rewrite pretty_N_char_digit by (apply N.mod_lt; lia). simpl default.
  rewrite Nat.pow_succ_r'.
  pose proof (N.div_mod x 10 ltac:(lia)) as Hdm.
  assert (N.to_nat x = 10 * N.to_nat (x `div` 10) + N.to_nat (x `mod` 10)) as ->.
  { rewrite Hdm at 1. rewrite N2Nat.inj_add, N2Nat.inj_mul. reflexivity. }
  lia.
Qed.

Lemma pretty_nat_digits (n : nat) : all_digits (pretty n) = true.
Proof.
  unfold pretty, pretty_nat, pretty, pretty_N.
  destruct (decide (N.of_nat n = 0%N)); [reflexivity|].
  apply pretty_N_go_digits. reflexivity.
Qed.

Lemma pretty_nat_value (n : nat) : Str.decimal_value (pretty n) = n.
Proof.
  unfold pretty, pretty_nat, pretty, pretty_N.
  destruct (decide (N.of_nat n = 0%N)) as [E|E].
  - simpl. lia.
  - rewrite pretty_N_go_value. simpl. lia.
Qed.

Lemma pretty_nat_nonempty (n : nat) : pretty n <> "".
Proof.
  unfold pretty, pretty_nat, pretty, pretty_N.
  destruct (decide (N.of_nat n = 0%N)) as [E|E]; [discriminate|].
  rewrite pretty_N_go_step by lia. intros H.
  pose proof (pretty_N_go_ne_0 (N.of_nat n `div` 10)
                (String (pretty_N_char (N.of_nat n `mod` 10)) "")) as Hne.
  assert (forall x s, s <> "" -> pretty_N_go x s <> "") as Hgo.
  { clear. intros x. induction (N.lt_wf_0 x) as [x _ IH]. intros s Hs.
    assert (x = 0 \/ 0 < x)%N as [-> | Hx] by lia; [exact Hs|].
    rewrite pretty_N_go_step by auto. apply IH; [apply N.div_lt; lia|discriminate]. }
  eapply Hgo; [|exact H]. discriminate.
Qed.

Lemma repeat_zero_value k s :
  Str.decimal_value (Str.repeat_char "0" k +:+ s) = Str.decimal_value s.
Proof. induction k; simpl; auto. Qed.

Lemma repeat_zero_digits k s :
  all_digits s = true -> all_digits (Str.repeat_char "0" k +:+ s) = true.
Proof. induction k; simpl; auto. Qed.

Lemma format_03d_value n : Str.decimal_value (Str.format_03d n) = n.
Proof. unfold Str.format_03d. rewrite repeat_zero_value. apply pretty_nat_value. Qed.

Lemma format_03d_inj n m : Str.format_03d n = Str.format_03d m -> n = m.
Proof. intros H. apply (f_equal Str.decimal_value) in H. rewrite !format_03d_value in H. auto. Qed.

Lemma format_03d_digits n : all_digits (Str.format_03d n) = true.
Proof. apply repeat_zero_digits, pretty_nat_digits. Qed.

Lemma format_03d_nonempty n : Str.format_03d n <> "".
Proof.
  unfold Str.format_03d. pose proof (pretty_nat_nonempty n).
  destruct (Str.repeat_char "0" (3 - String.length (pretty n))); simpl; [auto|discriminate].
Qed.

Lemma all_digits_no_char c s :
  is_digit c = false -> all_digits s = true -> Str.contains_char c s = false.
Proof.
  intros Hc. induction s as [|a s IH]; simpl; [reflexivity|].
  intros H. apply andb_prop in H as [Ha Hs]. rewrite IH by auto.
  rewrite orb_false_r. apply bool_decide_eq_false. congruence.
Qed.

(** ** Paths *)

Lemma startswith_slash n : no_slash n -> Str.startswith "/" n = false.
Proof.
  unfold no_slash. destruct n as [|a n]; simpl; [reflexivity|].
  intros H. apply orb_false_iff in H as [H _]. apply bool_decide_eq_false in H.
  rewrite andb_true_r. apply bool_decide_eq_false. congruence.
Qed.

Lemma join_no_slash d n : no_slash n -> Path.join d n = dir_prefix d +:+ n.
Proof.
  intros H. unfold Path.join, dir_prefix. rewrite startswith_slash by auto.
  destruct (bool_decide (d = "") || Str.endswith "/" d); [reflexivity|].
  rewrite app_assoc_s. reflexivity.
Qed.

Lemma join_inj d n1 n2 :
  no_slash n1 -> no_slash n2 -> Path.join d n1 = Path.join d n2 -> n1 = n2.
Proof.
  intros H1 H2. rewrite !join_no_slash by auto. apply String.app_inj.
Qed.

Lemma dir_prefix_cases d :
  dir_prefix d = "" \/ exists p, dir_prefix d = p +:+ "/".
Proof.
  unfold dir_prefix. destruct (bool_decide (d = "")) eqn:E; simpl.
  - apply bool_decide_eq_true in E. auto.
  - destruct (Str.endswith "/" d) eqn:E2; [|eauto].
    apply endswith_spec in E2. eauto.
Qed.

Lemma basename_join d n : no_slash n -> Path.basename (Path.join d n) = n.
Proof.
  intros H. rewrite join_no_slash by auto. unfold Path.basename.
  destruct (dir_prefix_cases d) as [-> | [p ->]].
  - simpl. rewrite split_no_sep by auto. reflexivity.
  - rewrite app_assoc_s. apply last_split_sep. exact H.
Qed.

Lemma join_nonempty d n : n <> "" -> no_slash n -> Path.join d n <> "".
Proof.
  intros Hn H. rewrite join_no_slash by auto.
  destruct (dir_prefix d); simpl; [auto|discriminate].
Qed.

(** ** Temporary and final names *)

Lemma saved_extension_in u : saved_extension u ∈ image_extensions.
Proof.
  unfold saved_extension. case_bool_decide; [auto|]. set_solver.
Qed.

Lemma image_extension_plain e :
  e ∈ image_extensions ->
  Str.contains_char "." e = false /\ Str.contains_char "/" e = false.
Proof.
  unfold image_extensions. intros H.
  repeat (apply elem_of_cons in H as [-> | H]; [split; reflexivity|]).
  inversion H.
Qed.

Lemma temp_name_no_slash i e : e ∈ image_extensions -> no_slash (temp_name i e).
Proof.
  intros He. destruct (image_extension_plain e He) as [_ H].
  unfold no_slash, temp_name.
  change ("temp_" +:+ Str.format_03d i +:+ "." +:+ e)
    with ("temp_" +:+ (Str.format_03d i +:+ ("." +:+ e))).
  rewrite !contains_char_app.
  rewrite (all_digits_no_char "/" (Str.format_03d i) eq_refl (format_03d_digits i)).
  simpl. exact H.
Qed.

Lemma final_name_no_slash k e :
  e ∈ image_extensions -> no_slash (Str.format_03d k +:+ "." +:+ e).
Proof.
  intros He. destruct (image_extension_plain e He) as [_ H].
  unfold no_slash. rewrite !contains_char_app.
  rewrite (all_digits_no_char "/" (Str.format_03d k) eq_refl (format_03d_digits k)).
  simpl. exact H.
Qed.

Lemma temp_name_inj i e j e' :
  temp_name i e = temp_name j e' -> i = j /\ e = e'.
Proof.
  unfold temp_name. intros H. apply String.app_inj in H.
  apply (app_sep_inj "." (Str.format_03d i) e (Str.format_03d j) e') in H.
  - destruct H as [H ->]. apply format_03d_inj in H. auto.
  - apply all_digits_no_char; [reflexivity|apply format_03d_digits].
  - apply all_digits_no_char; [reflexivity|apply format_03d_digits].
Qed.

Lemma final_name_inj k e k' e' :
  Str.format_03d k +:+ "." +:+ e = Str.format_03d k' +:+ "." +:+ e' ->
  k = k' /\ e = e'.
Proof.
  intros H.
  apply (app_sep_inj "." (Str.format_03d k) e (Str.format_03d k') e') in H.
  - destruct H as [H ->]. apply format_03d_inj in H. auto.
  - apply all_digits_no_char; [reflexivity|apply format_03d_digits].
  - apply all_digits_no_char; [reflexivity|apply format_03d_digits].
Qed.

Lemma temp_name_not_final i e k x : temp_name i e <> Str.format_03d k +:+ x.
Proof.
  intros H. pose proof (format_03d_digits k) as Hd.
  pose proof (format_03d_nonempty k) as Hn.
  destruct (Str.format_03d k) as [|c s]; [congruence|].
  unfold temp_name in H. simpl in H. injection H as <- _.
  simpl in Hd. discriminate.
Qed.

Lemma splitext_ext_temp d i e :
  e ∈ image_extensions ->
  Path.splitext_ext (Path.join d (temp_name i e)) = "." +:+ e.
Proof.
  intros He. destruct (image_extension_plain e He) as [Hdot _].
  unfold Path.splitext_ext. rewrite basename_join by (apply temp_name_no_slash; auto).
  unfold temp_name.
  change (Str.drop_leading_dots ("temp_" +:+ Str.format_03d i +:+ "." +:+ e))
    with ("temp_" +:+ Str.format_03d i +:+ "." +:+ e).
  change ("temp_" +:+ Str.format_03d i +:+ "." +:+ e)
    with (("temp_" +:+ Str.format_03d i) +:+ String "." e).
  rewrite contains_char_app. simpl Str.contains_char at 2.
  rewrite orb_true_r. rewrite last_split_sep by auto. reflexivity.
Qed.

(** ** ImageFetchPool *)

Section PoolFacts.
Context (E : Env) (referer chapter_dir chapter_title : string) (d0 : fs).

Local Abbreviation W := (image_worker E referer chapter_dir chapter_title).
Local Abbreviation st_of := (stored E referer chapter_dir d0).
Local Abbreviation res_of := (task_result E referer chapter_dir d0).
Local Abbreviation wr := (written E referer chapter_dir d0).
Local Abbreviation pool_inv := (pool_inv E referer chapter_dir d0).

Lemma temp_path_inj i u j u' :
  temp_path chapter_dir i u = temp_path chapter_dir j u' -> i = j.
Proof.
  unfold temp_path. intros H.
  apply join_inj in H; try (apply temp_name_no_slash, saved_extension_in).
  apply temp_name_inj in H. tauto.
Qed.

Lemma written_snoc done t :
  wr (done ++ [t]) =
  match st_of t with
  | Some data => <[temp_path chapter_dir t.1 t.2 := File data]> (wr done)
  | None => wr done
  end.
Proof. unfold written. rewrite foldl_snoc. reflexivity. Qed.

Lemma written_lookup_other done p :
  (forall t, t ∈ done -> is_Some (st_of t) -> temp_path chapter_dir t.1 t.2 <> p) ->
  wr done !! p = d0 !! p.
Proof.
  induction done as [|t done IH] using rev_ind; intros H; [reflexivity|].
  rewrite written_snoc.
  assert (wr done !! p = d0 !! p) as IH'.
  { apply IH. intros t' Ht'. apply H. set_solver. }
  destruct (st_of t) eqn:Es; [|exact IH'].
  rewrite lookup_insert_ne; [exact IH'|]. apply H; [set_solver|]. rewrite Es. eauto.
Qed.

Lemma written_lookup_in done t data :
  NoDup done.*1 -> t ∈ done -> st_of t = Some data ->
  wr done !! temp_path chapter_dir t.1 t.2 = Some (File data).
Proof.
  induction done as [|t' done IH] using rev_ind; intros Hnd Hin Hs; [set_solver|].
  rewrite fmap_app in Hnd. apply NoDup_app in Hnd as (Hnd1 & Hnd2 & _).
  rewrite written_snoc. apply elem_of_app in Hin as [Hin | Hin].
  - assert (t'.1 <> t.1) as Hne.
    { intros Heq. apply (Hnd2 t.1); [apply list_elem_of_fmap; eauto|].
      rewrite <- Heq. set_solver. }
    destruct (st_of t'); [|auto].
    rewrite lookup_insert_ne; [auto|]. intros Hp. apply temp_path_inj in Hp. auto.
  - apply list_elem_of_singleton in Hin as ->. rewrite Hs.
    apply lookup_insert_eq.
Qed.

Lemma image_worker_step t done :
  (forall t', t' ∈ done -> t'.1 <> t.1) ->
  W t (wr done) = (Ok (res_of t), wr (done ++ [t])).
Proof.
  intros Hne. unfold image_worker. rewrite download_image_spec, written_snoc.
  unfold task_result, stored.
  assert (FS.isdir (temp_path chapter_dir t.1 t.2) (wr done)
          = FS.isdir (temp_path chapter_dir t.1 t.2) d0) as ->.
  { unfold FS.isdir. rewrite written_lookup_other; [reflexivity|].
    intros t' Ht' _ Hp. apply temp_path_inj in Hp. exact (Hne t' Ht' Hp). }
  destruct (fetched E t.2 referer); [|reflexivity]. cbv zeta.
  destruct (open_ok E _ && negb (FS.isdir _ d0)); reflexivity.
Qed.

Lemma pool_inv_init tasks : pool_inv tasks (pool_init tasks d0).
Proof. exists []. simpl. auto. Qed.

Lemma pool_inv_step K tasks st st' :
  NoDup tasks.*1 -> pool_inv tasks st -> pool_step W K st st' -> pool_inv tasks st'.
Proof.
  intros Hnd (done & Hc & Hp & Hd) Hstep. destruct Hstep as [t q r c d Hlen | t q r1 r2 c d res d' Hw];
    simpl in *.
  - exists done. simpl. split; [auto|]. split; [|auto].
    rewrite <- Hp. rewrite <- !app_assoc. simpl. reflexivity.
  - subst d.
    assert (forall t', t' ∈ done -> t'.1 <> t.1) as Hne.
    { intros t' Ht' Heq.
      assert (NoDup (done ++ (r1 ++ t :: r2) ++ q).*1) as Hnd' by (rewrite Hp; auto).
      rewrite fmap_app in Hnd'. apply NoDup_app in Hnd' as (_ & Hnd' & _).
      apply (Hnd' t'.1); [apply list_elem_of_fmap; eauto|].
      rewrite Heq. apply list_elem_of_fmap. exists t. split; [auto|]. set_solver. }
    rewrite (image_worker_step t done Hne) in Hw. injection Hw as <- <-.
    exists (done ++ [t]). simpl. split; [rewrite Hc, fmap_app; reflexivity|].
    split; [|auto]. rewrite <- Hp.
    rewrite <- !app_assoc. simpl.
    apply Permutation_app_head. apply Permutation_middle.
Qed.

Lemma pool_inv_rtc K tasks st :
  NoDup tasks.*1 -> rtc (pool_step W K) (pool_init tasks d0) st -> pool_inv tasks st.
Proof.
  intros Hnd Hrtc. revert st Hrtc. apply rtc_ind_r.
  - apply pool_inv_init.
  - intros y z _ Hyz IH. eapply pool_inv_step; eauto.
Qed.

(** Every complete run reads one result per task, the workers having written
    what they store. *)
Lemma pool_run_spec K tasks st :
  NoDup tasks.*1 -> pool_run W K tasks d0 st ->
  exists done, done ≡ₚ tasks /\
    completed st = (fun t => Ok (res_of t)) <$> done /\ disk st = wr done.
Proof.
  intros Hnd [Hrtc [Hq Hr]].
  destruct (pool_inv_rtc K tasks st Hnd Hrtc) as (done & Hc & Hp & Hd).
  exists done. rewrite Hq, Hr, !app_nil_r in Hp. auto.
Qed.
End PoolFacts.

(** The executable scheduler follows the step relation and finishes. *)
Section Scheduler.
Context {T R : Type} (work : T -> io fs R).

Lemma pool_fill_rtc K : forall q r c d,
  rtc (pool_step work K)
    {| queued := q; running := r; completed := c; disk := d |}
    {| queued := (pool_fill K q r).1; running := (pool_fill K q r).2;
       completed := c; disk := d |}.
Proof.
  induction q as [|t q IH]; intros r c d; simpl; [reflexivity|].
  destruct (length r <? K) eqn:Hl; [|reflexivity].
  apply Nat.ltb_lt in Hl.
  eapply rtc_l; [apply pool_start; exact Hl|]. apply IH.
Qed.

Lemma pool_fill_count K : forall q r : list T,
  length (pool_fill K q r).1 + length (pool_fill K q r).2 = length q + length r.
Proof.
  induction q as [|t q IH]; intros r; simpl; [reflexivity|].
  destruct (length r <? K); [|reflexivity].
  rewrite IH, length_app. simpl. lia.
Qed.

Lemma pool_fill_idle K : forall q r : list T,
  1 <= K -> (pool_fill K q r).2 = [] -> (pool_fill K q r).1 = [].
Proof.
  induction q as [|t q IH]; intros r HK; simpl; [auto|].
  destruct (length r <? K) eqn:Hl.
  - apply IH. exact HK.
  - simpl. intros ->. apply Nat.ltb_ge in Hl. simpl in Hl. lia.
Qed.

Lemma run_pool_rtc choose K : forall fuel step st,
  rtc (pool_step work K) st (run_pool work choose K fuel step st).
Proof.
  induction fuel as [|fuel IH]; intros step [q r c d]; simpl; [reflexivity|].
  pose proof (pool_fill_rtc K q r c d) as Hfill.
  destruct (pool_fill K q r) as [q' r'] eqn:Ef. simpl in Hfill.
  destruct (r' !! (choose step `mod` length r')) as [t|] eqn:Et; [|exact Hfill].
  destruct (work t d) as [res d'] eqn:Ew.
  etrans; [exact Hfill|].
  eapply rtc_l; [|apply IH].
  rewrite <- (take_drop_middle r' _ t Et) at 1.
  rewrite delete_take_drop. apply pool_finish. exact Ew.
Qed.

Lemma run_pool_done choose K : forall fuel step st,
  1 <= K -> length (queued st) + length (running st) <= fuel ->
  pool_done (run_pool work choose K fuel step st).
Proof.
  induction fuel as [|fuel IH]; intros step [q r c d] HK Hn; simpl in *.
  - destruct q, r; simpl in Hn; try lia. split; reflexivity.
  - pose proof (pool_fill_count K q r) as Hcount.
    pose proof (pool_fill_idle K q r HK) as Hidle.
    destruct (pool_fill K q r) as [q' r'] eqn:Ef. simpl in *.
    destruct (r' !! (choose step `mod` length r')) as [t|] eqn:Et.
    + destruct (work t d) as [res d'] eqn:Ew.
      apply IH; [exact HK|]. simpl.
      apply lookup_lt_Some in Et.
      rewrite length_delete by (apply lookup_lt_is_Some; auto). lia.
    + destruct r' as [|x r'].
      * split; simpl; auto.
      * apply lookup_ge_None in Et.
        pose proof (Nat.mod_upper_bound (choose step) (length (x :: r')) ltac:(simpl; lia)).
        lia.
Qed.

Lemma run_pool_run choose K tasks d :
  1 <= K ->
  pool_run work K tasks d
    (run_pool work choose K (length tasks) 0 (pool_init tasks d)).
Proof.
  intros HK. split; [apply run_pool_rtc|].
  apply run_pool_done; [exact HK|]. simpl. lia.
Qed.
End Scheduler.

(** ** ChapterAssembler: collecting and sorting *)

Lemma collect_successful_ok rs acc :
  collect_successful (Ok <$> rs) acc = Ok (acc ++ filter (fun r => r.2 = true) rs).
Proof.
  revert acc. induction rs as [|r rs IH]; intros acc; simpl.
  - rewrite app_nil_r. reflexivity.
  - rewrite IH. destruct (r.2) eqn:Hr.
    + rewrite filter_cons_True by exact Hr. rewrite <- app_assoc. reflexivity.
    + rewrite filter_cons_False by congruence. reflexivity.
Qed.

Section AssemblerFacts.
Context (E : Env) (referer chapter_dir : string) (d0 : fs).

Local Abbreviation st_of := (stored E referer chapter_dir d0).
Local Abbreviation res_of := (task_result E referer chapter_dir d0).
Local Abbreviation acc_of := (accepted_files E referer chapter_dir d0).

Lemma accepted_files_cons t tasks :
  acc_of (t :: tasks) =
  match st_of t with
  | Some data => (t, data) :: acc_of tasks
  | None => acc_of tasks
  end.
Proof. unfold accepted_files. simpl. destruct (st_of t); reflexivity. Qed.

Lemma filter_task_results done :
  filter (fun r => r.2 = true) (res_of <$> done) = results_of chapter_dir (acc_of done).
Proof.
  induction done as [|t done IH]; [reflexivity|].
  rewrite fmap_cons, accepted_files_cons. unfold task_result at 1.
  destruct (st_of t) as [data|].
  - rewrite filter_cons_True by reflexivity. unfold results_of. rewrite fmap_cons.
    f_equal. exact IH.
  - rewrite filter_cons_False by (simpl; congruence). exact IH.
Qed.

Lemma accepted_files_elem f tasks :
  f ∈ acc_of tasks <-> f.1 ∈ tasks /\ st_of f.1 = Some f.2.
Proof.
  unfold accepted_files. rewrite list_elem_of_omap. split.
  - intros (t & Ht & Hf). destruct (st_of t) as [data|] eqn:Es; [|discriminate].
    simpl in Hf. injection Hf as <-. simpl. auto.
  - intros [Ht Hs]. exists f.1. split; [exact Ht|]. rewrite Hs. simpl.
    destruct f as [t data]. reflexivity.
Qed.

Lemma accepted_files_perm done tasks :
  done ≡ₚ tasks -> acc_of done ≡ₚ acc_of tasks.
Proof. intros Hp. unfold accepted_files. rewrite Hp. reflexivity. Qed.

Lemma accepted_files_increasing tasks :
  increasing tasks -> StronglySorted index_lt (results_of chapter_dir (acc_of tasks)).
Proof.
  unfold increasing. induction 1 as [|t tasks Hs IH Hall]; [constructor|].
  rewrite accepted_files_cons. destruct (st_of t) as [data|]; [|exact IH].
  unfold results_of. rewrite fmap_cons. constructor; [exact IH|].
  apply Forall_forall. intros r Hr.
  apply list_elem_of_fmap in Hr as (f & -> & Hf).
  apply accepted_files_elem in Hf as [Hf _].
  rewrite Forall_forall in Hall. unfold index_lt. simpl. apply Hall, Hf.
Qed.
End AssemblerFacts.

Lemma enumerate_from_increasing (k : nat) (l : list string) :
  increasing (imap (fun i x => (k + i, x)) l).
Proof.
  unfold increasing. revert k. induction l as [|x l IH]; intros k; [constructor|].
  rewrite imap_cons.
  assert (imap ((fun i x => (k + i, x)) ∘ S) l = imap (fun i x => (S k + i, x)) l) as ->.
  { apply imap_ext. intros i y _. simpl. f_equal. lia. }
  constructor; [apply IH|].
  apply Forall_forall. intros t Ht.
  apply list_elem_of_lookup in Ht as [i Hi].
  rewrite list_lookup_imap in Hi. destruct (l !! i); [|discriminate].
  simpl in Hi. injection Hi as <-. simpl. lia.
Qed.

Lemma enumerate_increasing (l : list string) : increasing (enumerate l).
Proof. apply (enumerate_from_increasing 0). Qed.

Lemma increasing_NoDup tasks : increasing tasks -> NoDup tasks.*1.
Proof.
  unfold increasing. induction 1 as [|t tasks Hs IH Hall]; [constructor|].
  rewrite fmap_cons. constructor; [|exact IH].
  intros Hin. apply list_elem_of_fmap in Hin as (t' & Heq & Ht').
  rewrite Forall_forall in Hall. specialize (Hall t' Ht'). lia.
Qed.

Lemma enumerate_lookup (l : list string) i t :
  enumerate l !! i = Some t <-> t.1 = i /\ l !! i = Some t.2.
Proof.
  unfold enumerate. rewrite list_lookup_imap. destruct (l !! i) as [x|]; simpl.
  - split.
    + intros H. injection H as <-. auto.
    + intros [<- H]. destruct t. simpl in *. congruence.
  - split; [discriminate|]. intros [_ H]. discriminate.
Qed.

Lemma length_enumerate {A} (l : list A) : length (enumerate l) = length l.
Proof. apply length_imap. Qed.

(** *** The insertion sort *)

Lemma insert_by_index_perm x l : insert_by_index x l ≡ₚ x :: l.
Proof.
  induction l as [|y l IH]; simpl; [reflexivity|].
  destruct (x.1.1 <=? y.1.1); [reflexivity|].
  rewrite IH. apply Permutation_swap.
Qed.

Lemma sort_by_index_perm l : sort_by_index l ≡ₚ l.
Proof.
  induction l as [|x l IH]; simpl; [reflexivity|].
  rewrite insert_by_index_perm, IH. reflexivity.
Qed.

Global Instance by_index_trans : Transitive by_index.
Proof. intros x y z. unfold by_index. lia. Qed.

Lemma insert_by_index_sorted x l :
  StronglySorted by_index l -> StronglySorted by_index (insert_by_index x l).
Proof.
  induction 1 as [|y l Hs IH Hall]; simpl.
  - repeat constructor.
  - destruct (x.1.1 <=? y.1.1) eqn:Hle.
    + apply Nat.leb_le in Hle. constructor; [constructor; auto|].
      constructor; [exact Hle|].
      eapply Forall_impl; [exact Hall|]. intros z Hz. unfold by_index in *. lia.
    + apply Nat.leb_gt in Hle. constructor; [exact IH|].
      rewrite insert_by_index_perm. constructor; [unfold by_index; lia|exact Hall].
Qed.

Lemma sort_by_index_sorted l : StronglySorted by_index (sort_by_index l).
Proof.
  induction l as [|x l IH]; simpl; [constructor|].
  apply insert_by_index_sorted, IH.
Qed.

Lemma index_lt_unique l x y :
  StronglySorted index_lt l -> x ∈ l -> y ∈ l -> x.1.1 = y.1.1 -> x = y.
Proof.
  induction 1 as [|z l Hs IH Hall]; intros Hx Hy Heq; [set_solver|].
  rewrite Forall_forall in Hall. unfold index_lt in Hall.
  apply elem_of_cons in Hx as [-> | Hx]; apply elem_of_cons in Hy as [-> | Hy].
  - reflexivity.
  - specialize (Hall y Hy). lia.
  - specialize (Hall x Hx). lia.
  - auto.
Qed.

Lemma index_lt_by_index l : StronglySorted index_lt l -> StronglySorted by_index l.
Proof.
  induction 1 as [|z l Hs IH Hall]; constructor; [exact IH|].
  eapply Forall_impl; [exact Hall|]. unfold index_lt, by_index. intros; lia.
Qed.

(** Sorting any arrangement of an index-ordered list gives that list. *)
Lemma sort_by_index_unique l l' :
  StronglySorted index_lt l' -> l ≡ₚ l' -> sort_by_index l = l'.
Proof.
  intros Hs Hp. apply (StronglySorted_unique_strong by_index).
  - intros x1 x2 H1 H2 H12 H21. apply (index_lt_unique l'); auto.
    + rewrite <- Hp, <- (sort_by_index_perm l). exact H1.
    + unfold by_index in *. lia.
  - apply sort_by_index_sorted.
  - apply index_lt_by_index, Hs.
  - rewrite sort_by_index_perm. exact Hp.
Qed.

(** ** ChapterAssembler: the renaming loop *)

Section RenameFacts.
Context (chapter_dir : string).

Lemma final_name_plain k t : final_name k t <> "" /\ no_slash (final_name k t).
Proof.
  unfold final_name. split.
  - pose proof (format_03d_nonempty k) as Hn.
    destruct (Str.format_03d k); [congruence|discriminate].
  - apply final_name_no_slash, saved_extension_in.
Qed.

Lemma temp_path_not_final i u k t :
  temp_path chapter_dir i u <> Path.join chapter_dir (final_name k t).
Proof.
  unfold temp_path. intros H. apply join_inj in H.
  - exact (temp_name_not_final _ _ _ _ H).
  - apply temp_name_no_slash, saved_extension_in.
  - apply final_name_plain.
Qed.

Lemma final_path_inj k t k' t' :
  Path.join chapter_dir (final_name k t) = Path.join chapter_dir (final_name k' t') ->
  k = k'.
Proof.
  intros H. apply join_inj in H; try apply final_name_plain.
  apply final_name_inj in H. tauto.
Qed.

Lemma final_paths_cons count f acc :
  final_paths chapter_dir count (f :: acc) =
  Path.join chapter_dir (final_name (S count) f.1) ::
  final_paths chapter_dir (S count) acc.
Proof.
  unfold final_paths. rewrite imap_cons. rewrite Nat.add_0_r. f_equal.
  apply imap_ext. intros i y _. simpl. do 3 f_equal. lia.
Qed.

Lemma final_paths_elem count acc p :
  p ∈ final_paths chapter_dir count acc ->
  exists k (f : nat * string * bytes),
    count < k /\ p = Path.join chapter_dir (final_name k f.1).
Proof.
  unfold final_paths. intros Hp. apply list_elem_of_lookup in Hp as [i Hi].
  rewrite list_lookup_imap in Hi. destruct (acc !! i) as [f|]; [|discriminate].
  simpl in Hi. injection Hi as <-. exists (S (count + i)), f. split; [lia|reflexivity].
Qed.

Lemma temp_paths_elem acc p :
  p ∈ temp_paths chapter_dir acc <->
  exists f, f ∈ acc /\ p = temp_path chapter_dir f.1.1 f.1.2.
Proof.
  unfold temp_paths. rewrite list_elem_of_fmap. split; intros (f & H1 & H2); eauto.
Qed.

Lemma final_paths_names acc :
  final_paths chapter_dir 0 acc = Path.join chapter_dir <$> final_names acc.*1.
Proof.
  unfold final_paths, final_names. rewrite fmap_imap, imap_fmap. reflexivity.
Qed.

Lemma length_final_names (l : list (nat * string)) : length (final_names l) = length l.
Proof. apply length_imap. Qed.

(** The loop renames every file of [accepted], in order. *)
Lemma rename_results_spec acc : forall count paths d,
  (forall f, f ∈ acc -> d !! temp_path chapter_dir f.1.1 f.1.2 = Some (File f.2)) ->
  NoDup acc.*1.*1 ->
  flat_dir chapter_dir d ->
  rename_results chapter_dir (results_of chapter_dir acc) count paths d =
  (Ok (count + length acc, paths ++ final_paths chapter_dir count acc),
   renamed chapter_dir count acc d).
Proof.
  induction acc as [|[t data] acc IH]; intros count paths d Hfiles Hnd Hflat.
  - simpl. rewrite app_nil_r, Nat.add_0_r. reflexivity.
  - rewrite final_paths_cons. unfold results_of. rewrite fmap_cons.
    fold (results_of chapter_dir acc). cbn [rename_results fst snd].
    rewrite bool_decide_eq_false_2.
    2:{ apply join_nonempty; [|apply temp_name_no_slash, saved_extension_in].
        unfold temp_name. discriminate. }
    rewrite io_bind_unfold. unfold io_fs, FS.rename.
    pose proof (Hfiles (t, data) ltac:(set_solver)) as Hfile. simpl in Hfile.
    rewrite Hfile.
    assert (Path.splitext_ext (temp_path chapter_dir t.1 t.2)
            = "." +:+ saved_extension t.2) as Hext.
    { unfold temp_path. apply splitext_ext_temp, saved_extension_in. }
    rewrite !Hext.
    fold (final_name (S count) t).
    assert (FS.isdir (Path.join chapter_dir (final_name (S count) t)) d = false) as ->.
    { unfold FS.isdir. specialize (Hflat (final_name (S count) t)).
      destruct (d !! Path.join chapter_dir (final_name (S count) t)) as [[|]|];
        try reflexivity.
      exfalso. apply Hflat; [apply final_name_plain..|reflexivity]. }
    rewrite !fmap_cons in Hnd. apply NoDup_cons in Hnd as [Hnotin Hnd].
    rewrite IH.
    + simpl. rewrite <- app_assoc. simpl.
      replace (S (count + length acc)) with (count + S (length acc)) by lia.
      reflexivity.
    + intros f Hf. rewrite lookup_insert_ne by (symmetry; apply temp_path_not_final).
      rewrite lookup_delete_ne; [apply Hfiles; set_solver|].
      intros Hp. apply temp_path_inj in Hp. apply Hnotin. simpl. rewrite Hp.
      apply list_elem_of_fmap. exists f.1. split; [reflexivity|].
      apply list_elem_of_fmap. eauto.
    + exact Hnd.
    + intros n Hn Hs. destruct (decide (Path.join chapter_dir n =
                                          Path.join chapter_dir (final_name (S count) t))) as [->|Hne].
      * rewrite lookup_insert_eq. discriminate.
      * rewrite lookup_insert_ne by auto.
        destruct (decide (Path.join chapter_dir n = temp_path chapter_dir t.1 t.2)) as [->|Hne'].
        -- rewrite lookup_delete_eq. discriminate.
        -- rewrite lookup_delete_ne by auto. apply Hflat; auto.
Qed.

Lemma renamed_lookup_other acc : forall count d p,
  p ∉ temp_paths chapter_dir acc -> p ∉ final_paths chapter_dir count acc ->
  renamed chapter_dir count acc d !! p = d !! p.
Proof.
  induction acc as [|[t data] acc IH]; intros count d p Ht Hf; [reflexivity|].
  rewrite final_paths_cons in Hf. unfold temp_paths in Ht. rewrite fmap_cons in Ht.
  apply not_elem_of_cons in Ht as [Ht1 Ht2]. apply not_elem_of_cons in Hf as [Hf1 Hf2].
  simpl. rewrite IH by auto.
  rewrite lookup_insert_ne by auto. rewrite lookup_delete_ne by auto. reflexivity.
Qed.

Lemma renamed_lookup_temp acc : forall count d p,
  p ∈ temp_paths chapter_dir acc -> renamed chapter_dir count acc d !! p = None.
Proof.
  induction acc as [|[t data] acc IH]; intros count d p Hp; [set_solver|].
  simpl. destruct (decide (p ∈ temp_paths chapter_dir acc)) as [Hin|Hnin].
  - apply IH, Hin.
  - unfold temp_paths in Hp. rewrite fmap_cons in Hp.
    apply elem_of_cons in Hp as [-> | Hp]; [|contradiction]. simpl.
    rewrite renamed_lookup_other; [| exact Hnin |].
    + rewrite lookup_insert_ne by (symmetry; apply temp_path_not_final).
      apply lookup_delete_eq.
    + intros Hf. apply final_paths_elem in Hf as (k & f & _ & Hf).
      exact (temp_path_not_final _ _ _ _ Hf).
Qed.

Lemma renamed_lookup_final acc : forall count d j f,
  acc !! j = Some f ->
  renamed chapter_dir count acc d
    !! Path.join chapter_dir (final_name (S (count + j)) f.1) = Some (File f.2).
Proof.
  induction acc as [|[t data] acc IH]; intros count d j f Hj; [discriminate|].
  destruct j as [|j]; simpl in Hj.
  - injection Hj as <-. simpl. rewrite Nat.add_0_r.
    rewrite renamed_lookup_other.
    + apply lookup_insert_eq.
    + intros Hp. apply temp_paths_elem in Hp as (f & _ & Hp).
      symmetry in Hp. exact (temp_path_not_final _ _ _ _ Hp).
    + intros Hp. apply final_paths_elem in Hp as (k & f & Hk & Hp).
      apply final_path_inj in Hp. lia.
  - simpl. replace (S (count + S j)) with (S (S count + j)) by lia.
    apply IH, Hj.
Qed.
End RenameFacts.

(** ** ChapterAssembler: what a complete run of the pool leads to *)

Section ChapterFacts.
Context (E : Env) (referer chapter_dir chapter_title : string) (d0 : fs).

Local Abbreviation W := (image_worker E referer chapter_dir chapter_title).
Local Abbreviation st_of := (stored E referer chapter_dir d0).
Local Abbreviation res_of := (task_result E referer chapter_dir d0).
Local Abbreviation acc_of := (accepted_files E referer chapter_dir d0).
Local Abbreviation wr := (written E referer chapter_dir d0).

Lemma fresh_flat : fresh_dir chapter_dir d0 -> flat_dir chapter_dir d0.
Proof. intros H n Hn Hs. rewrite (H n Hn Hs). discriminate. Qed.

Lemma written_flat done : flat_dir chapter_dir d0 -> flat_dir chapter_dir (wr done).
Proof.
  intros Hflat. induction done as [|t done IH] using rev_ind; [exact Hflat|].
  rewrite written_snoc. destruct (st_of t) as [data|]; [|exact IH].
  intros n Hn Hs.
  destruct (decide (temp_path chapter_dir t.1 t.2 = Path.join chapter_dir n)) as [->|Hne].
  - rewrite lookup_insert_eq. discriminate.
  - rewrite lookup_insert_ne by exact Hne. apply IH; auto.
Qed.

Lemma temp_paths_accepted tasks p :
  p ∈ temp_paths chapter_dir (acc_of tasks) <->
  exists t, t ∈ tasks /\ is_Some (st_of t) /\ p = temp_path chapter_dir t.1 t.2.
Proof.
  rewrite temp_paths_elem. split.
  - intros (f & Hf & ->). apply accepted_files_elem in Hf as [Hin Hs].
    exists f.1. rewrite Hs. eauto.
  - intros (t & Hin & [data Hs] & ->). exists (t, data). split; [|reflexivity].
    apply accepted_files_elem. auto.
Qed.

(** The store the workers leave does not depend on the order in which they
    finish. *)
Lemma written_perm done tasks :
  NoDup tasks.*1 -> done ≡ₚ tasks -> wr done = wr tasks.
Proof.
  intros Hnd Hp. apply map_eq. intros p.
  assert (NoDup done.*1) as Hnd' by (rewrite Hp; exact Hnd).
  destruct (decide (p ∈ temp_paths chapter_dir (acc_of tasks))) as [Hin|Hnin].
  - apply temp_paths_accepted in Hin as (t & Ht & [data Hs] & ->).
    rewrite (written_lookup_in _ _ _ _ _ t data Hnd Ht Hs).
    apply written_lookup_in; auto. rewrite Hp. exact Ht.
  - rewrite !written_lookup_other; [reflexivity| |].
    + intros t Ht Hs Heq. apply Hnin, temp_paths_accepted. eauto.
    + intros t Ht Hs Heq. apply Hnin, temp_paths_accepted.
      exists t. rewrite <- Hp. eauto.
Qed.

Lemma accepted_files_NoDup tasks : NoDup tasks.*1 -> NoDup (acc_of tasks).*1.*1.
Proof.
  induction tasks as [|t tasks IH]; intros Hnd; [constructor|].
  rewrite fmap_cons in Hnd. apply NoDup_cons in Hnd as [Hnotin Hnd].
  rewrite accepted_files_cons. destruct (st_of t) as [data|]; [|auto].
  rewrite !fmap_cons. constructor; [|auto]. simpl. intros Hin. apply Hnotin.
  apply list_elem_of_fmap in Hin as (t' & -> & Hin).
  apply list_elem_of_fmap in Hin as (f & -> & Hin).
  apply accepted_files_elem in Hin as [Hin _].
  apply list_elem_of_fmap. eauto.
Qed.

Lemma accepted_tasks_increasing tasks : increasing tasks -> increasing (acc_of tasks).*1.
Proof.
  unfold increasing. induction 1 as [|t tasks Hs IH Hall]; [constructor|].
  rewrite accepted_files_cons. destruct (st_of t) as [data|]; [|exact IH].
  rewrite fmap_cons. constructor; [exact IH|].
  apply Forall_forall. intros t' Ht'.
  apply list_elem_of_fmap in Ht' as (f & -> & Hf).
  apply accepted_files_elem in Hf as [Hf _].
  rewrite Forall_forall in Hall. simpl. apply Hall, Hf.
Qed.

(** What the loop over [as_completed] keeps, for any complete run. *)
Lemma collected_spec K tasks st :
  NoDup tasks.*1 -> pool_run W K tasks d0 st ->
  exists done, done ≡ₚ tasks /\
    completed st = (fun t => Ok (res_of t)) <$> done /\
    disk st = wr tasks /\
    collect_successful (completed st) [] = Ok (results_of chapter_dir (acc_of done)).
Proof.
  intros Hnd Hrun.
  destruct (pool_run_spec E referer chapter_dir chapter_title d0 K tasks st Hnd Hrun)
    as (done & Hp & Hc & Hd).
  exists done. split; [exact Hp|]. split; [exact Hc|]. split.
  - rewrite Hd. apply written_perm; auto.
  - rewrite Hc. rewrite (list_fmap_compose res_of Ok).
    rewrite collect_successful_ok. simpl. f_equal. apply filter_task_results.
Qed.

(** Collect, sort, rename: the outcome of any complete run of the pool. *)
Lemma assemble_spec K tasks st :
  increasing tasks -> flat_dir chapter_dir d0 ->
  pool_run W K tasks d0 st ->
  assemble chapter_dir (completed st) (disk st) =
  (Ok (length (acc_of tasks), final_paths chapter_dir 0 (acc_of tasks)),
   renamed chapter_dir 0 (acc_of tasks) (wr tasks)).
Proof.
  intros Hinc Hflat Hrun.
  pose proof (increasing_NoDup tasks Hinc) as Hnd.
  destruct (collected_spec K tasks st Hnd Hrun) as (done & Hp & _ & Hd & Hcol).
  unfold assemble. rewrite io_bind_unfold. unfold io_lift. rewrite Hcol.
  rewrite (sort_by_index_unique _ (results_of chapter_dir (acc_of tasks))).
  - rewrite Hd. rewrite rename_results_spec; [reflexivity| | |].
    + intros f Hf. apply accepted_files_elem in Hf as [Hin Hs].
      apply written_lookup_in; auto.
    + apply accepted_files_NoDup, Hnd.
    + apply written_flat, Hflat.
  - apply accepted_files_increasing, Hinc.
  - unfold results_of. apply fmap_Permutation, accepted_files_perm, Hp.
Qed.

(** The entries of the chapter directory once the files are renamed. *)
Lemma renamed_dir_other tasks n :
  NoDup tasks.*1 -> fresh_dir chapter_dir d0 ->
  n <> "" -> no_slash n -> n ∉ final_names (acc_of tasks).*1 ->
  renamed chapter_dir 0 (acc_of tasks) (wr tasks) !! Path.join chapter_dir n = None.
Proof.
  intros Hnd Hfresh Hn Hs Hnotin.
  destruct (decide (Path.join chapter_dir n ∈ temp_paths chapter_dir (acc_of tasks)))
    as [Hin|Hnin].
  - apply renamed_lookup_temp, Hin.
  - rewrite renamed_lookup_other; [| exact Hnin |].
    + rewrite written_lookup_other; [apply Hfresh; auto|].
      intros t Ht Hst Heq. apply Hnin, temp_paths_accepted. eauto.
    + rewrite final_paths_names. intros Hin.
      apply list_elem_of_fmap in Hin as (n' & Heq & Hin).
      assert (no_slash n') as Hs'.
      { unfold final_names in Hin. apply list_elem_of_lookup in Hin as [i Hi].
        rewrite list_lookup_imap in Hi.
        destruct ((acc_of tasks).*1 !! i); [|discriminate].
        simpl in Hi. injection Hi as <-. apply final_name_plain. }
      apply join_inj in Heq; auto. congruence.
Qed.
End ChapterFacts.

Lemma task_result_index E referer chapter_dir d0 t :
  (task_result E referer chapter_dir d0 t).1.1 = t.1.
Proof. unfold task_result. destruct (stored E referer chapter_dir d0 t); reflexivity. Qed.

Lemma results_of_indices chapter_dir acc : (results_of chapter_dir acc).*1.*1 = acc.*1.*1.
Proof. induction acc as [|f acc IH]; [reflexivity|]. simpl. f_equal. exact IH. Qed.



(** The sample run, assembled: three files out of five tasks. *)
Example sample_run_assembled :
  (assemble sample_dir (completed sample_run) (disk sample_run)).1 =
  Ok (3, ["downloads/Chapter 1/001.jpg"; "downloads/Chapter 1/002.jpg";
          "downloads/Chapter 1/003.webp"]).
Proof. vm_compute. reflexivity. Qed.

(** C3, as stated, fails: the loop over [as_completed] keeps a result only
    [if result[2]]; on the sample run the tasks 2 and 3 have no result in
    the collected list. *)
Lemma C3_counterexample :
  exists results,
    collect_successful (completed sample_run) [] = Ok results /\
    ~ one_result_per_task (enumerate sample_urls) results.
Proof.
  eexists. split; [vm_compute; reflexivity|].
  intros H. apply Permutation_length in H. vm_compute in H. discriminate.
Qed.

(** C3, amended. For every list of image tasks and every complete run of the
    pool, one result is read per task (no index missing, none twice), each
    the result of its task: a worker that failed or whose image was rejected
    gives its index with no path and accepted false. The list collected from
    them holds the accepted results only, at most one per index. *)
Theorem C3_collected_results (E : Env) (referer chapter_dir chapter_title : string)
    (image_urls : list string) (d0 : fs) (K : nat)
    (st : pool_state (nat * string) image_result) :
  pool_run (image_worker E referer chapter_dir chapter_title) K
    (enumerate image_urls) d0 st ->
  exists rs results,
    completed st = Ok <$> rs /\
    one_result_per_task (enumerate image_urls) rs /\
    (forall t, t ∈ enumerate image_urls ->
       task_result E referer chapter_dir d0 t ∈ rs) /\
    collect_successful (completed st) [] = Ok results /\
    results = filter (fun r => r.2 = true) rs /\
    NoDup results.*1.*1.
Proof.
  intros Hrun.
  pose proof (increasing_NoDup _ (enumerate_increasing image_urls)) as Hnd.
  destruct (collected_spec E referer chapter_dir chapter_title d0 K _ st Hnd Hrun)
    as (done & Hp & Hc & _ & Hcol).
  exists (task_result E referer chapter_dir d0 <$> done),
         (results_of chapter_dir (accepted_files E referer chapter_dir d0 done)).
  split; [|split; [|split; [|split; [|split]]]].
  - rewrite Hc. apply (list_fmap_compose (task_result E referer chapter_dir d0) Ok).
  - unfold one_result_per_task. rewrite <- Hp.
    assert ((task_result E referer chapter_dir d0 <$> done).*1.*1 = done.*1) as ->;
      [|reflexivity].
    clear. induction done as [|t done IH]; [reflexivity|].
    simpl. rewrite task_result_index. f_equal. exact IH.
  - intros t Ht. apply list_elem_of_fmap. exists t. split; [reflexivity|].
    rewrite Hp. exact Ht.
  - exact Hcol.
  - symmetry. apply filter_task_results.
  - rewrite results_of_indices. apply accepted_files_NoDup. rewrite Hp. exact Hnd.
Qed.

Lemma C3_collected_results_witness :
  exists rs results,
    completed sample_run = Ok <$> rs /\
    one_result_per_task (enumerate sample_urls) rs /\
    (forall t, t ∈ enumerate sample_urls ->
       task_result sample_env sample_referer sample_dir ∅ t ∈ rs) /\
    collect_successful (completed sample_run) [] = Ok results /\
    results = filter (fun r => r.2 = true) rs /\
    NoDup results.*1.*1.
Proof.
  apply (C3_collected_results sample_env sample_referer sample_dir "Chapter 1"
           sample_urls ∅ 2 sample_run).
  apply (run_pool_run _ _ 2 (enumerate sample_urls)). lia.
Defined.

(** ** ChapterAssembler: a page without image URLs *)

Lemma makedirs_lookup_ne p q d : q <> p -> FS.makedirs p d !! q = d !! q.
Proof.
  intros Hne. unfold FS.makedirs. destruct (d !! p); [reflexivity|].
  apply lookup_insert_ne. auto.
Qed.

Lemma download_chapter_no_urls (E : Env) (chapter_url chapter_title : string)
    (K : Z) (d : fs) (pg : page) :
  browse E (urljoin E "https://mangapark.net" chapter_url) = Ok pg ->
  omap truthy_src (found_elements pg) = [] ->
  let chapter_dir := chapter_dir_of chapter_title in
  let debug := Path.join chapter_dir "debug_page.html" in
  let d0 := FS.makedirs chapter_dir d in
  download_chapter_with_selenium E chapter_url chapter_title K d =
  (Ok (chapter_dir, false),
   match found_elements pg with
   | [] => if open_ok E debug && negb (FS.isdir debug d0)
           then <[debug := File (page_source pg)]> d0 else d0
   | _ => d0
   end).
Proof.
  intros Hb Hu chapter_dir debug d0.
  unfold download_chapter_with_selenium, io_try, download_chapter_body.
  rewrite io_bind_unfold. unfold io_lift. rewrite Hb.
  fold chapter_dir. fold d0. unfold found_elements in *.
  destruct (img_w_full pg) as [|e1 l1].
  - destruct (main_img pg) as [|e2 l2].
    + rewrite io_bind_unfold. unfold io_fs, FS.write_file. fold debug.
      destruct (open_ok E debug && negb (FS.isdir debug d0)); reflexivity.
    + rewrite Hu. rewrite io_bind_unfold. unfold thread_pool.
      destruct (K <=? 0)%Z; reflexivity.
  - rewrite Hu. rewrite io_bind_unfold. unfold thread_pool.
    destruct (K <=? 0)%Z; reflexivity.
Qed.

(** The download of a chapter whose page has image elements: the outcome
    depends neither on the limit [K] nor on the order in which the workers
    finish. *)
Lemma download_chapter_spec (E : Env) (chapter_url chapter_title : string)
    (K : Z) (d : fs) (pg : page) :
  let referer := urljoin E "https://mangapark.net" chapter_url in
  let chapter_dir := chapter_dir_of chapter_title in
  let d0 := FS.makedirs chapter_dir d in
  let tasks := enumerate (omap truthy_src (found_elements pg)) in
  let accepted := accepted_files E referer chapter_dir d0 tasks in
  browse E referer = Ok pg ->
  found_elements pg <> [] ->
  (0 < K)%Z ->
  flat_dir chapter_dir d0 ->
  download_chapter_with_selenium E chapter_url chapter_title K d =
  (Ok (chapter_dir, bool_decide (0 < length accepted)),
   renamed chapter_dir 0 accepted (written E referer chapter_dir d0 tasks)).
Proof.
  intros referer chapter_dir d0 tasks accepted Hb Hne HK Hflat.
  unfold download_chapter_with_selenium, io_try, download_chapter_body.
  fold referer chapter_dir d0.
  rewrite io_bind_unfold. unfold io_lift. rewrite Hb.
  assert (forall (A : Type) (a b : A),
            match match img_w_full pg with [] => main_img pg | _ => img_w_full pg end
            with [] => a | _ => b end = b) as Hsel.
  { intros A a b. unfold found_elements in Hne.
    destruct (img_w_full pg); [destruct (main_img pg); [contradiction|]|]; reflexivity. }
  rewrite Hsel.
  assert (match img_w_full pg with [] => main_img pg | _ => img_w_full pg end
          = found_elements pg) as -> by (unfold found_elements; destruct (img_w_full pg); reflexivity).
  fold tasks. rewrite io_bind_unfold. unfold thread_pool.
  replace (K <=? 0)%Z with false by (symmetry; apply Z.leb_gt; lia).
  rewrite io_bind_unfold.
  rewrite (assemble_spec E referer chapter_dir chapter_title d0 (Z.to_nat K) tasks).
  - reflexivity.
  - apply enumerate_increasing.
  - exact Hflat.
  - apply run_pool_run. lia.
Qed.




(** ** ArchiveBuilder *)

Lemma io_try_none {S A} (body : io S (option A)) (s : S) :
  io_try body (fun _ => mret None) s =
  match body s with
  | (Ok r, s') => (Ok r, s')
  | (Raise _, s') => (Ok None, s')
  end.
Proof. unfold io_try. destruct (body s) as [[r|e] s']; reflexivity. Qed.

Section ArchiveFacts.
Context (E : Env) (chapter_dir chapter_title : string).

Lemma create_cbz_body_cases w :
  match w_listdir E chapter_dir w with
  | (Ok names, w1) =>
      match List.filter is_cbz_image names with
      | [] => create_cbz_body E chapter_dir chapter_title w = (Ok None, w1)
      | _ => exists w',
          create_cbz_body E chapter_dir chapter_title w
            = (Ok (Some (chapter_dir +:+ ".cbz")), w') \/
          exists e, create_cbz_body E chapter_dir chapter_title w = (Raise e, w')
      end
  | (Raise e, w1) => create_cbz_body E chapter_dir chapter_title w = (Raise e, w1)
  end.
Proof.
  unfold create_cbz_body. rewrite io_bind_unfold.
  destruct (w_listdir E chapter_dir w) as [[names|e] w1]; [|reflexivity].
  destruct (List.filter is_cbz_image names) as [|n ns] eqn:Ef; [reflexivity|].
  rewrite io_bind_unfold.
  destruct (w_write E _ _ w1) as [[d1|e1] w2]; [|eauto].
  rewrite io_bind_unfold.
  destruct (read_all E _ w2) as [[members|e2] w3]; [|eauto].
  rewrite io_bind_unfold.
  destruct (w_write E _ _ w3) as [[d2|e3] w4]; [|eauto].
  eauto.
Qed.

Lemma create_pdf_body_cases w :
  match w_listdir E chapter_dir w with
  | (Ok names, w1) =>
      match List.filter is_pdf_image names with
      | [] => create_pdf_body E chapter_dir chapter_title w = (Ok None, w1)
      | _ => exists w',
          create_pdf_body E chapter_dir chapter_title w
            = (Ok (Some (chapter_dir +:+ ".pdf")), w') \/
          exists e, create_pdf_body E chapter_dir chapter_title w = (Raise e, w')
      end
  | (Raise e, w1) => create_pdf_body E chapter_dir chapter_title w = (Raise e, w1)
  end.
Proof.
  unfold create_pdf_body. rewrite io_bind_unfold.
  destruct (w_listdir E chapter_dir w) as [[names|e] w1]; [|reflexivity].
  destruct (List.filter is_pdf_image names) as [|n ns] eqn:Ef; [reflexivity|].
  rewrite io_bind_unfold.
  destruct (w_write E _ _ w1) as [[d1|e1] w2]; [|eauto].
  rewrite io_bind_unfold.
  destruct (read_all E _ w2) as [[pages|e2] w3]; [|eauto].
  rewrite io_bind_unfold. unfold io_lift.
  destruct (img2pdf_convert E _) as [pdf_bytes|e3]; [|eauto].
  rewrite io_bind_unfold.
  destruct pdf_bytes as [|b bs]; [eauto|].
  rewrite io_bind_unfold.
  destruct (w_write E _ _ w3) as [[d2|e4] w4]; eauto.
Qed.

(** [create_cbz] never raises; it returns [None] exactly when the body
    raised or no listed name is eligible. *)
Lemma create_cbz_spec w :
  exists r w', create_cbz E chapter_dir chapter_title w = (Ok r, w') /\
    (r = None <->
     (exists e, (create_cbz_body E chapter_dir chapter_title w).1 = Raise e) \/
     (exists names, (w_listdir E chapter_dir w).1 = Ok names /\
        List.filter is_cbz_image names = [])).
Proof.
  unfold create_cbz. rewrite io_try_none.
  pose proof (create_cbz_body_cases w) as Hc.
  destruct (w_listdir E chapter_dir w) as [[names|e] w1]; simpl.
  - destruct (List.filter is_cbz_image names) as [|n ns] eqn:Ef.
    + rewrite Hc. exists None, w1. split; [reflexivity|]. split; [|reflexivity].
      intros _. right. eauto.
    + destruct Hc as (w' & [Hc | [e Hc]]); rewrite Hc; simpl.
      * eexists _, _. split; [reflexivity|]. split; [discriminate|].
        intros [[e He] | (names' & Hn & Hf)]; [discriminate|].
        injection Hn as <-. congruence.
      * eexists _, _. split; [reflexivity|]. split; [|reflexivity]. eauto.
  - rewrite Hc. simpl. exists None, w1. split; [reflexivity|].
    split; [|reflexivity]. eauto.
Qed.

Lemma create_pdf_spec w :
  exists r w', create_pdf E chapter_dir chapter_title w = (Ok r, w') /\
    (r = None <->
     (exists e, (create_pdf_body E chapter_dir chapter_title w).1 = Raise e) \/
     (exists names, (w_listdir E chapter_dir w).1 = Ok names /\
        List.filter is_pdf_image names = [])).
Proof.
  unfold create_pdf. rewrite io_try_none.
  pose proof (create_pdf_body_cases w) as Hc.
  destruct (w_listdir E chapter_dir w) as [[names|e] w1]; simpl.
  - destruct (List.filter is_pdf_image names) as [|n ns] eqn:Ef.
    + rewrite Hc. exists None, w1. split; [reflexivity|]. split; [|reflexivity].
      intros _. right. eauto.
    + destruct Hc as (w' & [Hc | [e Hc]]); rewrite Hc; simpl.
      * eexists _, _. split; [reflexivity|]. split; [discriminate|].
        intros [[e He] | (names' & Hn & Hf)]; [discriminate|].
        injection Hn as <-. congruence.
      * eexists _, _. split; [reflexivity|]. split; [|reflexivity]. eauto.
  - rewrite Hc. simpl. exists None, w1. split; [reflexivity|].
    split; [|reflexivity]. eauto.
Qed.
End ArchiveFacts.

Lemma lower_app a b : Str.lower (a +:+ b) = Str.lower a +:+ Str.lower b.
Proof. induction a as [|c a IH]; simpl; [reflexivity|]. rewrite IH. reflexivity. Qed.

Lemma pdf_image_cbz_image file : is_pdf_image file = true -> is_cbz_image file = true.
Proof.
  unfold is_pdf_image, is_cbz_image, Str.endswith_any, pdf_suffixes, cbz_suffixes.
  cbn [existsb]. intros H.
  repeat (apply orb_prop in H as [H|H]; [rewrite H; rewrite ?orb_true_r; reflexivity|]).
  discriminate.
Qed.

(** C6. Each converter returns a value for every directory, title and state
    of the store, whatever file operation or encoding fails; the path is
    absent exactly when the body raised or no listed name is eligible; the
    names eligible for the PDF are eligible for the CBZ, not conversely for
    [webp] and [gif] names; a directory without a name eligible for the PDF
    gives no PDF, also one from which the CBZ is built. *)
Theorem C6_converters (E : Env) (chapter_dir chapter_title : string) (w : world) :
  (exists r w', create_cbz E chapter_dir chapter_title w = (Ok r, w') /\
     (r = None <->
      (exists e, (create_cbz_body E chapter_dir chapter_title w).1 = Raise e) \/
      (exists names, (w_listdir E chapter_dir w).1 = Ok names /\
         List.filter is_cbz_image names = []))) /\
  (exists r w', create_pdf E chapter_dir chapter_title w = (Ok r, w') /\
     (r = None <->
      (exists e, (create_pdf_body E chapter_dir chapter_title w).1 = Raise e) \/
      (exists names, (w_listdir E chapter_dir w).1 = Ok names /\
         List.filter is_pdf_image names = []))) /\
  (forall file, is_pdf_image file = true -> is_cbz_image file = true) /\
  cbz_suffixes = pdf_suffixes ++ [".webp"; ".gif"] /\
  (forall stem, is_cbz_image (stem +:+ ".webp") = true /\
                is_cbz_image (stem +:+ ".gif") = true) /\
  (is_pdf_image "001.webp" = false /\ is_pdf_image "001.gif" = false) /\
  ((create_cbz sample_env "downloads/Chapter 1" "Chapter 1" webp_only).1
     = Ok (Some "downloads/Chapter 1.cbz") /\
   (create_pdf sample_env "downloads/Chapter 1" "Chapter 1" webp_only).1 = Ok None).
Proof.
  split; [apply create_cbz_spec|]. split; [apply create_pdf_spec|].
  split; [apply pdf_image_cbz_image|]. split; [reflexivity|].
  split; [|split; [split; reflexivity|split; vm_compute; reflexivity]].
  intros stem. unfold is_cbz_image, Str.endswith_any, cbz_suffixes. cbn [existsb].
  assert (forall sfx, Str.lower sfx = sfx ->
            Str.endswith sfx (Str.lower (stem +:+ sfx)) = true) as Hend.
  { intros sfx Hl. apply endswith_spec. exists (Str.lower stem).
    rewrite lower_app, Hl. reflexivity. }
  rewrite !Hend by reflexivity. rewrite !orb_true_r. auto.
Qed.

(** ** ImageFetchWorker: the extension of the saved file *)

(** C5. At the URL [https://cdn.example/p/001.png?v=1.2], task index 0, the
    worker takes what follows the last dot of the whole URL, [2], which is
    not in the allow-list, and stores the accepted image as [temp_000.jpg];
    the extension of the trailing path segment, query string stripped, is
    [png], which is in the allow-list. *)
Theorem C5_dotted_query :
  url_extension dotted_query_url = "2" /\
  saved_extension dotted_query_url = "jpg" /\
  spec_url_extension dotted_query_url = Some "png" /\
  spec_saved_extension dotted_query_url = "png" /\
  download_image sample_env dotted_query_url sample_referer 0 sample_dir "Chapter 1" ∅
    = (Ok (0, Some "downloads/Chapter 1/temp_000.jpg", true),
       {[ "downloads/Chapter 1/temp_000.jpg" := File sample_image ]}).
Proof. repeat split; vm_compute; reflexivity. Qed.

(** ** Orchestrator: what goes through [signals.progress] *)

Lemma kp_ret {A} (a : A) : keeps_progress (mret a).
Proof. intros w. reflexivity. Qed.

Lemma kp_lift {A} (r : result A) : keeps_progress (io_lift r).
Proof. intros w. reflexivity. Qed.

Lemma kp_bind {A B} (m : io world A) (k : A -> io world B) :
  keeps_progress m -> (forall a, keeps_progress (k a)) -> keeps_progress (mbind k m).
Proof.
  intros Hm Hk w. rewrite io_bind_unfold. specialize (Hm w).
  destruct (m w) as [[a|e] w1]; simpl in *; [|exact Hm].
  rewrite (Hk a w1). exact Hm.
Qed.

Lemma kp_try {A} (body : io world A) (handler : exception -> io world A) :
  keeps_progress body -> (forall e, keeps_progress (handler e)) ->
  keeps_progress (io_try body handler).
Proof.
  intros Hm Hk w. unfold io_try. specialize (Hm w).
  destruct (body w) as [[a|e] w1]; simpl in *; [exact Hm|].
  rewrite (Hk e w1). exact Hm.
Qed.

Lemma kp_guarded E {A} (op : bool -> fs -> result A) (upd : A -> fs -> fs) :
  keeps_progress (guarded E op upd).
Proof. intros w. unfold guarded. destruct (op _ (w_fs w)); reflexivity. Qed.

Lemma kp_emit_log e : keeps_progress (emit_log e).
Proof. intros w. reflexivity. Qed.

Lemma kp_get_fs : keeps_progress get_fs.
Proof. intros w. reflexivity. Qed.

Lemma kp_on_fs {A} (m : io fs A) : keeps_progress (on_fs m).
Proof. intros w. unfold on_fs. destruct (m (w_fs w)). reflexivity. Qed.

Lemma kp_read_all E paths : keeps_progress (read_all E paths).
Proof.
  induction paths as [|p paths IH]; simpl; [apply kp_ret|].
  apply kp_bind; [apply kp_guarded|]. intros data.
  apply kp_bind; [exact IH|]. intros more. apply kp_ret.
Qed.

Lemma kp_create_cbz E chapter_dir chapter_title :
  keeps_progress (create_cbz E chapter_dir chapter_title).
Proof.
  apply kp_try; [|intros; apply kp_ret]. unfold create_cbz_body.
  apply kp_bind; [apply kp_guarded|]. intros names.
  destruct (List.filter is_cbz_image names); [apply kp_ret|].
  apply kp_bind; [apply kp_guarded|]. intros _.
  apply kp_bind; [apply kp_read_all|]. intros members.
  apply kp_bind; [apply kp_guarded|]. intros _. apply kp_ret.
Qed.

Lemma kp_create_pdf E chapter_dir chapter_title :
  keeps_progress (create_pdf E chapter_dir chapter_title).
Proof.
  apply kp_try; [|intros; apply kp_ret]. unfold create_pdf_body.
  apply kp_bind; [apply kp_guarded|]. intros names.
  destruct (List.filter is_pdf_image names); [apply kp_ret|].
  apply kp_bind; [apply kp_guarded|]. intros _.
  apply kp_bind; [apply kp_read_all|]. intros pages.
  apply kp_bind; [apply kp_lift|]. intros pdf_bytes.
  apply kp_bind; [|intros; apply kp_ret].
  destruct pdf_bytes; [apply kp_ret|].
  apply kp_bind; [apply kp_guarded|]. intros _. apply kp_ret.
Qed.

Lemma kp_cleanup E label idx chapter_dir chapter_title :
  keeps_progress (cleanup E label idx chapter_dir chapter_title).
Proof.
  apply kp_try; [|intros; apply kp_emit_log].
  apply kp_bind; [apply kp_guarded|]. intros _. apply kp_emit_log.
Qed.

Lemma cleanup_total E label idx chapter_dir chapter_title w :
  exists w', cleanup E label idx chapter_dir chapter_title w = (Ok tt, w').
Proof.
  unfold cleanup, io_try. rewrite io_bind_unfold.
  destruct (w_rmtree E chapter_dir w) as [[d|e] w1]; simpl; eauto.
Qed.

Lemma create_cbz_ok E : converter_ok (create_cbz E).
Proof.
  intros chapter_dir chapter_title w.
  destruct (create_cbz_spec E chapter_dir chapter_title w) as (r & w' & Hc & _).
  exists r, w'. split; [exact Hc|].
  pose proof (kp_create_cbz E chapter_dir chapter_title w) as Hk.
  rewrite Hc in Hk. exact Hk.
Qed.

Lemma create_pdf_ok E : converter_ok (create_pdf E).
Proof.
  intros chapter_dir chapter_title w.
  destruct (create_pdf_spec E chapter_dir chapter_title w) as (r & w' & Hc & _).
  exists r, w'. split; [exact Hc|].
  pose proof (kp_create_pdf E chapter_dir chapter_title w) as Hk.
  rewrite Hc in Hk. exact Hk.
Qed.

Lemma conversions_of_ok E convert_mode :
  Forall (fun c => converter_ok c.2) (conversions_of E convert_mode) /\
  length (conversions_of E convert_mode) <= 2.
Proof.
  unfold conversions_of.
  destruct (bool_decide (convert_mode ∈ ["cbz"; "both"]));
    destruct (bool_decide (convert_mode ∈ ["pdf"; "both"])); simpl; split;
    repeat constructor; simpl; auto using create_cbz_ok, create_pdf_ok.
Qed.

Lemma download_chapter_total E chapter_url chapter_title K d :
  exists r d', download_chapter_with_selenium E chapter_url chapter_title K d = (Ok r, d').
Proof.
  unfold download_chapter_with_selenium, io_try.
  destruct (download_chapter_body _ _ _ _ _ _) as [[r|e] d']; eauto.
Qed.

Local Open Scope Z_scope.

Lemma on_fs_download E chapter_url chapter_title K w :
  exists chapter_dir ok d',
    on_fs (download_chapter_with_selenium E chapter_url chapter_title K) w =
    (Ok (chapter_dir, ok),
     {| w_fs := d'; w_clock := w_clock w; w_log := w_log w;
        w_progress := w_progress w |}).
Proof.
  unfold on_fs.
  destruct (download_chapter_total E chapter_url chapter_title K (w_fs w))
    as ([chapter_dir ok] & d' & ->).
  eauto.
Qed.

(** The sequential fetch loop emits one value per chapter, from
    [int(idx / total * 60)] up to 60. *)
Lemma fetch_sequential_spec E : forall chapters idx total successful w lo,
  (1 <= idx)%nat -> (idx + length chapters = S total)%nat ->
  (forall idx' v', (idx <= idx' <= total)%nat ->
     scaled (Z.of_nat idx') (Z.of_nat total) 60 = Ok v' -> lo <= v') ->
  exists r w' ps,
    fetch_sequential E chapters idx total successful w = (Ok r, w') /\
    w_progress w' = w_progress w ++ ps /\
    length ps = length chapters /\
    StronglySorted Z.le ps /\
    Forall (fun v => lo <= v <= 60) ps /\
    (chapters <> [] -> last ps = Some 60).
Proof.
  induction chapters as [|c chapters IH]; intros idx total successful w lo Hidx Hlen Hlo.
  - exists successful, w, []. simpl. rewrite app_nil_r.
    repeat split; try constructor. congruence.
  - simpl in Hlen. cbn [fetch_sequential].
    rewrite io_bind_unfold. cbn [emit_log]. rewrite io_bind_unfold.
    destruct (on_fs_download E (url c) (title c) 1
                {| w_fs := w_fs w; w_clock := w_clock w;
                   w_log := w_log w ++ [LogChapter idx total (title c)];
                   w_progress := w_progress w |})
      as (chapter_dir & ok & d' & ->). cbn [w_clock w_log w_progress].
    destruct (FloatFacts.scaled_total (Z.of_nat idx) (Z.of_nat total) 60)
      as (v & Hv & Hv0 & Hv60); [lia|unfold FloatSem.span_ok; auto|].
    rewrite io_bind_unfold. unfold io_lift at 1. rewrite Hv.
    rewrite io_bind_unfold. cbn [emit_progress w_fs w_clock w_log w_progress].
    edestruct (IH (S idx) total
                 (if ok then successful ++ [(chapter_dir, title c)] else successful)
                 {| w_fs := d'; w_clock := w_clock w;
                    w_log := w_log w ++ [LogChapter idx total (title c)];
                    w_progress := w_progress w ++ [v] |} v)
      as (r & w' & ps & Hrun & Hp & Hl & Hs & Hall & Hlast); [lia|lia| |].
    { intros idx' v' Hr Hv'.
      apply (FloatFacts.scaled_monotone (Z.of_nat idx) (Z.of_nat idx') (Z.of_nat total) 60);
        auto; try lia. unfold FloatSem.span_ok; auto. }
    assert (lo <= v) as Hlov by (apply (Hlo idx v); [lia|exact Hv]).
    exists r, w', (v :: ps). rewrite Hrun. cbn [w_progress] in Hp.
    split; [reflexivity|]. split; [rewrite Hp, <- app_assoc; reflexivity|].
    split; [simpl; lia|]. split; [|split].
    + constructor; [exact Hs|]. eapply Forall_impl; [exact Hall|]. simpl. intros; lia.
    + constructor; [lia|].
      eapply Forall_impl; [exact Hall|]. simpl. intros; lia.
    + intros _. destruct chapters as [|c' chapters'].
      * simpl in Hl. destruct ps; [|discriminate]. simpl.
        assert (idx = total) as -> by (simpl in Hlen; lia).
        rewrite FloatFacts.scaled_full in Hv;
          [congruence|lia|unfold FloatSem.span_ok; auto].
      * specialize (Hlast ltac:(discriminate)).
        destruct ps as [|v0 ps0]; [discriminate|]. rewrite last_cons, Hlast. reflexivity.
Qed.

Lemma span_of_bound n : 0 <= span_of n /\ Z.max 1 (Z.of_nat n) * span_of n <= 35.
Proof.
  unfold span_of. split.
  - apply Z.div_pos; lia.
  - apply Z.mul_div_le. lia.
Qed.

(** What follows a conversion in the loop, before the progress is emitted:
    the log lines and the cleanup. *)
Lemma report_total E label idx chapter_dir chapter_title delete_sources output w :
  exists w',
    (if truthy output
     then
       _ ← emit_log (LogReady label idx (default "" output));
       d' ← get_fs;
       if delete_sources && FS.isdir chapter_dir d'
       then cleanup E label idx chapter_dir chapter_title
       else mret tt
     else emit_log (LogFailed label idx chapter_title)) w = (Ok tt, w') /\
    w_progress w' = w_progress w.
Proof.
  destruct (truthy output); [|eexists; split; reflexivity].
  rewrite io_bind_unfold. cbn [emit_log]. rewrite io_bind_unfold. cbn [get_fs w_fs].
  destruct (delete_sources && FS.isdir chapter_dir (w_fs w));
    [|eexists; split; reflexivity].
  match goal with |- context [cleanup E ?l ?i ?d ?t ?w0] =>
    destruct (cleanup_total E l i d t w0) as (w' & Hc);
    pose proof (kp_cleanup E l i d t w0) as Hk end.
  rewrite Hc in *. exists w'. split; [reflexivity|exact Hk].
Qed.

(** One conversion phase: the values emitted go up, within the share of the
    phase. *)
Lemma convert_chapters_spec E label convert delete_sources phase n total :
  converter_ok convert -> FloatSem.span_ok (span_of n) ->
  forall items idx w lo,
  (1 <= idx)%nat -> (idx + length items = S total)%nat ->
  (forall idx' p', (idx <= idx' <= total)%nat ->
     scaled (Z.of_nat idx') (Z.max 1 (Z.of_nat total)) (span_of n) = Ok p' ->
     lo <= Z.min 95 (60 + (Z.of_nat phase - 1) * span_of n + p')) ->
  exists w' ps,
    convert_chapters E label convert delete_sources phase n total items idx w
      = (Ok tt, w') /\
    w_progress w' = w_progress w ++ ps /\
    StronglySorted Z.le ps /\
    Forall (fun v => lo <= v <=
              Z.min 95 (60 + (Z.of_nat phase - 1) * span_of n + span_of n)) ps.
Proof.
  intros Hconv Hspan.
  induction items as [|[chapter_dir chapter_title] items IH];
    intros idx w lo Hidx Hlen Hlo.
  - exists w, []. simpl. rewrite app_nil_r. repeat split; constructor.
  - simpl in Hlen. cbn [convert_chapters].
    rewrite io_bind_unfold. cbn [get_fs].
    destruct (bool_decide (label = "PDF") && negb (FS.exists_ chapter_dir (w_fs w))).
    + rewrite io_bind_unfold. cbn [emit_log].
      edestruct (IH (S idx)) as (w' & ps & Hrun & Hp & Hs & Hall);
        [lia|lia| |rewrite Hrun].
      * intros idx' p' Hr. apply Hlo. lia.
      * exists w', ps. cbn [w_progress] in Hp. auto.
    + rewrite io_bind_unfold.
      destruct (Hconv chapter_dir chapter_title w) as (output & w1 & -> & Hp1).
      rewrite io_bind_unfold.
      destruct (report_total E label idx chapter_dir chapter_title delete_sources
                  output w1) as (w2 & -> & Hp2).
      fold (span_of n).
      destruct (FloatFacts.scaled_total (Z.of_nat idx) (Z.max 1 (Z.of_nat total))
                  (span_of n)) as (p & Hv & Hv0 & Hv1); [lia|exact Hspan|].
      rewrite io_bind_unfold. unfold io_lift at 1. rewrite Hv.
      rewrite io_bind_unfold. cbn [emit_progress].
      set (v := Z.min 95 (60 + (Z.of_nat phase - 1) * span_of n + p)).
      edestruct (IH (S idx)
                   {| w_fs := w_fs w2; w_clock := w_clock w2; w_log := w_log w2;
                      w_progress := w_progress w2 ++ [v] |} v)
        as (w' & ps & Hrun & Hp & Hs & Hall);
        [lia|lia| |rewrite Hrun].
      * intros idx' p' Hr Hp'. unfold v.
        assert (p <= p'); [|lia].
        apply (FloatFacts.scaled_monotone (Z.of_nat idx) (Z.of_nat idx')
                 (Z.max 1 (Z.of_nat total)) (span_of n)); auto; lia.
      * assert (lo <= v) as Hlov by (apply (Hlo idx p); [lia|exact Hv]).
        exists w', (v :: ps). cbn [w_progress] in Hp.
        split; [reflexivity|].
        split; [rewrite Hp, Hp2, Hp1, <- app_assoc; reflexivity|].
        split.
        -- constructor; [exact Hs|]. eapply Forall_impl; [exact Hall|].
           simpl. intros; lia.
        -- constructor; [unfold v; lia|].
           eapply Forall_impl; [exact Hall|]. simpl. intros; lia.
Qed.

(** The conversion phases, one after the other. *)
Lemma run_conversions_spec E n successful delete_sources :
  forall conversions phase w,
  Forall (fun c => converter_ok c.2) conversions ->
  (1 <= phase)%nat -> (phase + length conversions = S n)%nat ->
  (conversions <> [] -> FloatSem.span_ok (span_of n)) ->
  exists w' pss,
    run_conversions E conversions delete_sources phase n successful w = (Ok tt, w') /\
    w_progress w' = w_progress w ++ concat pss /\
    length pss = length conversions /\
    StronglySorted Z.le (concat pss) /\
    (forall k ps, pss !! k = Some ps ->
       Forall (fun v => 60 + (Z.of_nat (phase + k) - 1) * span_of n <= v
                        <= 60 + Z.of_nat (phase + k) * span_of n) ps).
Proof.
  induction conversions as [|[label convert] rest IH]; intros phase w Hok Hph Hlen Hspan.
  - exists w, []. simpl. rewrite app_nil_r. repeat split; try constructor.
    intros k ps Hk. discriminate.
  - simpl in Hlen. specialize (Hspan ltac:(discriminate)).
    apply Forall_cons in Hok as [Hconv Hok]. simpl in Hconv.
    destruct (span_of_bound n) as [Hs0 Hs35].
    cbn [run_conversions]. rewrite io_bind_unfold. cbn [emit_log].
    rewrite io_bind_unfold.
    edestruct (convert_chapters_spec E label convert delete_sources phase n
                 (length successful) Hconv Hspan successful 1%nat
                 {| w_fs := w_fs w; w_clock := w_clock w;
                    w_log := w_log w ++ [LogConversionRunning label];
                    w_progress := w_progress w |}
                 (60 + (Z.of_nat phase - 1) * span_of n))
      as (w1 & ps & -> & Hp1 & Hs1 & Hall1); [lia|lia| |].
    { intros idx' p' Hr Hp'.
      destruct (FloatFacts.scaled_total (Z.of_nat idx')
                  (Z.max 1 (Z.of_nat (length successful))) (span_of n))
        as (p & Hv & Hv0 & Hv1); [lia|exact Hspan|].
      assert (p = p') as <- by congruence. nia. }
    cbn [w_progress] in Hp1.
    destruct (IH (S phase) w1 Hok ltac:(lia) ltac:(lia) (fun _ => Hspan))
      as (w' & pss & -> & Hp & Hl & Hs & Hall).
    exists w', (ps :: pss). split; [reflexivity|].
    split; [simpl; rewrite Hp, Hp1, <- app_assoc; reflexivity|].
    split; [simpl; lia|]. split.
    + simpl. apply StronglySorted_app_2; [|exact Hs1|exact Hs].
      intros x1 x2 Hx1 Hx2. rewrite Forall_forall in Hall1.
      specialize (Hall1 x1 Hx1).
      apply list_elem_of_In, in_concat in Hx2 as (blk & Hblk & Hx2).
      apply list_elem_of_In, list_elem_of_lookup in Hblk as [k Hk].
      specialize (Hall k blk Hk). rewrite Forall_forall in Hall.
      apply list_elem_of_In in Hx2. specialize (Hall x2 Hx2). nia.
    + intros [|k] blk Hk; simpl in Hk.
      * injection Hk as <-. eapply Forall_impl; [exact Hall1|].
        simpl. intros v Hv. rewrite Nat.add_0_r. lia.
      * specialize (Hall k blk Hk).
        replace (phase + S k)%nat with (S phase + k)%nat by lia. exact Hall.
Qed.

Lemma fetch_stage_spec E chapters threaded concurrency w :
  exists successful w' ps,
    fetch_stage E chapters threaded concurrency w = (Ok successful, w') /\
    w_progress w' = w_progress w ++ ps /\
    StronglySorted Z.le ps /\
    Forall (fun v => 0 <= v <= 60) ps /\
    (if threaded then ps = []
     else length ps = length chapters /\ (chapters <> [] -> last ps = Some 60)).
Proof.
  unfold fetch_stage. destruct threaded.
  - unfold on_fs.
    destruct (download_chapters_threaded E chapters (Z.max 1 concurrency) (w_fs w))
      as [successful d'].
    eexists successful, _, []. split; [reflexivity|]. simpl. rewrite app_nil_r.
    repeat split; constructor.
  - destruct (fetch_sequential_spec E chapters 1 (length chapters) [] w 0)
      as (r & w' & ps & Hrun & Hp & Hl & Hs & Hall & Hlast); [lia|lia| |].
    + intros idx' v' Hr Hv'.
      destruct (FloatFacts.scaled_total (Z.of_nat idx') (Z.of_nat (length chapters)) 60)
        as (v & Hv & Hv0 & _); [lia|unfold FloatSem.span_ok; auto|].
      assert (v = v') as <- by congruence. exact Hv0.
    + exists r, w', ps. repeat split; assumption.
Qed.

Lemma conversions_span_ok E convert_mode :
  conversions_of E convert_mode <> [] ->
  FloatSem.span_ok (span_of (length (conversions_of E convert_mode))).
Proof.
  unfold conversions_of, FloatSem.span_ok.
  destruct (bool_decide (convert_mode ∈ ["cbz"; "both"]));
    destruct (bool_decide (convert_mode ∈ ["pdf"; "both"])); simpl; intros H;
    try contradiction; vm_compute; auto.
Qed.



(** The sample job: three chapters fetched, two converted to CBZ and
    removed, both skipped by the PDF phase. *)
Example sample_job_progress :
  w_progress
    (run_download_job sample_env sample_chapters false 1 "both" true start_world).2
  = [20; 40; 60; 68; 77; 100].
Proof. vm_compute. reflexivity. Qed.

Local Open Scope nat_scope.

(** ** Orchestrator: the sources once removed *)

Lemma pres_ret {A} P (a : A) : preserves P (mret a).
Proof. intros w H. exact H. Qed.

Lemma pres_lift {A} P (r : result A) : preserves P (io_lift r).
Proof. intros w H. exact H. Qed.

Lemma pres_bind {A B} P (m : io world A) (k : A -> io world B) :
  preserves P m -> (forall a, preserves P (k a)) -> preserves P (mbind k m).
Proof.
  intros Hm Hk w Hw. rewrite io_bind_unfold. specialize (Hm w Hw).
  destruct (m w) as [[a|e] w1]; simpl in *; [|exact Hm].
  apply (Hk a w1 Hm).
Qed.

Lemma pres_try {A} P (body : io world A) (handler : exception -> io world A) :
  preserves P body -> (forall e, preserves P (handler e)) ->
  preserves P (io_try body handler).
Proof.
  intros Hm Hk w Hw. unfold io_try. specialize (Hm w Hw).
  destruct (body w) as [[a|e] w1]; simpl in *; [exact Hm|].
  apply (Hk e w1 Hm).
Qed.

Lemma guarded_unfold E {A} (op : bool -> fs -> result A) (upd : A -> fs -> fs) w :
  guarded E op upd w =
  match op (negb (fault E (w_clock w))) (w_fs w) with
  | Ok a => (Ok a, {| w_fs := upd a (w_fs w); w_clock := S (w_clock w);
                      w_log := w_log w; w_progress := w_progress w |})
  | Raise e => (Raise e, {| w_fs := w_fs w; w_clock := S (w_clock w);
                            w_log := w_log w; w_progress := w_progress w |})
  end.
Proof. reflexivity. Qed.

Lemma isdir_insert_file p q data d :
  FS.isdir p d = false -> FS.isdir p (<[q := File data]> d) = false.
Proof.
  unfold FS.isdir. intros H. destruct (decide (q = p)) as [->|Hne].
  - rewrite lookup_insert_eq. reflexivity.
  - rewrite lookup_insert_ne by exact Hne. exact H.
Qed.

Lemma rmtree_Ok ok p d d' :
  FS.rmtree ok p d = Ok d' ->
  FS.isdir p d' = false /\ forall q, FS.isdir q d = false -> FS.isdir q d' = false.
Proof.
  unfold FS.rmtree. destruct (ok && FS.isdir p d); [|discriminate].
  intros H. injection H as <-. unfold FS.isdir. split.
  - rewrite map_lookup_filter_None_2; [reflexivity|].
    right. intros x _ [Hne _]. apply Hne. reflexivity.
  - intros q Hq.
    destruct (filter _ d !! q) as [[|data]|] eqn:Hf; try reflexivity.
    apply map_lookup_filter_Some in Hf as [Hf _]. rewrite Hf in Hq. discriminate.
Qed.

Lemma not_dir_stable E p : fs_stable E (not_dir p).
Proof.
  unfold fs_stable, preserves, not_dir, w_listdir, w_read, w_write, w_rmtree.
  repeat split; intros; rewrite guarded_unfold.
  - destruct (FS.listdir _ _ _); assumption.
  - destruct (if negb _ then _ else _); assumption.
  - unfold FS.write_file. destruct (_ && _); simpl; [|assumption].
    apply isdir_insert_file. assumption.
  - destruct (FS.rmtree _ _ _) as [d'|e] eqn:Hr; simpl; [|assumption].
    apply (rmtree_Ok _ _ _ _ Hr). assumption.
Qed.

Lemma log_stable E l : fs_stable E (fun w => w_log w = l).
Proof.
  unfold fs_stable, preserves, w_listdir, w_read, w_write, w_rmtree.
  repeat split; intros; rewrite guarded_unfold;
    match goal with |- context [match ?x with _ => _ end] => destruct x end;
    assumption.
Qed.

Section Stable.
Context (E : Env) (P : world -> Prop) (HP : fs_stable E P).

Lemma pres_read_all paths : preserves P (read_all E paths).
Proof.
  induction paths as [|p paths IH]; simpl; [apply pres_ret|].
  apply pres_bind; [apply HP|]. intros data.
  apply pres_bind; [exact IH|]. intros more. apply pres_ret.
Qed.

Lemma pres_create_cbz chapter_dir chapter_title :
  preserves P (create_cbz E chapter_dir chapter_title).
Proof.
  apply pres_try; [|intros; apply pres_ret]. unfold create_cbz_body.
  apply pres_bind; [apply HP|]. intros names.
  destruct (List.filter is_cbz_image names); [apply pres_ret|].
  apply pres_bind; [apply HP|]. intros _.
  apply pres_bind; [apply pres_read_all|]. intros members.
  apply pres_bind; [apply HP|]. intros _. apply pres_ret.
Qed.

Lemma pres_create_pdf chapter_dir chapter_title :
  preserves P (create_pdf E chapter_dir chapter_title).
Proof.
  apply pres_try; [|intros; apply pres_ret]. unfold create_pdf_body.
  apply pres_bind; [apply HP|]. intros names.
  destruct (List.filter is_pdf_image names); [apply pres_ret|].
  apply pres_bind; [apply HP|]. intros _.
  apply pres_bind; [apply pres_read_all|]. intros pages.
  apply pres_bind; [apply pres_lift|]. intros pdf_bytes.
  apply pres_bind; [|intros; apply pres_ret].
  destruct pdf_bytes; [apply pres_ret|].
  apply pres_bind; [apply HP|]. intros _. apply pres_ret.
Qed.
End Stable.

Lemma listdir_Ok E chapter_dir w names w' :
  w_listdir E chapter_dir w = (Ok names, w') -> FS.isdir chapter_dir (w_fs w) = true.
Proof.
  unfold w_listdir. rewrite guarded_unfold. unfold FS.listdir.
  destruct (FS.isdir chapter_dir (w_fs w)); [reflexivity|].
  rewrite andb_false_r. discriminate.
Qed.

Lemma create_cbz_sound E : converter_sound (create_cbz E).
Proof.
  intros chapter_dir chapter_title w.
  destruct (create_cbz_spec E chapter_dir chapter_title w) as (r & w' & Hc & Hnone).
  exists r, w'. split; [exact Hc|]. split; [|split].
  - pose proof (pres_create_cbz E _ (log_stable E (w_log w)) chapter_dir chapter_title
                  w eq_refl) as H. rewrite Hc in H. exact H.
  - intros p Hp.
    pose proof (pres_create_cbz E _ (not_dir_stable E p) chapter_dir chapter_title
                  w Hp) as H. rewrite Hc in H. exact H.
  - intros Ht. destruct r as [out|]; [|discriminate].
    destruct (w_listdir E chapter_dir w) as [[names|e] w1] eqn:Hl.
    + exact (listdir_Ok _ _ _ _ _ Hl).
    + exfalso. assert (Some out = None) as Habs; [|discriminate].
      apply Hnone. left. exists e.
      pose proof (create_cbz_body_cases E chapter_dir chapter_title w) as Hb.
      rewrite Hl in Hb. rewrite Hb. reflexivity.
Qed.

Lemma create_pdf_sound E : converter_sound (create_pdf E).
Proof.
  intros chapter_dir chapter_title w.
  destruct (create_pdf_spec E chapter_dir chapter_title w) as (r & w' & Hc & Hnone).
  exists r, w'. split; [exact Hc|]. split; [|split].
  - pose proof (pres_create_pdf E _ (log_stable E (w_log w)) chapter_dir chapter_title
                  w eq_refl) as H. rewrite Hc in H. exact H.
  - intros p Hp.
    pose proof (pres_create_pdf E _ (not_dir_stable E p) chapter_dir chapter_title
                  w Hp) as H. rewrite Hc in H. exact H.
  - intros Ht. destruct r as [out|]; [|discriminate].
    destruct (w_listdir E chapter_dir w) as [[names|e] w1] eqn:Hl.
    + exact (listdir_Ok _ _ _ _ _ Hl).
    + exfalso. assert (Some out = None) as Habs; [|discriminate].
      apply Hnone. left. exists e.
      pose proof (create_pdf_body_cases E chapter_dir chapter_title w) as Hb.
      rewrite Hl in Hb. rewrite Hb. reflexivity.
Qed.

Ltac split_elems :=
  repeat match goal with
         | H : _ ∈ _ :: _ |- _ => apply elem_of_cons in H as [H|H]
         | H : _ ∈ [] |- _ => apply elem_of_nil in H; contradiction
         end.

(** What follows a conversion in the loop: the log lines, and the directory
    gone when the removal is logged. *)
Lemma report_log E label idx chapter_dir chapter_title delete_sources output w :
  exists w' evs,
    (if truthy output
     then
       _ ← emit_log (LogReady label idx (default "" output));
       d' ← get_fs;
       if delete_sources && FS.isdir chapter_dir d'
       then cleanup E label idx chapter_dir chapter_title
       else mret tt
     else emit_log (LogFailed label idx chapter_title)) w = (Ok tt, w') /\
    w_log w' = w_log w ++ evs /\
    (forall p, not_dir p w -> not_dir p w') /\
    (forall e, e ∈ evs -> event_label e = Some label) /\
    (forall k t, LogRemoved label k t ∈ evs ->
       k = idx /\ t = chapter_title /\ not_dir chapter_dir w') /\
    (forall k o, LogReady label k o ∈ evs -> k = idx /\ truthy output = true).
Proof.
  destruct (truthy output) eqn:Ht.
  - rewrite io_bind_unfold. cbn [emit_log]. rewrite io_bind_unfold. cbn [get_fs w_fs].
    destruct (delete_sources && FS.isdir chapter_dir (w_fs w)).
    + unfold cleanup, io_try. rewrite io_bind_unfold.
      unfold w_rmtree. rewrite guarded_unfold. cbn [w_fs w_clock w_log w_progress].
      destruct (FS.rmtree _ chapter_dir (w_fs w)) as [d'|e] eqn:Hr.
      * destruct (rmtree_Ok _ _ _ _ Hr) as [Hgone Hkeep].
        eexists _, [LogReady label idx (default "" output);
                    LogRemoved label idx chapter_title].
        cbn [emit_log w_fs w_clock w_log w_progress].
        split; [reflexivity|].
        split; [cbn [w_log]; rewrite <- app_assoc; reflexivity|].
        split; [intros p Hp; apply Hkeep, Hp|]. split; [|split].
        -- intros e He. split_elems; subst; reflexivity.
        -- intros k t He. split_elems; [discriminate|]. injection He as -> ->.
           auto.
        -- intros k o He. split_elems; [|discriminate]. injection He as -> _. auto.
      * eexists _, [LogReady label idx (default "" output);
                    LogCleanupFailed label idx chapter_title].
        cbn [emit_log w_fs w_clock w_log w_progress].
        split; [reflexivity|].
        split; [cbn [w_log]; rewrite <- app_assoc; reflexivity|].
        split; [intros p Hp; exact Hp|]. split; [|split].
        -- intros e0 He. split_elems; subst; reflexivity.
        -- intros k t He. split_elems; discriminate.
        -- intros k o He. split_elems; [|discriminate]. injection He as -> _. auto.
    + eexists _, [LogReady label idx (default "" output)].
      split; [reflexivity|]. split; [reflexivity|].
      split; [intros p Hp; exact Hp|]. split; [|split].
      * intros e He. split_elems; subst; reflexivity.
      * intros k t He. split_elems; discriminate.
      * intros k o He. split_elems. injection He as -> _. auto.
  - eexists _, [LogFailed label idx chapter_title].
    split; [reflexivity|]. split; [reflexivity|].
    split; [intros p Hp; exact Hp|]. split; [|split].
    + intros e He. split_elems; subst; reflexivity.
    + intros k t He. split_elems; discriminate.
    + intros k o He. split_elems; discriminate.
Qed.

(** One conversion phase, by its log: a removal logged for the chapter
    numbered [k] leaves no directory at its path; an output logged for it
    was built from a directory present when the phase began. *)
Lemma convert_chapters_log E label convert delete_sources phase n total :
  converter_sound convert ->
  forall items idx w w',
  convert_chapters E label convert delete_sources phase n total items idx w
    = (Ok tt, w') ->
  (forall p, not_dir p w -> not_dir p w') /\
  exists evs, w_log w' = w_log w ++ evs /\
    (forall e, e ∈ evs -> event_label e = Some label) /\
    (forall k t, LogRemoved label k t ∈ evs ->
       idx <= k /\ exists dir, items !! (k - idx) = Some (dir, t) /\ not_dir dir w') /\
    (forall k o, LogReady label k o ∈ evs ->
       idx <= k /\ exists dir t, items !! (k - idx) = Some (dir, t) /\
                                 FS.isdir dir (w_fs w) = true).
Proof.
  intros Hconv.
  induction items as [|[chapter_dir chapter_title] items IH]; intros idx w w' Hrun.
  - simpl in Hrun. injection Hrun as <-. split; [auto|].
    exists []. rewrite app_nil_r. split; [reflexivity|].
    repeat split; intros; split_elems.
  - cbn [convert_chapters] in Hrun. rewrite io_bind_unfold in Hrun.
    cbn [get_fs] in Hrun.
    destruct (bool_decide (label = "PDF") && negb (FS.exists_ chapter_dir (w_fs w))).
    + rewrite io_bind_unfold in Hrun. cbn [emit_log] in Hrun.
      apply IH in Hrun as (Hkeep & evs & Hlog & Hlab & Hrem & Hready).
      split; [exact Hkeep|].
      exists (LogSourcesMissing label idx chapter_title :: evs).
      cbn [w_log w_fs] in *.
      split; [rewrite Hlog, <- app_assoc; reflexivity|]. split; [|split].
      * intros e He. apply elem_of_cons in He as [->|He]; [reflexivity|auto].
      * intros k t He. apply elem_of_cons in He as [He|He]; [discriminate|].
        destruct (Hrem k t He) as (Hk & dir & Hi & Hd).
        split; [lia|]. exists dir. split; [|exact Hd].
        replace (k - idx) with (S (k - S idx)) by lia. exact Hi.
      * intros k o He. apply elem_of_cons in He as [He|He]; [discriminate|].
        destruct (Hready k o He) as (Hk & dir & t & Hi & Hd).
        split; [lia|]. exists dir, t. split; [|exact Hd].
        replace (k - idx) with (S (k - S idx)) by lia. exact Hi.
    + rewrite io_bind_unfold in Hrun.
      destruct (Hconv chapter_dir chapter_title w)
        as (output & w1 & Hc & Hlog1 & Hkeep1 & Hsome).
      rewrite Hc in Hrun. rewrite io_bind_unfold in Hrun.
      destruct (report_log E label idx chapter_dir chapter_title delete_sources
                  output w1)
        as (w2 & evs2 & Hr & Hlog2 & Hkeep2 & Hlab2 & Hrem2 & Hready2).
      rewrite Hr in Hrun. rewrite io_bind_unfold in Hrun. unfold io_lift at 1 in Hrun.
      destruct (scaled _ _ _) as [p|e]; [|discriminate].
      rewrite io_bind_unfold in Hrun. cbn [emit_progress] in Hrun.
      apply IH in Hrun as (Hkeep & evs & Hlog & Hlab & Hrem & Hready).
      cbn [w_log w_fs] in *.
      assert (forall q, not_dir q w -> not_dir q w') as Hkeep'.
      { intros q Hq. apply Hkeep. apply Hkeep2, Hkeep1, Hq. }
      split; [exact Hkeep'|].
      exists (evs2 ++ evs).
      split; [rewrite Hlog, Hlog2, Hlog1, <- app_assoc; reflexivity|]. split; [|split].
      * intros e He. apply elem_of_app in He as [He|He]; auto.
      * intros k t He. apply elem_of_app in He as [He|He].
        -- destruct (Hrem2 k t He) as (-> & -> & Hd).
           split; [lia|]. exists chapter_dir. rewrite Nat.sub_diag.
           split; [reflexivity|]. apply Hkeep. exact Hd.
        -- destruct (Hrem k t He) as (Hk & dir & Hi & Hd).
           split; [lia|]. exists dir. split; [|exact Hd].
           replace (k - idx) with (S (k - S idx)) by lia. exact Hi.
      * intros k o He. apply elem_of_app in He as [He|He].
        -- destruct (Hready2 k o He) as (-> & Ht).
           split; [lia|]. exists chapter_dir, chapter_title. rewrite Nat.sub_diag.
           split; [reflexivity|]. apply Hsome, Ht.
        -- destruct (Hready k o He) as (Hk & dir & t & Hi & Hd).
           split; [lia|]. exists dir, t.
           split; [replace (k - idx) with (S (k - S idx)) by lia; exact Hi|].
           destruct (FS.isdir dir (w_fs w)) eqn:Hw; [reflexivity|].
           pose proof (Hkeep2 dir (Hkeep1 dir Hw)) as Hw2.
           unfold not_dir in Hw2. cbn [w_fs] in Hd. congruence.
Qed.

(** In mode [both] with the removal of the sources, a chapter whose CBZ was
    built and whose directory was removed gets no PDF: no line of the log
    announces one. *)
Lemma removed_sources_no_pdf E successful w w' :
  run_conversions E (conversions_of E "both") true 1 2 successful w = (Ok tt, w') ->
  exists evs, w_log w' = w_log w ++ evs /\
    forall k t, LogRemoved "CBZ" k t ∈ evs -> forall o, LogReady "PDF" k o ∉ evs.
Proof.
  assert (conversions_of E "both" = [("CBZ", create_cbz E); ("PDF", create_pdf E)])
    as -> by reflexivity.
  cbn [run_conversions]. intros Hrun.
  rewrite io_bind_unfold in Hrun. cbn [emit_log] in Hrun.
  rewrite io_bind_unfold in Hrun.
  destruct (convert_chapters E "CBZ" _ _ _ _ _ _ _ _) as [[[]|e1] w1] eqn:H1;
    [|discriminate].
  apply (convert_chapters_log E "CBZ" _ true 1 2 _ (create_cbz_sound E)) in H1
    as (Hkeep1 & evs1 & Hlog1 & Hlab1 & Hrem1 & _).
  rewrite io_bind_unfold in Hrun. cbn [emit_log] in Hrun.
  rewrite io_bind_unfold in Hrun.
  destruct (convert_chapters E "PDF" _ _ _ _ _ _ _ _) as [[[]|e2] w2] eqn:H2;
    [|discriminate].
  apply (convert_chapters_log E "PDF" _ true 2 2 _ (create_pdf_sound E)) in H2
    as (_ & evs2 & Hlog2 & Hlab2 & _ & Hready2).
  injection Hrun as <-. cbn [w_log w_fs] in *.
  exists ([LogConversionRunning "CBZ"] ++ evs1 ++ [LogConversionRunning "PDF"] ++ evs2).
  split; [rewrite Hlog2, Hlog1, <- !app_assoc; reflexivity|].
  intros k t Hrem o Hready.
  assert (LogRemoved "CBZ" k t ∈ evs1) as Hrem'.
  { rewrite !elem_of_app in Hrem. destruct Hrem as [H|[H|[H|H]]]; split_elems;
      try discriminate; [exact H|]. apply Hlab2 in H. discriminate. }
  assert (LogReady "PDF" k o ∈ evs2) as Hready'.
  { rewrite !elem_of_app in Hready. destruct Hready as [H|[H|[H|H]]]; split_elems;
      try discriminate; [|exact H]. apply Hlab1 in H. discriminate. }
  destruct (Hrem1 k t Hrem') as (_ & dir & Hi & Hd).
  destruct (Hready2 k o Hready') as (_ & dir' & t' & Hi' & Hd').
  rewrite Hi in Hi'. injection Hi' as <- <-. unfold not_dir in Hd. congruence.
Qed.

(** ** Orchestrator: the PDF phase after the sources were removed *)

(** C10. With the titles [Ch.1.cbz] and [Ch.1], mode [both] and the removal
    of the sources: the CBZ of the first chapter is built and its directory
    [downloads/Ch.1.cbz] removed, then the CBZ of the second chapter is
    written to that very path; [os.path.exists] holds of it in the PDF
    phase, so the first chapter is not skipped: [create_pdf] is called on
    the archive and fails. The second chapter is skipped; no PDF is made. *)
Theorem C10_colliding_titles :
  let run :=
    run_download_job sample_env colliding_chapters false 1 "both" true start_world in
  run.1 = Ok [("downloads/Ch.1.cbz", "Ch.1.cbz"); ("downloads/Ch.1", "Ch.1")] /\
  w_log run.2 =
    [ LogDownloading 2 false 1;
      LogChapter 1 2 "Ch.1.cbz"; LogChapter 2 2 "Ch.1";
      LogConversionRunning "CBZ";
      LogReady "CBZ" 1 "downloads/Ch.1.cbz.cbz"; LogRemoved "CBZ" 1 "Ch.1.cbz";
      LogReady "CBZ" 2 "downloads/Ch.1.cbz"; LogRemoved "CBZ" 2 "Ch.1";
      LogConversionRunning "PDF";
      LogFailed "PDF" 1 "Ch.1.cbz";
      LogSourcesMissing "PDF" 2 "Ch.1" ] /\
  FS.exists_ "downloads/Ch.1.cbz" (w_fs run.2) = true /\
  FS.isdir "downloads/Ch.1.cbz" (w_fs run.2) = false /\
  w_fs run.2 !! "downloads/Ch.1.cbz.pdf" = None /\
  w_fs run.2 !! "downloads/Ch.1.pdf" = None.
Proof. repeat split; vm_compute; reflexivity. Qed.

(** ** Chapter listing *)

Lemma unique_by_url_app l : forall seen acc,
  unique_by_url l seen acc = acc ++ unique_by_url l seen [].
Proof.
  induction l as [|x l IH]; intros seen acc; simpl.
  - rewrite app_nil_r. reflexivity.
  - destruct (bool_decide (url x ∈ seen)); [apply IH|].
    rewrite (IH _ (acc ++ [x])), (IH _ [x]), <- app_assoc. reflexivity.
Qed.

Lemma unique_by_url_elem l : forall seen c,
  c ∈ unique_by_url l seen [] <->
  exists l1 l2, l = l1 ++ c :: l2 /\ (url c ∉ seen) /\ (url c ∉ url <$> l1).
Proof.
  induction l as [|x l IH]; intros seen c; simpl.
  - split; [intros H; inversion H|].
    intros (l1 & l2 & H & _). destruct l1; discriminate.
  - destruct (bool_decide (url x ∈ seen)) eqn:Hx.
    + apply bool_decide_eq_true in Hx. rewrite IH. split.
      * intros (l1 & l2 & -> & Hs & Hl). exists (x :: l1), l2.
        split; [reflexivity|]. split; [exact Hs|].
        rewrite fmap_cons. apply not_elem_of_cons. split; [congruence|exact Hl].
      * intros (l1 & l2 & Hl & Hs & Hn). destruct l1 as [|y l1]; simpl in Hl.
        -- injection Hl as -> _. contradiction.
        -- injection Hl as -> ->. exists l1, l2. split; [reflexivity|].
           split; [exact Hs|]. rewrite fmap_cons in Hn.
           apply not_elem_of_cons in Hn. tauto.
    + apply bool_decide_eq_false in Hx. rewrite unique_by_url_app.
      rewrite elem_of_app, list_elem_of_singleton, IH. split.
      * intros [-> | (l1 & l2 & -> & Hs & Hl)].
        -- exists [], l. split; [reflexivity|]. split; [exact Hx|].
           rewrite fmap_nil. apply not_elem_of_nil.
        -- exists (x :: l1), l2. split; [reflexivity|].
           split; [set_solver|]. rewrite fmap_cons. set_solver.
      * intros (l1 & l2 & Hl & Hs & Hn). destruct l1 as [|y l1]; simpl in Hl.
        -- injection Hl as -> _. left. reflexivity.
        -- injection Hl as -> ->. right. exists l1, l2.
           rewrite fmap_cons in Hn. apply not_elem_of_cons in Hn.
           split; [reflexivity|]. split; [set_solver|tauto].
Qed.

Lemma unique_by_url_NoDup l : forall seen,
  NoDup (url <$> unique_by_url l seen []).
Proof.
  induction l as [|x l IH]; intros seen; simpl; [constructor|].
  destruct (bool_decide (url x ∈ seen)) eqn:Hx; [apply IH|].
  rewrite unique_by_url_app. simpl. constructor; [|apply IH].
  intros Hin. apply list_elem_of_fmap in Hin as (c & Hc & Hin).
  apply unique_by_url_elem in Hin as (_ & _ & _ & Hs & _). set_solver.
Qed.

Lemma unique_by_url_sublist l : forall seen,
  sublist (unique_by_url l seen []) l.
Proof.
  induction l as [|x l IH]; intros seen; simpl; [constructor|].
  destruct (bool_decide (url x ∈ seen)).
  - apply sublist_cons, IH.
  - rewrite unique_by_url_app. simpl. apply sublist_skip, IH.
Qed.

Lemma unique_by_url_nil l seen :
  unique_by_url l seen [] = [] -> forall c, c ∈ l -> url c ∈ seen.
Proof.
  revert seen. induction l as [|x l IH]; intros seen H c Hc; [inversion Hc|].
  simpl in H. destruct (bool_decide (url x ∈ seen)) eqn:Hx.
  - apply bool_decide_eq_true in Hx.
    apply elem_of_cons in Hc as [-> | Hc]; [exact Hx|]. eapply IH; eauto.
  - rewrite unique_by_url_app in H. discriminate.
Qed.

Lemma io_lift_bind {S A B} (r : result A) (k : A -> io S B) (s : S) :
  (io_lift r ≫= k) s =
  match r with
  | Ok a => k a s
  | Raise e => (Raise e, s)
  end.
Proof. destruct r; reflexivity. Qed.

Section ListingFacts.
Context (E : Env) (W : Site).

Lemma collect_elements_omap manga_url els : forall acc,
  collect_elements E manga_url els acc = acc ++ omap (element_chapter E manga_url) els.
Proof.
  induction els as [|el els IH]; intros acc; simpl.
  - rewrite app_nil_r. reflexivity.
  - rewrite IH. destruct (element_chapter E manga_url el).
    + rewrite <- app_assoc. reflexivity.
    + reflexivity.
Qed.

Lemma collect_tags_links manga_url tags : forall acc,
  Forall (fun t => is_Some (tag_href t)) tags ->
  collect_tags E manga_url tags acc = Return (acc ++ omap (tag_link E manga_url) tags).
Proof.
  induction tags as [|t tags IH]; intros acc Hall; simpl.
  - rewrite app_nil_r. reflexivity.
  - apply Forall_cons in Hall as [[href Ht] Hall]. unfold tag_link at 1.
    rewrite Ht. simpl. rewrite IH by exact Hall. rewrite <- app_assoc. reflexivity.
Qed.

Lemma collect_tags_missing manga_url tags : forall acc,
  Exists (fun t => tag_href t = None) tags ->
  collect_tags E manga_url tags acc = Throw KeyError.
Proof.
  induction tags as [|t tags IH]; intros acc Hex; [inversion Hex|].
  simpl. destruct (tag_href t) as [href|] eqn:Ht; [|reflexivity].
  apply IH. apply Exists_cons in Hex as [Hex|Hex]; [congruence|exact Hex].
Qed.

Lemma collect_tags_cases manga_url tags acc :
  (exists links, collect_tags E manga_url tags acc = Return (acc ++ links)
                 /\ length links = length tags)
  \/ collect_tags E manga_url tags acc = Throw KeyError.
Proof.
  revert acc. induction tags as [|t tags IH]; intros acc; simpl.
  - left. exists []. rewrite app_nil_r. auto.
  - destruct (tag_href t) as [href|]; [|right; reflexivity].
    destruct (IH (acc ++ [{| title := tag_text t; url := absolute_url E manga_url href |}]))
      as [(links & -> & Hlen)| ->]; [left|right; reflexivity].
    eexists (_ :: links). rewrite <- app_assoc. split; [reflexivity|].
    simpl. congruence.
Qed.

Lemma try_selectors_found drv sels els :
  try_selectors drv sels = Ok els -> els <> [] ->
  exists sel, find_elements drv sel = Ok els.
Proof.
  induction sels as [|s sels IH]; simpl; [congruence|].
  destruct (find_elements drv s) as [[|x xs]|] eqn:Hs; simpl.
  - exact IH.
  - intros [= <-] _. exists s. exact Hs.
  - discriminate.
Qed.

(** The browser mode, by cases on what the browser gives. *)
Lemma get_chapter_info_nsfw_cases manga_url d :
  (exists d', get_chapter_info E W manga_url true d = (Return None, d')
              /\ forall e, open_browser W manga_url = Raise e -> d' = d)
  \/ exists drv sel els,
       open_browser W manga_url = Ok drv /\
       find_elements drv sel = Ok els /\
       get_chapter_info E W manga_url true d =
         (Return (Some (rev (unique_by_url
                               (omap (element_chapter E manga_url) els) ∅ []))), d).
Proof.
  unfold get_chapter_info, xio_io, io_try, get_chapter_info_nsfw_body.
  rewrite io_lift_bind.
  destruct (open_browser W manga_url) as [drv|e] eqn:Hb.
  2:{ left. exists d. split; [reflexivity|auto]. }
  rewrite io_lift_bind.
  destruct (find_elements drv sel_layout) as [els|e] eqn:Hl.
  2:{ left. exists d. split; [reflexivity|discriminate]. }
  rewrite io_bind_unfold.
  assert (forall el els' sel, find_elements drv sel = Ok (el :: els') ->
    exists drv0 sel0 els0,
      Ok drv = Ok drv0 /\ find_elements drv0 sel0 = Ok els0 /\
      (Return (Some (rev (unique_by_url
                            (collect_elements E manga_url (el :: els') []) ∅ []))), d) =
      (Return (Some (rev (unique_by_url
                            (omap (element_chapter E manga_url) els0) ∅ []))), d))
    as Hfound.
  { intros el els' sel Hs. exists drv, sel, (el :: els').
    rewrite collect_elements_omap. auto. }
  assert (exists d', (let (r, s') :=
      let (r, s') :=
        ((fun d0 : fs => (Ok tt, FS.makedirs "downloads" d0))
         ≫= fun _ : unit =>
           io_fs (FS.write_file
                    (open_ok E (Path.join "downloads" "debug_page_selenium.html"))
                    (Path.join "downloads" "debug_page_selenium.html")
                    (driver_page_source drv)) (fun d' : fs => d')
           ≫= fun _ : unit => mret (None : option (list chapter))) d in
      match r with
      | Ok a => (Ok a, s')
      | Raise _ => (mret None : io fs (option (list chapter))) s'
      end in
    match r with
    | Ok a => (Return a, s')
    | Raise e => (Throw (Exn e), s')
    end) = (Return None, d')) as [d' Hnone].
  { rewrite io_bind_unfold. rewrite io_bind_unfold. unfold io_fs.
    destruct (FS.write_file _ _ _ _); eexists; reflexivity. }
  destruct els as [|el els]; cbv beta iota.
  - unfold io_lift at 1.
    destruct (try_selectors drv selectors_to_try) as [[|el els]|e] eqn:Ht;
      cbv beta iota.
    + left. exists d'. split; [exact Hnone|discriminate].
    + right. apply try_selectors_found in Ht as [sel Hs]; [|discriminate].
      exact (Hfound el els sel Hs).
    + left. exists d. split; [reflexivity|discriminate].
  - right. exact (Hfound el els sel_layout Hl).
Qed.
End ListingFacts.

Lemma fmap_rev {A B} (f : A -> B) (l : list A) : f <$> rev l = rev (f <$> l).
Proof.
  induction l as [|x l IH]; [reflexivity|].
  simpl. rewrite fmap_app, IH. reflexivity.
Qed.

Lemma elem_of_rev {A} (x : A) (l : list A) : x ∈ rev l <-> x ∈ l.
Proof. rewrite !list_elem_of_In. symmetry. apply in_rev. Qed.

Section ListingCases.
Context (E : Env) (W : Site).

Lemma xio_bind_unfold {S A B} (m : xio S A) (k : A -> xio S B) (s : S) :
  (mbind k m) s = match m s with
                  | (Return a, s') => k a s'
                  | (Throw e, s') => (Throw e, s')
                  end.
Proof. reflexivity. Qed.

Lemma xio_result_bind {S A B} (r : result A) (k : A -> xio S B) (s : S) :
  (xio_result r ≫= k) s =
  match r with
  | Ok a => k a s
  | Raise e => (Throw (Exn e), s)
  end.
Proof. destruct r; reflexivity. Qed.

Lemma raise_for_status_cases r :
  raise_for_status r = Ok tt \/ raise_for_status r = Raise HTTPError.
Proof. unfold raise_for_status. destruct (_ && _); auto. Qed.

(** The mode without browser, by cases on what the site gives. *)
Lemma get_chapter_info_sfw_cases manga_url d :
  get_chapter_info E W manga_url false d =
  match get_page W manga_url with
  | Raise e =>
      if is_request_exception (Exn e) then (Return None, d) else (Throw (Exn e), d)
  | Ok response =>
      match raise_for_status response with
      | Raise _ => (Return None, d)
      | Ok _ =>
          let soup := BeautifulSoup W (content response) in
          match select_links soup with
          | [] =>
              let debug_file := Path.join "downloads" "debug_page_sfw.html" in
              let d1 := FS.makedirs "downloads" d in
              if open_ok E debug_file && negb (FS.isdir debug_file d1)
              then (Return None, <[debug_file := File (prettify soup)]> d1)
              else (Throw (Exn OSError), d1)
          | tags =>
              match collect_tags E manga_url tags [] with
              | Return chapters =>
                  (Return (Some (rev (unique_by_url chapters ∅ []))), d)
              | Throw _ => (Throw KeyError, d)
              end
          end
      end
  end.
Proof.
  unfold get_chapter_info, get_chapter_info_sfw, xio_except_request,
    get_chapter_info_sfw_body.
  rewrite xio_result_bind. destruct (get_page W manga_url) as [response|e]; [|reflexivity].
  rewrite xio_result_bind.
  destruct (raise_for_status_cases response) as [-> | ->]; [|reflexivity].
  cbv zeta. destruct (select_links (BeautifulSoup W (content response))) as [|t tags].
  - unfold mbind, xio_bind, xio_io, io_fs, FS.write_file.
    destruct (open_ok E _ && negb (FS.isdir _ _)); reflexivity.
  - unfold mbind, xio_bind.
    destruct (collect_tags_cases E manga_url (t :: tags) []) as [(links & -> & _)| ->];
      reflexivity.
Qed.
End ListingCases.

Lemma listing_distinct_aux (E : Env) (W : Site) (manga_url : string)
    (use_nsfw_mode : bool) (d d' : fs) (chapters : list chapter) :
  get_chapter_info E W manga_url use_nsfw_mode d = (Return (Some chapters), d') ->
  NoDup (url <$> chapters) /\ d' = d.
Proof.
  assert (forall l, NoDup (url <$> rev (unique_by_url l ∅ []))) as Hnd.
  { intros l. rewrite fmap_rev, <- Permutation_rev. apply unique_by_url_NoDup. }
  destruct use_nsfw_mode.
  - destruct (get_chapter_info_nsfw_cases E W manga_url d)
      as [(d1 & -> & _)|(drv & sel & els & _ & _ & ->)]; [discriminate|].
    intros [= <- <-]. auto.
  - rewrite get_chapter_info_sfw_cases.
    destruct (get_page W manga_url) as [response|e].
    2:{ destruct (is_request_exception _); discriminate. }
    destruct (raise_for_status response); [|discriminate].
    cbv zeta. destruct (select_links _) as [|t tags].
    + destruct (_ && _); discriminate.
    + destruct (collect_tags _ _ _ _); [|discriminate].
      intros [= <- <-]. auto.
Qed.

(** X1. Whenever [get_chapter_info] returns a list, in either mode, the URLs
    of the listed chapters are pairwise distinct and the store is as it was:
    the only file the listing ever writes is the debug page, and then it
    returns no list. *)
Theorem listing_urls_distinct (E : Env) (W : Site) (manga_url : string)
    (use_nsfw_mode : bool) (d d' : fs) (chapters : list chapter) :
  get_chapter_info E W manga_url use_nsfw_mode d = (Return (Some chapters), d') ->
  NoDup (url <$> chapters) /\ d' = d.
Proof. apply listing_distinct_aux. Qed.

Lemma listing_urls_distinct_witness :
  NoDup (url <$> sample_listing) /\ (∅ : fs) = ∅.
Proof.
  apply (listing_urls_distinct sample_env sample_site sample_manga_url false).
  vm_compute. reflexivity.
Defined.

(** X2. Without browser, on a page whose links all carry an [href]: the
    listing returns the links bottom-up ([rev chapters] is a sub-list of the
    links in document order), and a link is listed exactly when it is the
    first of the page with its URL. *)
Theorem sfw_listing_first_links (E : Env) (W : Site) (manga_url : string) (d : fs)
    (response : response) (tags : list tag) :
  get_page W manga_url = Ok response ->
  raise_for_status response = Ok tt ->
  select_links (BeautifulSoup W (content response)) = tags ->
  tags <> [] ->
  Forall (fun t => is_Some (tag_href t)) tags ->
  let links := omap (tag_link E manga_url) tags in
  exists chapters,
    get_chapter_info E W manga_url false d = (Return (Some chapters), d) /\
    sublist (rev chapters) links /\
    forall c, c ∈ chapters <-> first_with_url links c.
Proof.
  intros Hget Hstatus Hsel Hne Hall links.
  exists (rev (unique_by_url links ∅ [])). split; [|split].
  - rewrite get_chapter_info_sfw_cases, Hget, Hstatus. cbv zeta. rewrite Hsel.
    destruct tags as [|t tags]; [congruence|].
    rewrite collect_tags_links by exact Hall. reflexivity.
  - rewrite rev_involutive. apply unique_by_url_sublist.
  - intros c. rewrite elem_of_rev, unique_by_url_elem. unfold first_with_url.
    split.
    + intros (l1 & l2 & H1 & _ & H2). eauto.
    + intros (l1 & l2 & H1 & H2). exists l1, l2. split; [exact H1|].
      split; [apply not_elem_of_empty|exact H2].
Qed.

Lemma sfw_listing_first_links_witness :
  exists chapters,
    get_chapter_info sample_env sample_site sample_manga_url false ∅
      = (Return (Some chapters), ∅) /\
    sublist (rev chapters) (omap (tag_link sample_env sample_manga_url) sample_tags) /\
    forall c, c ∈ chapters <->
      first_with_url (omap (tag_link sample_env sample_manga_url) sample_tags) c.
Proof.
  apply (sfw_listing_first_links sample_env sample_site sample_manga_url ∅
           {| status_code := 200; content := [Byte.x31] |} sample_tags).
  - reflexivity.
  - reflexivity.
  - reflexivity.
  - discriminate.
  - repeat constructor; eexists; reflexivity.
Defined.

Lemma element_chapter_Some (E : Env) manga_url el c :
  element_chapter E manga_url el = Some c ->
  exists text href,
    element_text el = Ok text /\ element_href el = Ok (Some href) /\
    title c = Text.strip text /\ 3 <= String.length (title c) /\
    (Text.contains "/title/" href = true \/ Text.contains "/c" href = true) /\
    url c = absolute_url E manga_url href.
Proof.
  unfold element_chapter.
  destruct (element_text el) as [text|]; simpl; [|discriminate].
  destruct (element_href el) as [href|]; simpl; [|discriminate].
  destruct (bool_decide (Text.strip text = "")); simpl; [discriminate|].
  destruct (String.length (Text.strip text) <? 3) eqn:Hlen; [discriminate|].
  apply Nat.ltb_ge in Hlen.
  destruct href as [href|]; [|discriminate].
  destruct (bool_decide (href = "")); simpl; [discriminate|].
  destruct (Text.contains "/title/" href) eqn:Ht;
    destruct (Text.contains "/c" href) eqn:Hc; simpl; try discriminate;
    intros [= <-]; exists text, href; simpl; auto 10.
Qed.

(** X3. With the browser: every listed chapter comes from an element that
    one of the selectors found; its title is the stripped text of the
    element and has at least three characters, its link holds [/title/] or
    [/c], and its URL is the link itself or the link joined to the address
    of the manga. *)
Theorem nsfw_listing_filter (E : Env) (W : Site) (manga_url : string) (d d' : fs)
    (chapters : list chapter) (c : chapter) :
  get_chapter_info E W manga_url true d = (Return (Some chapters), d') ->
  c ∈ chapters ->
  exists drv sel els el text href,
    open_browser W manga_url = Ok drv /\
    find_elements drv sel = Ok els /\ el ∈ els /\
    element_text el = Ok text /\ element_href el = Ok (Some href) /\
    title c = Text.strip text /\ 3 <= String.length (title c) /\
    (Text.contains "/title/" href = true \/ Text.contains "/c" href = true) /\
    url c = (if Str.startswith "http" href then href else urljoin E manga_url href).
Proof.
  destruct (get_chapter_info_nsfw_cases E W manga_url d)
    as [(d1 & -> & _)|(drv & sel & els & Hb & Hs & ->)]; [discriminate|].
  intros [= <- <-] Hc. rewrite elem_of_rev in Hc.
  apply unique_by_url_elem in Hc as (l1 & l2 & Hl & _).
  assert (c ∈ omap (element_chapter E manga_url) els) as Hin.
  { rewrite Hl. set_solver. }
  apply list_elem_of_omap in Hin as (el & Hel & Hsome).
  apply element_chapter_Some in Hsome
    as (text & href & Ht & Hh & Htitle & Hlen & Hlink & Hurl).
  exists drv, sel, els, el, text, href. auto 12.
Qed.

Lemma nsfw_listing_filter_witness :
  exists drv sel els el text href,
    open_browser sample_site sample_manga_url = Ok drv /\
    find_elements drv sel = Ok els /\ el ∈ els /\
    element_text el = Ok text /\ element_href el = Ok (Some href) /\
    "Chapter 2" = Text.strip text /\ 3 <= String.length "Chapter 2" /\
    (Text.contains "/title/" href = true \/ Text.contains "/c" href = true) /\
    "https://mangapark.net/title/1/chapter-2" =
      (if Str.startswith "http" href then href
       else urljoin sample_env sample_manga_url href).
Proof.
  apply (nsfw_listing_filter sample_env sample_site sample_manga_url ∅ ∅
           [ {| title := "Chapter 1";
                url := "https://mangapark.net/title/1/title/1/chapter-1" |};
             {| title := "Chapter 2";
                url := "https://mangapark.net/title/1/chapter-2" |} ]
           {| title := "Chapter 2";
              url := "https://mangapark.net/title/1/chapter-2" |}).
  - vm_compute. reflexivity.
  - set_solver.
Defined.

(** X4. Without browser, on a fetched page with links: the listing raises
    [KeyError] exactly when one of the links has no [href]; the handler of
    the function, which is for the exceptions of [requests], lets it through.
    The store is unchanged. *)
Theorem sfw_missing_href (E : Env) (W : Site) (manga_url : string) (d : fs)
    (response : response) (tags : list tag) :
  get_page W manga_url = Ok response ->
  raise_for_status response = Ok tt ->
  select_links (BeautifulSoup W (content response)) = tags ->
  tags <> [] ->
  (get_chapter_info E W manga_url false d = (Throw KeyError, d)
   <-> Exists (fun t => tag_href t = None) tags).
Proof.
  intros Hget Hstatus Hsel Hne.
  rewrite get_chapter_info_sfw_cases, Hget, Hstatus. cbv zeta. rewrite Hsel.
  destruct tags as [|t tags]; [congruence|].
  destruct (decide (Exists (fun t => tag_href t = None) (t :: tags))) as [Hex|Hall].
  - rewrite collect_tags_missing by exact Hex. tauto.
  - rewrite collect_tags_links.
    + split; [discriminate|contradiction].
    + apply Forall_forall. intros x Hx.
      destruct (tag_href x) as [href|] eqn:Hh; [eauto|].
      exfalso. apply Hall. apply Exists_exists. eauto.
Qed.

Lemma sfw_missing_href_witness :
  get_chapter_info sample_env sample_site "https://mangapark.net/title/broken" false ∅
    = (Throw KeyError, ∅)
  <-> Exists (fun t => tag_href t = None)
        (sample_tags ++ [{| tag_text := "Chapter 0"; tag_href := None |}]).
Proof.
  apply (sfw_missing_href sample_env sample_site "https://mangapark.net/title/broken" ∅
           {| status_code := 200; content := [Byte.x32] |}).
  - reflexivity.
  - reflexivity.
  - reflexivity.
  - discriminate.
Defined.

(** X5. With the browser the listing never raises: it returns, whatever the
    browser and the store do; when the browser cannot be started or cannot
    load the page the result is [None] and the store is unchanged. *)
Theorem nsfw_listing_never_raises (E : Env) (W : Site) (manga_url : string) (d : fs) :
  exists r d',
    get_chapter_info E W manga_url true d = (Return r, d') /\
    forall e, open_browser W manga_url = Raise e -> r = None /\ d' = d.
Proof.
  destruct (get_chapter_info_nsfw_cases E W manga_url d)
    as [(d1 & Hr & Hd)|(drv & sel & els & Hb & _ & Hr)].
  - exists None, d1. split; [exact Hr|]. intros e He. split; [reflexivity|eauto].
  - eexists _, d. split; [exact Hr|]. intros e He. congruence.
Qed.

(** X6. Without browser, the listing returns [None] in two cases only: the
    request failed with an exception of [requests] or the status is an error
    status, and then the store is unchanged; or the page has no chapter link,
    and then the prettified page has been written to
    [downloads/debug_page_sfw.html]. *)
Theorem sfw_none_result (E : Env) (W : Site) (manga_url : string) (d d' : fs) :
  get_chapter_info E W manga_url false d = (Return None, d') <->
  (d' = d /\
   (get_page W manga_url = Raise RequestException \/
    get_page W manga_url = Raise HTTPError \/
    exists response, get_page W manga_url = Ok response /\
                     (400 <= status_code response < 600)%Z))
  \/ exists response,
       get_page W manga_url = Ok response /\
       ~ (400 <= status_code response < 600)%Z /\
       let soup := BeautifulSoup W (content response) in
       let debug_file := "downloads/debug_page_sfw.html" in
       select_links soup = [] /\
       open_ok E debug_file = true /\
       FS.isdir debug_file (FS.makedirs "downloads" d) = false /\
       d' = <[debug_file := File (prettify soup)]> (FS.makedirs "downloads" d).
Proof.
  rewrite get_chapter_info_sfw_cases.
  change (Path.join "downloads" "debug_page_sfw.html")
    with "downloads/debug_page_sfw.html".
  destruct (get_page W manga_url) as [response|e].
  - unfold raise_for_status.
    destruct (_ && _) eqn:Hs.
    + apply andb_true_iff in Hs as [H1 H2].
      apply Z.leb_le in H1. apply Z.ltb_lt in H2. split.
      * intros [= <-]. left. split; [reflexivity|]. right. right. eauto.
      * intros [[-> _]|(r & [= <-] & Hn & _)]; [reflexivity|]. lia.
    + assert (~ (400 <= status_code response < 600)%Z) as Hn.
      { intros [H1 H2]. apply Z.leb_le in H1. apply Z.ltb_lt in H2.
        rewrite H1, H2 in Hs. discriminate. }
      cbv zeta. split.
      * destruct (select_links _) as [|t tags] eqn:Hsel.
        -- destruct (open_ok E _) eqn:Hopen; simpl; [|discriminate].
           destruct (FS.isdir _ _) eqn:Hdir; simpl; [discriminate|].
           intros [= <-]. right. exists response. auto 10.
        -- destruct (collect_tags _ _ _ _); discriminate.
      * intros [[_ [H|[H|(r & [= <-] & H)]]]|(r & [= <-] & _ & Hsel & Hopen & Hdir & ->)];
          try discriminate; try contradiction.
        rewrite Hsel, Hopen, Hdir. reflexivity.
  - split.
    + destruct e; simpl; try discriminate; intros [= <-]; left; auto.
    + intros [[-> [[= ->]|[[= ->]|(r & H & _)]]]|(r & H & _)];
        try discriminate; reflexivity.
Qed.

(** X7. [fetch_chapter_metadata] returns a list only when the listing
    without browser returned it: the list is not empty, its URLs are pairwise
    distinct, the store is unchanged, and the two lines of the log are the
    announcement and the count. In every other case it raises after the
    announcement alone: [ValueError] when the listing returned [None], and
    what the listing raised otherwise. *)
Theorem fetch_chapter_metadata_spec (E : Env) (W : Site) (manga_url : string)
    (log log' : list string) (d d' : fs) (r : outcome (list chapter)) :
  fetch_chapter_metadata E W manga_url (log, d) = (r, (log', d')) ->
  match r with
  | Return chapters =>
      chapters <> [] /\ NoDup (url <$> chapters) /\ d' = d /\
      get_chapter_info E W manga_url false d = (Return (Some chapters), d) /\
      log' = log ++ [fetching_line manga_url; found_line (length chapters)]
  | Throw e =>
      log' = log ++ [fetching_line manga_url] /\
      (get_chapter_info E W manga_url false d = (Throw e, d') \/
       e = Exn ValueError /\
       get_chapter_info E W manga_url false d = (Return None, d'))
  end.
Proof.
  unfold fetch_chapter_metadata.
  unfold mbind, xio_bind, signal_log, with_store. cbn [fst snd].
  fold (fetching_line manga_url).
  destruct (get_chapter_info E W manga_url false d) as [[[chapters|]|e] d1] eqn:Hg.
  - destruct chapters as [|c chapters].
    + exfalso. rewrite get_chapter_info_sfw_cases in Hg.
      destruct (get_page W manga_url); [|destruct (is_request_exception _); discriminate].
      destruct (raise_for_status _); [|discriminate]. cbv zeta in Hg.
      destruct (select_links _) as [|t tags]; [destruct (_ && _); discriminate|].
      destruct (collect_tags_cases E manga_url (t :: tags) []) as [(links & Hl & Hlen)|Hl];
        rewrite Hl in Hg; [|discriminate].
      injection Hg as Hg _. destruct links as [|x links]; [discriminate|].
      simpl in Hg. destruct (bool_decide (url x ∈ (∅ : gset string))) eqn:Hx.
      * apply bool_decide_eq_true in Hx. set_solver.
      * rewrite unique_by_url_app in Hg. simpl in Hg.
        apply (f_equal (@length chapter)) in Hg. rewrite length_app in Hg.
        simpl in Hg. lia.
    + cbn. intros [= <- <- <-].
      destruct (listing_distinct_aux E W manga_url false d d1 (c :: chapters) Hg)
        as [Hnd ->].
      split; [discriminate|]. split; [exact Hnd|]. split; [reflexivity|].
      split; [reflexivity|]. rewrite <- app_assoc. reflexivity.
  - cbn. intros [= <- <- <-]. split; [reflexivity|]. right. auto.
  - intros [= <- <- <-]. split; [reflexivity|]. left. reflexivity.
Qed.

Lemma fetch_chapter_metadata_spec_witness :
  sample_listing <> [] /\ NoDup (url <$> sample_listing) /\ (∅ : fs) = ∅ /\
  get_chapter_info sample_env sample_site sample_manga_url false ∅ =
    (Return (Some sample_listing), ∅) /\
  [fetching_line sample_manga_url; found_line 3] =
  [] ++ [fetching_line sample_manga_url; found_line (length sample_listing)].
Proof.
  apply (fetch_chapter_metadata_spec sample_env sample_site sample_manga_url
           [] [fetching_line sample_manga_url; found_line 3] ∅ ∅
           (Return sample_listing)).
  vm_compute. reflexivity.
Defined.

(** ** Output redirection *)

Lemma split_once_spec c s :
  match Lines.split_once c s with
  | Some (l, r) => s = l +:+ String c r /\ Str.contains_char c l = false
  | None => Str.contains_char c s = false
  end.
Proof.
  induction s as [|a s IH]; simpl; [reflexivity|].
  destruct (decide (a = c)) as [->|Hne].
  - split; reflexivity.
  - rewrite bool_decide_eq_false_2 by exact Hne. simpl.
    destruct (Lines.split_once c s) as [[l r]|].
    + destruct IH as [-> Hl]. split; [reflexivity|].
      simpl. rewrite bool_decide_eq_false_2 by exact Hne. exact Hl.
    + exact IH.
Qed.

Lemma length_app_s (a b : string) :
  String.length (a +:+ b) = String.length a + String.length b.
Proof. induction a; simpl; auto. Qed.

Lemma removelast_cons {A} (x : A) l : l <> [] -> removelast (x :: l) = x :: removelast l.
Proof. destruct l; [congruence|reflexivity]. Qed.

Lemma last_item_cons x l : l <> [] -> Str.last_item (x :: l) = Str.last_item l.
Proof. destruct l; [congruence|reflexivity]. Qed.

Lemma split_pieces c s : Forall (fun p => Str.contains_char c p = false) (Str.split c s).
Proof.
  induction s as [|a s IH]; simpl; [repeat constructor|].
  destruct (decide (a = c)) as [->|Hne]; [constructor; [reflexivity|exact IH]|].
  destruct (Str.split c s) as [|h t]; [repeat constructor|].
  - simpl. rewrite bool_decide_eq_false_2 by exact Hne. reflexivity.
  - apply Forall_cons in IH as [Hh Ht]. constructor; [|exact Ht].
    simpl. rewrite bool_decide_eq_false_2 by exact Hne. exact Hh.
Qed.

Lemma last_item_elem l : l <> [] -> Str.last_item l ∈ l.
Proof.
  induction l as [|x l IH]; [congruence|]. intros _.
  destruct l as [|y l]; [left|]. right. apply IH. discriminate.
Qed.

Lemma split_app c x y :
  Str.split c (x +:+ y) =
  removelast (Str.split c x) ++ Str.split c (Str.last_item (Str.split c x) +:+ y).
Proof.
  induction x as [|a x IH]; [reflexivity|].
  change (String a x +:+ y) with (String a (x +:+ y)).
  pose proof (split_nonempty c x) as Hne.
  simpl. destruct (decide (a = c)) as [->|Ha].
  - rewrite IH, removelast_cons, last_item_cons by exact Hne. reflexivity.
  - rewrite IH. destruct (Str.split c x) as [|p [|q rest]]; [congruence| |].
    + simpl. destruct (decide (a = c)); [congruence|]. reflexivity.
    + rewrite (removelast_cons p) by discriminate.
      rewrite (removelast_cons (String a p)) by discriminate.
      rewrite !last_item_cons by discriminate. reflexivity.
Qed.

Section RedirectFacts.
Context {S : Type} (emit : string -> S -> S).

Local Abbreviation pushes := (foldl (fun s l => _push emit l s)).

(** The loop of [write] has turns enough: it takes the pieces of the buffer
    but the last, which stays. *)
Lemma write_loop_split fuel : forall buffer s,
  String.length buffer <= fuel ->
  write_loop emit fuel (buffer, s) =
  (Str.last_item (Str.split Lines.nl buffer),
   pushes s (removelast (Str.split Lines.nl buffer))).
Proof.
  induction fuel as [|fuel IH]; intros buffer s Hlen.
  - destruct buffer; [reflexivity|simpl in Hlen; lia].
  - simpl. pose proof (split_once_spec Lines.nl buffer) as Hs.
    destruct (Lines.split_once Lines.nl buffer) as [[line rest]|].
    + destruct Hs as [-> Hline]. rewrite IH.
      * rewrite split_app_sep, (split_no_sep _ line) by exact Hline.
        pose proof (split_nonempty Lines.nl rest) as Hne. simpl.
        rewrite last_item_cons by exact Hne.
        destruct (Str.split Lines.nl rest) as [|p ps]; [congruence|reflexivity].
      * rewrite length_app_s in Hlen. simpl in Hlen. lia.
    + rewrite split_no_sep by exact Hs. reflexivity.
Qed.

Lemma write_split text buffer s :
  write emit text (buffer, s) =
  (Str.last_item (Str.split Lines.nl (buffer +:+ text)),
   pushes s (removelast (Str.split Lines.nl (buffer +:+ text)))).
Proof. unfold write. simpl. apply write_loop_split. lia. Qed.

Lemma write_app_aux text1 text2 st :
  write emit text2 (write emit text1 st) = write emit (text1 +:+ text2) st.
Proof.
  destruct st as [buffer s]. rewrite !write_split, <- app_assoc_s.
  rewrite (split_app _ (buffer +:+ text1) text2).
  pose proof (split_nonempty Lines.nl
                (Str.last_item (Str.split Lines.nl (buffer +:+ text1)) +:+ text2)) as Hne.
  rewrite last_item_app by exact Hne.
  rewrite removelast_app by exact Hne. rewrite foldl_app. reflexivity.
Qed.

Lemma flush_write text s :
  flush emit (write emit text ("", s)) = ("", pushes s (Str.split Lines.nl text)).
Proof.
  rewrite write_split. change ("" +:+ text) with text.
  pose proof (split_nonempty Lines.nl text) as Hne.
  set (P := Str.split Lines.nl text) in *.
  assert (pushes s P = pushes (pushes s (removelast P)) [Str.last_item P]) as ->.
  { rewrite <- foldl_app. f_equal. apply app_removelast_last. exact Hne. }
  unfold flush. cbn [fst snd].
  destruct (bool_decide (Str.last_item P = "")) eqn:Hl; [|reflexivity].
  apply bool_decide_eq_true in Hl. rewrite Hl. reflexivity.
Qed.
End RedirectFacts.

Lemma pushes_snoc {A} (f : string -> A) (l : list string) : forall s,
  foldl (fun s l => _push (fun x s => s ++ [f x]) l s) s l =
  s ++ (f <$> List.filter (fun l => negb (bool_decide (l = ""))) (Text.strip <$> l)).
Proof.
  induction l as [|x l IH]; intros s; simpl.
  - rewrite app_nil_r. reflexivity.
  - rewrite IH. unfold _push.
    destruct (bool_decide (Text.strip x = "")); simpl; [reflexivity|].
    rewrite <- app_assoc. reflexivity.
Qed.

(** X8. [write] leaves no line feed in the buffer, whatever the buffer and
    the text: the loop ends because every complete line has been passed on. *)
Theorem write_leaves_no_line_feed {S : Type} (emit : string -> S -> S)
    (text : string) (st : string * S) :
  Str.contains_char Lines.nl (write emit text st).1 = false.
Proof.
  destruct st as [buffer s]. rewrite write_split. cbn [fst].
  pose proof (split_pieces Lines.nl (buffer +:+ text)) as Hall.
  rewrite Forall_forall in Hall. apply Hall, last_item_elem, split_nonempty.
Qed.

(** X9. Writing a text in two parts is writing it at once: the lines passed
    on and the buffer left do not depend on how the output is cut into
    calls of [write]. *)
Theorem write_app {S : Type} (emit : string -> S -> S) (text1 text2 : string)
    (st : string * S) :
  write emit text2 (write emit text1 st) = write emit (text1 +:+ text2) st.
Proof. apply write_app_aux. Qed.

(** X10. A text written to a fresh redirector and flushed: what has been
    passed on is the list of the pieces of the text between line feeds,
    stripped, without the empty ones, in order; the buffer is empty. *)
Theorem write_flush_lines (text : string) (lines : list string) :
  flush keep_line (write keep_line text ("", lines)) =
  ("", lines ++ nonblank_lines text).
Proof.
  rewrite flush_write. f_equal. unfold keep_line, nonblank_lines.
  rewrite (pushes_snoc (@Datatypes.id string)). rewrite list_fmap_id. reflexivity.
Qed.

Lemma perform_prints {R} (texts : list string) : forall text0 (sigs : list (signal R)),
  foldl (fun st a => perform a st) (write log_emit text0 ("", sigs)) (Print <$> texts) =
  write log_emit (text0 +:+ foldr String.append "" texts) ("", sigs).
Proof.
  induction texts as [|t texts IH]; intros text0 sigs; simpl.
  - rewrite app_nil_r_s. reflexivity.
  - rewrite write_app_aux, IH, app_assoc_s. reflexivity.
Qed.

(** X11. A task that only prints, run by [TaskRunnable.run]: the signals
    are the log lines of the whole output (its pieces between line feeds,
    stripped, the empty ones left out), however the output is cut into
    writes and whether or not it ends with a line feed; then the result or
    the error; then [finished]. *)
Theorem run_prints {R : Type} (texts : list string) (res : outcome R) :
  run (Print <$> texts) res =
  (SigLog <$> nonblank_lines (foldr String.append "" texts))
  ++ [ending res; SigFinished].
Proof.
  unfold run, redirect_streams.
  change (("", []) : string * list (signal R)) with (write (S := list (signal R)) log_emit "" ("", [])).
  rewrite perform_prints. change ("" +:+ ?x) with x.
  rewrite flush_write. cbn [snd]. unfold log_emit.
  rewrite (pushes_snoc SigLog). unfold nonblank_lines. simpl.
  destruct res; rewrite <- app_assoc; reflexivity.
Qed.

Lemma perform_task_signals {R} (a : action) (st : string * list (signal R)) :
  Forall task_signal st.2 -> Forall task_signal (perform a st).2.
Proof.
  intros H. destruct st as [buffer sigs]. destruct a as [text|line|value]; simpl.
  - rewrite write_split. cbn [snd]. unfold log_emit. rewrite (pushes_snoc SigLog).
    apply Forall_app. split; [exact H|]. apply Forall_fmap, Forall_true.
    intros x. exact I.
  - apply Forall_app. split; [exact H|]. repeat constructor.
  - apply Forall_app. split; [exact H|]. repeat constructor.
Qed.

(** X12. Whatever the task does, [TaskRunnable.run] ends with exactly one
    of [result] and [error], which tells how the task ended, followed by
    [finished]; every signal before them is a log line or a progress
    value. *)
Theorem run_ends_finished {R : Type} (actions : list action) (res : outcome R) :
  exists body,
    run actions res = body ++ [ending res; SigFinished] /\
    Forall task_signal body.
Proof.
  exists (redirect_streams actions []). split.
  - unfold run. destruct res; rewrite <- app_assoc; reflexivity.
  - unfold redirect_streams.
    assert (forall st : string * list (signal R),
              Forall task_signal st.2 ->
              Forall task_signal (foldl (fun st a => perform a st) st actions).2) as Hfold.
    { induction actions as [|a actions IH]; intros st Hst; [exact Hst|].
      simpl. apply IH, perform_task_signals, Hst. }
    specialize (Hfold ("", []) ltac:(constructor)).
    destruct (foldl _ _ actions) as [buffer sigs]. unfold flush. cbn [fst snd] in *.
    destruct (bool_decide (buffer = "")); [exact Hfold|]. cbn [snd].
    unfold _push. destruct (bool_decide (Text.strip buffer = "")); [exact Hfold|].
    apply Forall_app. split; [exact Hfold|]. repeat constructor.
Qed.

(** ** The chapter selection of the command line *)

Lemma lower_all_no_dash s : Str.lower s = "all" -> Str.contains_char "-" s = false.
Proof.
  destruct s as [|a [|b [|c [|]]]]; simpl; try discriminate.
  intros [= Ha Hb Hc].
  assert (forall x y, Str.lower_char x = y -> y <> "-"%char -> bool_decide (x = "-"%char) = false)
    as Hx.
  { intros x y Hxy Hy. apply bool_decide_eq_false. intros ->. apply Hy. rewrite <- Hxy.
    reflexivity. }
  rewrite (Hx a _ Ha), (Hx b _ Hb), (Hx c _ Hc) by discriminate. reflexivity.
Qed.

Lemma slice_segment {A} (l : list A) start stop :
  exists before after, l = before ++ slice l start stop ++ after.
Proof.
  unfold slice.
  set (k := Z.to_nat _). set (n := Z.to_nat _).
  exists (take n l), (drop k (drop n l)).
  rewrite (take_drop k (drop n l)), take_drop. reflexivity.
Qed.

Lemma slice_inside {A} (l : list A) (a b : Z) :
  (0 <= a)%Z -> (a <= b)%Z -> (b <= Z.of_nat (length l))%Z ->
  slice l a b = take (Z.to_nat (b - a)) (drop (Z.to_nat a) l).
Proof.
  intros Ha Hab Hb. unfold slice.
  replace (a <? 0)%Z with false by (symmetry; apply Z.ltb_ge; lia).
  replace (b <? 0)%Z with false by (symmetry; apply Z.ltb_ge; lia).
  rewrite !Z.max_r, !Z.min_r by lia. reflexivity.
Qed.

Lemma slice_reversed {A} (l : list A) (a b : Z) :
  (0 <= b)%Z -> (b <= a)%Z -> slice l a b = [].
Proof.
  intros Hb Hab. unfold slice.
  replace (a <? 0)%Z with false by (symmetry; apply Z.ltb_ge; lia).
  replace (b <? 0)%Z with false by (symmetry; apply Z.ltb_ge; lia).
  replace (Z.to_nat _) with 0 by lia. reflexivity.
Qed.

Lemma digits_nonneg s : forall acc f n,
  (0 <= acc)%Z -> PyInt.digits s acc f = Some n -> (0 <= n)%Z.
Proof.
  induction s as [|c s IH]; intros acc f n Hacc; simpl.
  - destruct f; [intros [= <-]; exact Hacc|discriminate].
  - destruct (Ascii.is_nat c) as [dg|].
    + apply IH. lia.
    + destruct (_ && _); [apply IH; exact Hacc|discriminate].
Qed.

Lemma lstrip_no_char c s :
  Str.contains_char c s = false -> Str.contains_char c (Text.lstrip s) = false.
Proof.
  induction s as [|x s IH]; [reflexivity|]. simpl.
  intros H. destruct (Text.is_space x); [|exact H].
  apply orb_false_iff in H as [H1 H2]. apply IH, H2.
Qed.

Lemma rstrip_no_char c s :
  Str.contains_char c s = false -> Str.contains_char c (Text.rstrip s) = false.
Proof.
  induction s as [|x s IH]; [reflexivity|]. simpl.
  intros H. apply orb_false_iff in H as [H1 H2]. specialize (IH H2).
  destruct (Text.rstrip s).
  - destruct (Text.is_space x); [reflexivity|]. simpl. rewrite H1. reflexivity.
  - simpl in *. rewrite H1. exact IH.
Qed.

Lemma strip_no_char c s :
  Str.contains_char c s = false -> Str.contains_char c (Text.strip s) = false.
Proof. intros H. apply rstrip_no_char, lstrip_no_char, H. Qed.

(** A string without minus sign is never read as a negative number. *)
Lemma int_nonneg s n :
  Str.contains_char "-" s = false -> PyInt.int s = Ok n -> (0 <= n)%Z.
Proof.
  intros Hs. apply (strip_no_char "-") in Hs. unfold PyInt.int.
  assert (forall body, match PyInt.digits body 0 false with
                       | Some n0 => Ok n0
                       | None => Raise ValueError
                       end = Ok n -> (0 <= n)%Z) as Hpos.
  { intros body H. destruct (PyInt.digits body 0 false) as [n0|] eqn:Hn; [|discriminate].
    injection H as <-. eapply digits_nonneg; [|exact Hn]. lia. }
  destruct (Text.strip s) as [|c body]; [apply Hpos|].
  simpl in Hs. apply orb_false_iff in Hs as [Hc _]. apply bool_decide_eq_false in Hc.
  destruct c as [[] [] [] [] [] [] [] []];
    try (exfalso; apply Hc; reflexivity); apply Hpos.
Qed.

(** X13. The selection stage never invents, repeats or reorders: what it
    selects is a non-empty run of consecutive chapters of the list. *)
Theorem selection_is_segment (selection : string) (chapters selected : list chapter) :
  select_chapters selection chapters = Selected selected ->
  selected <> [] /\ exists before after, chapters = before ++ selected ++ after.
Proof.
  unfold select_chapters.
  assert (forall l : list chapter,
            match l with
            | [] => Rejected "No valid chapters selected."
            | _ => Selected l
            end = Selected selected -> selected <> [] /\ l = selected) as Hchecked.
  { intros [|c l]; [discriminate|]. intros [= <-]. split; [discriminate|reflexivity]. }
  destruct (bool_decide (Str.lower selection = "all")).
  - intros H. apply Hchecked in H as [Hne <-]. split; [exact Hne|].
    exists [], []. rewrite app_nil_r. reflexivity.
  - destruct (Str.contains_char "-" selection).
    + destruct (match Str.split "-" selection with
                | [a; b] => _
                | _ => _
                end) as [[start stop]|]; [|discriminate].
      destruct (_ && _); [|discriminate].
      intros H. apply Hchecked in H as [Hne <-]. split; [exact Hne|].
      apply slice_segment.
    + destruct (PyInt.int selection) as [n|]; [|discriminate].
      destruct (_ && _); [|discriminate].
      destruct (chapters !! Z.to_nat (n - 1)) as [c|] eqn:Hc; [|discriminate].
      intros [= <-]. split; [discriminate|].
      exists (take (Z.to_nat (n - 1)) chapters), (drop (Datatypes.S (Z.to_nat (n - 1))) chapters).
      simpl. symmetry. apply take_drop_middle, Hc.
Qed.

Lemma selection_is_segment_witness :
  drop 1 sample_listing <> [] /\
  exists before after, sample_listing = before ++ drop 1 sample_listing ++ after.
Proof.
  apply (selection_is_segment " 2 - 3" sample_listing). reflexivity.
Defined.

(** X14. A range [a-b], the two numbers written in any way [int] reads:
    with [1 <= a <= b <= len(chapters)] the stage selects the chapters
    numbered [a] to [b], [b - a + 1] of them; with [a] below 1 or [b] above
    the number of chapters it answers that the range is invalid; with
    [b < a] inside these bounds it answers that nothing valid is selected. *)
Theorem selection_range (chapters : list chapter) (sa sb : string) (a b : Z) :
  Str.contains_char "-" sa = false -> Str.contains_char "-" sb = false ->
  PyInt.int sa = Ok a -> PyInt.int sb = Ok b ->
  select_chapters (sa +:+ "-" +:+ sb) chapters =
  (if (0 <? a)%Z && (b <=? Z.of_nat (length chapters))%Z
   then if (a <=? b)%Z
        then Selected (take (Z.to_nat (b - a + 1)) (drop (Z.to_nat (a - 1)) chapters))
        else Rejected "No valid chapters selected."
   else Rejected "Invalid chapter range.") /\
  ((0 < a <= b)%Z -> (b <= Z.of_nat (length chapters))%Z ->
   length (take (Z.to_nat (b - a + 1)) (drop (Z.to_nat (a - 1)) chapters))
   = Z.to_nat (b - a + 1)).
Proof.
  intros Hsa Hsb Ha Hb. split.
  - unfold select_chapters.
    assert (Str.contains_char "-" (sa +:+ "-" +:+ sb) = true) as Hdash.
    { rewrite contains_char_app. simpl. apply orb_true_r. }
    rewrite bool_decide_eq_false_2.
    2:{ intros Hall. apply lower_all_no_dash in Hall. congruence. }
    rewrite Hdash.
    change (sa +:+ "-" +:+ sb) with (sa +:+ String "-" sb).
    rewrite split_app_sep, !split_no_sep by assumption. simpl.
    rewrite Ha, Hb. simpl.
    destruct (0 <? a)%Z eqn:H0; [|reflexivity].
    destruct (b <=? Z.of_nat (length chapters))%Z eqn:Hn; [|reflexivity].
    apply Z.ltb_lt in H0. apply Z.leb_le in Hn. simpl.
    destruct (a <=? b)%Z eqn:Hab.
    + apply Z.leb_le in Hab. rewrite slice_inside by lia.
      replace (b - (a - 1))%Z with (b - a + 1)%Z by lia.
      destruct (take _ _) eqn:Ht; [|reflexivity].
      apply (f_equal (@length chapter)) in Ht.
      rewrite length_take, length_drop in Ht. simpl in Ht. lia.
    + apply Z.leb_gt in Hab. pose proof (int_nonneg sb b Hsb Hb) as Hb0.
      rewrite slice_reversed by lia. reflexivity.
  - intros Hab Hn. rewrite length_take, length_drop. lia.
Qed.

Lemma selection_range_witness :
  select_chapters (" 2 " +:+ "-" +:+ " 3") sample_listing =
  (if (0 <? 2)%Z && (3 <=? Z.of_nat (length sample_listing))%Z
   then if (2 <=? 3)%Z
        then Selected (take (Z.to_nat (3 - 2 + 1)) (drop (Z.to_nat (2 - 1)) sample_listing))
        else Rejected "No valid chapters selected."
   else Rejected "Invalid chapter range.") /\
  ((0 < 2 <= 3)%Z -> (3 <= Z.of_nat (length sample_listing))%Z ->
   length (take (Z.to_nat (3 - 2 + 1)) (drop (Z.to_nat (2 - 1)) sample_listing))
   = Z.to_nat (3 - 2 + 1)).
Proof.
  apply (selection_range sample_listing " 2 " " 3" 2 3); reflexivity.
Defined.

Lemma int_all_fails s : Str.lower s = "all" -> PyInt.int s = Raise ValueError.
Proof.
  destruct s as [|a [|b [|c [|]]]]; simpl; try discriminate.
  intros [= Ha Hb Hc].
  destruct a as [[] [] [] [] [] [] [] []]; try (vm_compute in Ha; discriminate Ha);
    destruct b as [[] [] [] [] [] [] [] []]; try (vm_compute in Hb; discriminate Hb);
    destruct c as [[] [] [] [] [] [] [] []]; try (vm_compute in Hc; discriminate Hc);
    reflexivity.
Qed.

(** X15. A single number without minus sign, written in any way [int]
    reads: the stage selects the chapter with this number, counted from 1,
    and it alone; a number that is 0 or above the number of chapters is
    answered as out of range. *)
Theorem selection_single (chapters : list chapter) (selection : string) (k : Z) :
  Str.contains_char "-" selection = false ->
  PyInt.int selection = Ok k ->
  ((1 <= k <= Z.of_nat (length chapters))%Z ->
   exists c, chapters !! Z.to_nat (k - 1) = Some c /\
             select_chapters selection chapters = Selected [c]) /\
  (~ (1 <= k <= Z.of_nat (length chapters))%Z ->
   select_chapters selection chapters = Rejected "Chapter number out of range.").
Proof.
  intros Hdash Hint. unfold select_chapters.
  rewrite bool_decide_eq_false_2.
  2:{ intros Hall. apply int_all_fails in Hall. congruence. }
  rewrite Hdash, Hint. split.
  - intros Hk. destruct (lookup_lt_is_Some_2 chapters (Z.to_nat (k - 1))) as [c Hc]; [lia|].
    exists c. split; [exact Hc|]. rewrite Hc.
    replace (0 <=? k - 1)%Z with true by (symmetry; apply Z.leb_le; lia).
    replace (k - 1 <? Z.of_nat (length chapters))%Z with true
      by (symmetry; apply Z.ltb_lt; lia).
    reflexivity.
  - intros Hk. destruct (0 <=? k - 1)%Z eqn:H0; [|reflexivity].
    destruct (k - 1 <? Z.of_nat (length chapters))%Z eqn:H1; [|reflexivity].
    apply Z.leb_le in H0. apply Z.ltb_lt in H1. lia.
Qed.

Lemma selection_single_witness :
  ((1 <= 2 <= Z.of_nat (length sample_listing))%Z ->
   exists c, sample_listing !! Z.to_nat (2 - 1) = Some c /\
             select_chapters " +02 " sample_listing = Selected [c]) /\
  (~ (1 <= 2 <= Z.of_nat (length sample_listing))%Z ->
   select_chapters " +02 " sample_listing = Rejected "Chapter number out of range.").
Proof.
  apply (selection_single sample_listing " +02 " 2); reflexivity.
Defined.

Lemma lstrip_split s :
  exists ws, s = ws +:+ Text.lstrip s /\ Text.lstrip ws = "" /\
             Str.contains_char "-" ws = false.
Proof.
  induction s as [|x s (ws & Hs & Hws & Hd)]; [exists ""; auto|].
  simpl. destruct (Text.is_space x) eqn:Hx.
  - exists (String x ws). simpl. rewrite Hx, <- Hs. split; [reflexivity|].
    split; [exact Hws|]. rewrite Hd, orb_false_r. apply bool_decide_eq_false.
    intros ->. discriminate.
  - exists "". auto.
Qed.

Lemma rstrip_head x s c body :
  Text.rstrip (String x s) = String c body -> x = c.
Proof.
  simpl. destruct (Text.rstrip s); [destruct (Text.is_space x)|]; congruence.
Qed.

Lemma int_negative s k :
  PyInt.int s = Ok k -> (k < 0)%Z -> exists rest, Text.lstrip s = String "-" rest.
Proof.
  unfold PyInt.int, Text.strip. intros H Hk.
  assert (forall body, match PyInt.digits body 0 false with
                       | Some n0 => Ok n0
                       | None => Raise ValueError
                       end = Ok k -> False) as Hpos.
  { intros body H'. destruct (PyInt.digits body 0 false) as [n0|] eqn:Hn; [|discriminate].
    injection H' as <-. apply digits_nonneg in Hn; lia. }
  destruct (Text.lstrip s) as [|x rest]; [discriminate H|].
  destruct (Text.rstrip (String x rest)) as [|c body] eqn:Hr; [discriminate H|].
  apply rstrip_head in Hr as ->.
  destruct (decide (c = "-"%char)) as [->|Hc]; [eauto|].
  exfalso. revert H. destruct c as [[] [] [] [] [] [] [] []];
    try (exfalso; apply Hc; reflexivity); apply Hpos.
Qed.

(** X16. A negative number is never taken as a chapter number: its minus
    sign makes the answer a range, and the stage answers that the format of
    the range is invalid. *)
Theorem selection_negative (chapters : list chapter) (selection : string) (k : Z) :
  PyInt.int selection = Ok k -> (k < 0)%Z ->
  select_chapters selection chapters = Rejected "Invalid range format.".
Proof.
  intros Hint Hk. destruct (int_negative _ _ Hint Hk) as [rest Hrest].
  destruct (lstrip_split selection) as (ws & Hs & Hws & Hd). rewrite Hrest in Hs.
  assert (Str.contains_char "-" selection = true) as Hdash.
  { rewrite Hs, contains_char_app. simpl. apply orb_true_r. }
  unfold select_chapters. rewrite bool_decide_eq_false_2.
  2:{ intros Hall. apply lower_all_no_dash in Hall. congruence. }
  rewrite Hdash. rewrite Hs at 1. rewrite split_app_sep, (split_no_sep _ ws) by exact Hd.
  assert (PyInt.int ws = Raise ValueError) as Hw.
  { unfold PyInt.int, Text.strip. rewrite Hws. reflexivity. }
  simpl. destruct (Str.split "-" rest) as [|b [|b' pieces]]; try reflexivity.
  rewrite Hw. reflexivity.
Qed.

Lemma selection_negative_witness :
  select_chapters " -2" sample_listing = Rejected "Invalid range format.".
Proof.
  apply (selection_negative sample_listing " -2" (-2)); [reflexivity|lia].
Defined.

(** X17. The number of concurrent downloads [main] passes on is at least 1,
    whatever is answered, so the executor of the image pool accepts it:
    creating the pool never raises [ValueError]. *)
Theorem read_concurrency_accepted (E : Env) (answer referer chapter_dir
    chapter_title : string) (tasks : list (nat * string)) (d : fs) :
  (1 <= read_concurrency answer)%Z /\
  exists futures d',
    thread_pool E referer chapter_dir chapter_title (read_concurrency answer) tasks d
    = (Ok futures, d').
Proof.
  assert (1 <= read_concurrency answer)%Z as Hk.
  { unfold read_concurrency. destruct (PyInt.int answer) as [n|]; [|lia].
    destruct (n <? 1)%Z eqn:Hn; [lia|]. apply Z.ltb_ge in Hn. exact Hn. }
  split; [exact Hk|]. unfold thread_pool.
  replace (read_concurrency answer <=? 0)%Z with false
    by (symmetry; apply Z.leb_gt; lia).
  eauto.
Qed.

(** ** The chapter download as a whole *)

Lemma download_chapter_body_dir E chapter_url chapter_title chapter_dir K d r d' :
  download_chapter_body E chapter_url chapter_title chapter_dir K d = (Ok r, d') ->
  r.1 = chapter_dir /\ ((K <= 0)%Z -> r.2 = false).
Proof.
  unfold download_chapter_body. rewrite io_lift_bind.
  destruct (browse E _) as [pg|e]; [|discriminate].
  assert (forall els : list (option string),
    (futures ← thread_pool E (urljoin E "https://mangapark.net" chapter_url)
                 chapter_dir chapter_title K (enumerate (omap truthy_src els));
     '(valid_images_count, valid_image_paths) ← assemble chapter_dir futures;
     mret (chapter_dir, bool_decide (0 < valid_images_count))) d = (Ok r, d') ->
    r.1 = chapter_dir /\ ((K <= 0)%Z -> r.2 = false)) as Hpool.
  { intros els. rewrite io_bind_unfold. unfold thread_pool at 1.
    destruct (K <=? 0)%Z eqn:HK; [discriminate|]. apply Z.leb_gt in HK.
    rewrite io_bind_unfold.
    destruct (assemble chapter_dir _ _) as [[[n paths]|e] d2]; [|discriminate].
    intros [= <- <-]. split; [reflexivity|lia]. }
  destruct (img_w_full pg) as [|e1 l1].
  - destruct (main_img pg) as [|e2 l2].
    + rewrite io_bind_unfold. destruct (io_fs _ _ d) as [[[]|e] d1]; [|discriminate].
      intros [= <- <-]. auto.
    + apply Hpool.
  - apply Hpool.
Qed.


Lemma replace_char_facts old new s :
  old <> new ->
  Str.contains_char old (Str.replace_char old new s) = false /\
  String.length (Str.replace_char old new s) = String.length s /\
  forall c, c <> new -> Str.contains_char c s = false ->
            Str.contains_char c (Str.replace_char old new s) = false.
Proof.
  intros Hne. induction s as [|a s (IH1 & IH2 & IH3)]; [auto|]. simpl.
  split; [|split].
  - rewrite IH1, orb_false_r. apply bool_decide_eq_false.
    destruct (decide (a = old)); congruence.
  - rewrite IH2. reflexivity.
  - intros c Hc H. apply orb_false_iff in H as [H1 H2]. rewrite (IH3 c Hc H2), orb_false_r.
    apply bool_decide_eq_false. apply bool_decide_eq_false in H1.
    destruct (decide (a = old)); congruence.
Qed.

(** X19. The directory of a chapter is an entry of [downloads]: the title
    in the path holds none of [/], [\] and [:] and is as long as the title
    given, and for a non-empty title the path names the entry
    [sanitize title] of the directory [downloads]. *)
Theorem chapter_dir_is_entry (chapter_title : string) :
  Str.contains_char "/" (sanitize chapter_title) = false /\
  Str.contains_char "\" (sanitize chapter_title) = false /\
  Str.contains_char ":" (sanitize chapter_title) = false /\
  String.length (sanitize chapter_title) = String.length chapter_title /\
  (chapter_title <> "" ->
   Path.entry_name "downloads" (chapter_dir_of chapter_title)
   = Some (sanitize chapter_title)).
Proof.
  unfold sanitize.
  destruct (replace_char_facts "/" "-" chapter_title ltac:(discriminate))
    as (H1 & L1 & _).
  destruct (replace_char_facts "\" "-" (Str.replace_char "/" "-" chapter_title)
              ltac:(discriminate)) as (H2 & L2 & K2).
  destruct (replace_char_facts ":" "-"
              (Str.replace_char "\" "-" (Str.replace_char "/" "-" chapter_title))
              ltac:(discriminate)) as (H3 & L3 & K3).
  assert (Str.contains_char "/"
            (Str.replace_char ":" "-"
               (Str.replace_char "\" "-" (Str.replace_char "/" "-" chapter_title)))
          = false) as Hslash.
  { apply K3; [discriminate|]. apply K2; [discriminate|]. exact H1. }
  split; [exact Hslash|]. split; [apply K3; [discriminate|exact H2]|].
  split; [exact H3|]. split; [congruence|].
  intros Hne. unfold chapter_dir_of, sanitize.
  set (n := Str.replace_char ":" "-" _) in *.
  rewrite join_no_slash by exact Hslash.
  change (dir_prefix "downloads") with "downloads/".
  unfold Path.entry_name. simpl. rewrite Hslash.
  rewrite bool_decide_eq_false_2; [reflexivity|].
  intros Hn. apply (f_equal String.length) in Hn. simpl in Hn.
  destruct chapter_title; [congruence|]. simpl in *. lia.
Qed.

Lemma download_chapter_dir E chapter_url chapter_title K d :
  exists success d',
    download_chapter_with_selenium E chapter_url chapter_title K d
    = (Ok (chapter_dir_of chapter_title, success), d').
Proof.
  unfold download_chapter_with_selenium, io_try.
  destruct (download_chapter_body E chapter_url chapter_title
              (chapter_dir_of chapter_title) K
              (FS.makedirs (chapter_dir_of chapter_title) d)) as [[r|e] d'] eqn:Hbody.
  - destruct (download_chapter_body_dir _ _ _ _ _ _ _ _ Hbody) as [Hdir _].
    destruct r as [dir success]. simpl in Hdir. subst dir. eauto.
  - eauto.
Qed.

Lemma strip_prefix_app a b c :
  Str.strip_prefix (a +:+ b) (a +:+ c) = Str.strip_prefix b c.
Proof.
  induction a as [|x a IH]; [reflexivity|]. simpl.
  destruct (decide (x = x)); [exact IH|congruence].
Qed.

Lemma below_sibling chapter_dir suffix :
  Str.startswith "/" suffix = false ->
  Path.below chapter_dir (chapter_dir +:+ suffix) = false.
Proof.
  intros Hs. unfold Path.below. rewrite strip_prefix_app.
  destruct suffix as [|c suffix]; [reflexivity|]. simpl in *.
  destruct (decide ("/"%char = c)) as [<-|]; [discriminate|reflexivity].
Qed.

Lemma append_not_self (a b : string) : b <> "" -> a +:+ b <> a.
Proof.
  intros Hb H. apply (f_equal String.length) in H. rewrite length_app_s in H.
  destruct b; [congruence|]. simpl in H. lia.
Qed.


Lemma on_fs_download_dir E chapter_url chapter_title K w :
  exists ok d',
    on_fs (download_chapter_with_selenium E chapter_url chapter_title K) w =
    (Ok (chapter_dir_of chapter_title, ok),
     {| w_fs := d'; w_clock := w_clock w; w_log := w_log w;
        w_progress := w_progress w |}).
Proof.
  unfold on_fs.
  destruct (download_chapter_dir E chapter_url chapter_title K (w_fs w))
    as (ok & d' & ->).
  eauto.
Qed.

Lemma fetch_sequential_result E : forall chapters idx total successful w r w',
  fetch_sequential E chapters idx total successful w = (Ok r, w') ->
  exists kept, sublist kept chapters /\
    r = successful ++ ((fun c => (chapter_dir_of (title c), title c)) <$> kept).
Proof.
  induction chapters as [|c chapters IH]; intros idx total successful w r w'.
  - intros [= <- <-]. exists []. rewrite app_nil_r. split; [constructor|reflexivity].
  - cbn [fetch_sequential].
    rewrite io_bind_unfold. cbn [emit_log]. rewrite io_bind_unfold.
    destruct (on_fs_download_dir E (url c) (title c) 1
                {| w_fs := w_fs w; w_clock := w_clock w;
                   w_log := w_log w ++ [LogChapter idx total (title c)];
                   w_progress := w_progress w |})
      as (ok & d' & ->). cbn [w_clock w_log w_progress].
    rewrite io_bind_unfold. unfold io_lift at 1.
    destruct (scaled _ _ _) as [v|e]; [|discriminate].
    rewrite io_bind_unfold. cbn [emit_progress w_fs w_clock w_log w_progress].
    intros H. apply IH in H as (kept & Hsub & ->). destruct ok.
    + exists (c :: kept). split; [apply sublist_skip, Hsub|].
      rewrite <- app_assoc. reflexivity.
    + exists kept. split; [apply sublist_cons, Hsub|reflexivity].
Qed.

(** X21. In sequential mode, the list the job returns is made of the
    chapters given, in their order, each at most once and none invented: the
    entry of a chapter is its directory [downloads/<sanitized title>] and
    its title. *)
Theorem sequential_job_result (E : Env) (chapters : list chapter) (concurrency : Z)
    (convert_mode : string) (delete_sources : bool) (w w' : world)
    (successful : list (string * string)) :
  run_download_job E chapters false concurrency convert_mode delete_sources w
    = (Ok successful, w') ->
  exists kept, sublist kept chapters /\
    successful =
    (fun c => (Path.join "downloads" (sanitize (title c)), title c)) <$> kept.
Proof.
  unfold run_download_job. destruct chapters as [|c0 chapters0]; [discriminate|].
  set (chapters := c0 :: chapters0).
  rewrite io_bind_unfold. cbn [on_fs]. rewrite io_bind_unfold.
  cbn [emit_log]. rewrite io_bind_unfold. unfold fetch_stage.
  destruct (fetch_sequential E chapters 1 (length chapters) [] _) as [[r|e] w1] eqn:Hf;
    [|discriminate].
  apply fetch_sequential_result in Hf as (kept & Hsub & ->). cbn [app].
  destruct (_ <$> kept) as [|s0 succ] eqn:Hk.
  - rewrite io_bind_unfold. cbn [emit_log]. rewrite io_bind_unfold.
    cbn [emit_progress]. intros [= <- _]. exists [].
    split; [apply sublist_nil_l|reflexivity].
  - rewrite io_bind_unfold.
    destruct (run_conversions _ _ _ _ _ _ _) as [[[]|e] w2]; [|discriminate].
    rewrite io_bind_unfold. cbn [emit_progress]. intros [= <- _].
    exists kept. split; [exact Hsub|]. symmetry. exact Hk.
Qed.

Lemma sequential_job_result_witness :
  exists kept, sublist kept sample_chapters /\
    [("downloads/Chapter 1", "Chapter 1"); ("downloads/Chapter 3", "Chapter 3")] =
    (fun c => (Path.join "downloads" (sanitize (title c)), title c)) <$> kept.
Proof.
  assert ((run_download_job sample_env sample_chapters false 1 "none" false start_world).1
          = Ok [("downloads/Chapter 1", "Chapter 1"); ("downloads/Chapter 3", "Chapter 3")])
    as H1 by (vm_compute; reflexivity).
  apply (sequential_job_result sample_env sample_chapters 1 "none" false start_world
           (run_download_job sample_env sample_chapters false 1 "none" false start_world).2).
  rewrite <- H1. apply surjective_pairing.
Defined.

(** ** What the converters read and write *)

Lemma append_inv_head (a b c : string) : a +:+ b = a +:+ c -> b = c.
Proof. induction a as [|x a IH]; simpl; [auto|]. intros [= H]. auto. Qed.

Lemma listdir_names ok p d names :
  FS.listdir ok p d = Ok names ->
  FS.listdir true p d = Ok names /\
  Forall (fun n => n <> "" /\ no_slash n) names.
Proof.
  unfold FS.listdir. destruct ok; simpl; [|discriminate].
  destruct (FS.isdir p d); [|discriminate]. intros [= <-]. split; [reflexivity|].
  apply Forall_forall. intros n Hn. apply list_elem_of_omap in Hn as (q & _ & Hq).
  unfold Path.entry_name in Hq. destruct (Str.strip_prefix _ q) as [n'|]; [|discriminate].
  destruct (bool_decide (n' = "")) eqn:H1; simpl in Hq; [discriminate|].
  destruct (Str.contains_char "/" n') eqn:H2; [discriminate|].
  injection Hq as <-. apply bool_decide_eq_false in H1. auto.
Qed.

(** An image of the directory is not the archive written beside it. *)
Lemma image_not_output chapter_dir n (eligible : string -> bool) suffix :
  n <> "" -> no_slash n -> eligible n = true -> eligible suffix = false ->
  Str.startswith "/" suffix = false ->
  Path.join chapter_dir n <> chapter_dir +:+ suffix.
Proof.
  intros Hn Hs He Hsuf Hstart H. rewrite join_no_slash in H by exact Hs.
  unfold dir_prefix in H. destruct (bool_decide (chapter_dir = "") || Str.endswith "/" chapter_dir).
  - apply append_inv_head in H. congruence.
  - rewrite app_assoc_s in H. apply append_inv_head in H.
    destruct suffix as [|c suffix]; [discriminate|]. injection H as <- _.
    discriminate.
Qed.

Lemma read_all_spec E paths : forall w members w',
  read_all E paths w = (Ok members, w') ->
  members.*1 = paths /\ w_fs w' = w_fs w /\
  forall m, m ∈ members -> w_fs w !! m.1 = Some (File m.2).
Proof.
  induction paths as [|p paths IH]; intros w members w'; simpl.
  - intros [= <- <-]. split; [reflexivity|]. split; [reflexivity|]. intros m Hm. inversion Hm.
  - rewrite io_bind_unfold. unfold w_read at 1. rewrite guarded_unfold.
    destruct (negb (fault E (w_clock w))); [|discriminate].
    unfold FS.read_file. destruct (w_fs w !! p) as [[|data]|] eqn:Hp; try discriminate.
    rewrite io_bind_unfold.
    destruct (read_all E paths _) as [[more|e] w1] eqn:Hr; [|discriminate].
    apply IH in Hr as (H1 & H2 & H3). cbn [w_fs] in *.
    intros [= <- <-]. split; [rewrite fmap_cons, H1; reflexivity|]. split; [exact H2|].
    intros m Hm. apply elem_of_cons in Hm as [-> | Hm]; [exact Hp|auto].
Qed.

Lemma read_all_fs E paths : forall w r w',
  read_all E paths w = (r, w') -> w_fs w' = w_fs w.
Proof.
  induction paths as [|p paths IH]; intros w r w'; simpl.
  - intros [= <- <-]. reflexivity.
  - rewrite io_bind_unfold. unfold w_read at 1. rewrite guarded_unfold.
    destruct (if negb (fault E (w_clock w)) then _ else _) as [data|e];
      [|intros [= <- <-]; reflexivity].
    rewrite io_bind_unfold.
    destruct (read_all E paths _) as [[more|e] w1] eqn:Hr;
      apply IH in Hr; intros [= <- <-]; exact Hr.
Qed.



Section Frame.
Context (E : Env) (q : string) (v : option node).

Local Abbreviation kept := (fun w : world => w_fs w !! q = v).

Lemma kept_listdir p : preserves kept (w_listdir E p).
Proof.
  intros w H. unfold w_listdir. rewrite guarded_unfold.
  destruct (FS.listdir _ _ _); exact H.
Qed.

Lemma kept_read p : preserves kept (w_read E p).
Proof.
  intros w H. unfold w_read. rewrite guarded_unfold.
  destruct (if negb (fault E (w_clock w)) then _ else _); exact H.
Qed.

Lemma kept_read_all paths : preserves kept (read_all E paths).
Proof.
  induction paths as [|p paths IH]; simpl; [apply pres_ret|].
  apply pres_bind; [apply kept_read|]. intros data.
  apply pres_bind; [exact IH|]. intros more. apply pres_ret.
Qed.

Lemma kept_write p data : p <> q -> preserves kept (w_write E p data).
Proof.
  intros Hp w H. unfold w_write. rewrite guarded_unfold. unfold FS.write_file.
  destruct (_ && _); [|exact H]. cbn [snd w_fs]. rewrite lookup_insert_ne by exact Hp.
  exact H.
Qed.

Lemma kept_create_cbz chapter_dir chapter_title :
  chapter_dir +:+ ".cbz" <> q -> preserves kept (create_cbz E chapter_dir chapter_title).
Proof.
  intros Hq. apply pres_try; [|intros; apply pres_ret]. unfold create_cbz_body.
  apply pres_bind; [apply kept_listdir|]. intros names.
  destruct (List.filter is_cbz_image names); [apply pres_ret|].
  apply pres_bind; [apply kept_write, Hq|]. intros _.
  apply pres_bind; [apply kept_read_all|]. intros members.
  apply pres_bind; [apply kept_write, Hq|]. intros _. apply pres_ret.
Qed.

Lemma kept_create_pdf chapter_dir chapter_title :
  chapter_dir +:+ ".pdf" <> q -> preserves kept (create_pdf E chapter_dir chapter_title).
Proof.
  intros Hq. apply pres_try; [|intros; apply pres_ret]. unfold create_pdf_body.
  apply pres_bind; [apply kept_listdir|]. intros names.
  destruct (List.filter is_pdf_image names); [apply pres_ret|].
  apply pres_bind; [apply kept_write, Hq|]. intros _.
  apply pres_bind; [apply kept_read_all|]. intros pages.
  apply pres_bind; [apply pres_lift|]. intros pdf_bytes.
  apply pres_bind; [|intros; apply pres_ret].
  destruct pdf_bytes; [apply pres_ret|].
  apply pres_bind; [apply kept_write, Hq|]. intros _. apply pres_ret.
Qed.
End Frame.

(** X23. A converter changes the store at its output path only, whether it
    succeeds or fails: [create_cbz] leaves every path but
    [<chapter_dir>.cbz] as it was, [create_pdf] every path but
    [<chapter_dir>.pdf]. The images of the chapter are never modified or
    removed by a conversion. *)
Theorem converters_write_output_only (E : Env) (chapter_dir chapter_title : string)
    (w : world) (q : string) :
  (q <> chapter_dir +:+ ".cbz" ->
   w_fs (create_cbz E chapter_dir chapter_title w).2 !! q = w_fs w !! q) /\
  (q <> chapter_dir +:+ ".pdf" ->
   w_fs (create_pdf E chapter_dir chapter_title w).2 !! q = w_fs w !! q).
Proof.
  split; intros Hq.
  - apply (kept_create_cbz E q (w_fs w !! q)); [congruence|reflexivity].
  - apply (kept_create_pdf E q (w_fs w !! q)); [congruence|reflexivity].
Qed.

(** X24. A conversion to PDF that fails after the output file is opened
    leaves an empty file behind: when the directory lists eligible images
    and [<chapter_dir>.pdf] can be opened for writing, a result [None] means
    that the store holds an empty file at that path. *)
Theorem create_pdf_failure_leaves_empty_file (E : Env)
    (chapter_dir chapter_title : string) (w w' : world) (names : list string) :
  create_pdf E chapter_dir chapter_title w = (Ok None, w') ->
  FS.listdir (negb (fault E (w_clock w))) chapter_dir (w_fs w) = Ok names ->
  List.filter is_pdf_image names <> [] ->
  fault E (S (w_clock w)) = false ->
  FS.isdir (chapter_dir +:+ ".pdf") (w_fs w) = false ->
  w_fs w' = <[chapter_dir +:+ ".pdf" := File []]> (w_fs w).
Proof.
  intros Hrun Hl Hf Hopen Hdir. revert Hrun.
  unfold create_pdf, io_try, create_pdf_body.
  rewrite io_bind_unfold. unfold w_listdir at 1. rewrite guarded_unfold, Hl.
  destruct (List.filter is_pdf_image names) as [|n0 ns]; [congruence|].
  rewrite io_bind_unfold. unfold w_write at 1. rewrite guarded_unfold. cbn [w_fs w_clock].
  unfold FS.write_file at 1. rewrite Hopen, Hdir. cbn [negb andb].
  rewrite io_bind_unfold.
  destruct (read_all E _ _) as [[pages|e] w2] eqn:Hr.
  2:{ intros [= <-]. apply read_all_fs in Hr. exact Hr. }
  apply read_all_fs in Hr. cbn [w_fs] in Hr.
  rewrite io_lift_bind.
  destruct (img2pdf_convert E (pages.*2)) as [pdf_bytes|e]; [|intros [= <-]; exact Hr].
  destruct pdf_bytes as [|b pdf_bytes]; [discriminate|].
  rewrite io_bind_unfold. rewrite io_bind_unfold.
  unfold w_write at 1. rewrite guarded_unfold. unfold FS.write_file at 1.
  destruct (_ && _); [discriminate|]. intros [= <-]. exact Hr.
Qed.

Lemma create_pdf_failure_leaves_empty_file_witness :
  w_fs (create_pdf no_pdf_env "downloads/Chapter 1" "Chapter 1" png_only).2 =
  <["downloads/Chapter 1" +:+ ".pdf" := File []]> (w_fs png_only).
Proof.
  assert ((create_pdf no_pdf_env "downloads/Chapter 1" "Chapter 1" png_only).1 = Ok None)
    as H1 by (vm_compute; reflexivity).
  apply (create_pdf_failure_leaves_empty_file no_pdf_env "downloads/Chapter 1"
           "Chapter 1" png_only _ ["001.png"]).
  - rewrite <- H1. apply surjective_pairing.
  - vm_compute. reflexivity.
  - discriminate.
  - reflexivity.
  - reflexivity.
Defined.

(** X25. When [create_pdf] returns a path, it is [<chapter_dir>.pdf], and
    the file written there is what the encoder gives for the [jpg], [jpeg]
    and [png] files of the directory, each once, in increasing order of
    path, with the bytes the files have; every other path of the store is as
    before. *)
Theorem create_pdf_document (E : Env) (chapter_dir chapter_title : string)
    (w w' : world) (p : string) :
  create_pdf E chapter_dir chapter_title w = (Ok (Some p), w') ->
  exists names pages pdf_bytes,
    FS.listdir true chapter_dir (w_fs w) = Ok names /\
    p = chapter_dir +:+ ".pdf" /\
    pages.*1 ≡ₚ Path.join chapter_dir <$> List.filter is_pdf_image names /\
    Sorted String.le pages.*1 /\
    (forall m, m ∈ pages -> w_fs w !! m.1 = Some (File m.2)) /\
    img2pdf_convert E pages.*2 = Ok pdf_bytes /\
    w_fs w' = <[p := File pdf_bytes]> (w_fs w).
Proof.
  unfold create_pdf, io_try.
  destruct (create_pdf_body E chapter_dir chapter_title w) as [[r|e] w1] eqn:Hbody;
    [|discriminate].
  intros [= -> ->]. revert Hbody. unfold create_pdf_body.
  rewrite io_bind_unfold. unfold w_listdir at 1. rewrite guarded_unfold.
  destruct (FS.listdir _ chapter_dir (w_fs w)) as [names|e] eqn:Hl; [|discriminate].
  apply listdir_names in Hl as [Hl Hnames].
  destruct (List.filter is_pdf_image names) as [|n0 ns] eqn:Hf; [discriminate|].
  clear Hf.
  rewrite io_bind_unfold. unfold w_write at 1. rewrite guarded_unfold. cbn [w_fs w_clock].
  unfold FS.write_file at 1.
  destruct (_ && _); [|discriminate].
  rewrite io_bind_unfold.
  destruct (read_all E _ _) as [[pages|e] w2] eqn:Hr; [|discriminate].
  apply read_all_spec in Hr as (Hm1 & Hm2 & Hm3). cbn [w_fs] in *.
  rewrite io_lift_bind.
  destruct (img2pdf_convert E pages.*2) as [pdf_bytes|e] eqn:Hc; [|discriminate].
  assert (forall m, m ∈ pages -> w_fs w !! m.1 = Some (File m.2)) as Hpages.
  { intros m Hm. specialize (Hm3 m Hm). rewrite lookup_insert_ne in Hm3; [exact Hm3|].
    unfold image_files_of in Hm1.
    assert (m.1 ∈ Path.join chapter_dir <$> List.filter is_pdf_image names) as Hin.
    { rewrite <- (merge_sort_Permutation String.le), <- Hm1.
      apply list_elem_of_fmap. eauto. }
    apply list_elem_of_fmap in Hin as (n & -> & Hn).
    apply list_elem_of_In, filter_In in Hn as [Hn He].
    apply list_elem_of_In in Hn. rewrite Forall_forall in Hnames.
    destruct (Hnames n Hn) as [Hne Hs]. symmetry.
    apply (image_not_output chapter_dir n is_pdf_image ".pdf"); auto. }
  unfold image_files_of in Hm1.
  assert (forall d, w_fs w2 = <[chapter_dir +:+ ".pdf" := File []]> (w_fs w) ->
            d = <[chapter_dir +:+ ".pdf" := File pdf_bytes]> (w_fs w) ->
            exists names0 pages0 pdf_bytes0,
              FS.listdir true chapter_dir (w_fs w) = Ok names0 /\
              chapter_dir +:+ ".pdf" = chapter_dir +:+ ".pdf" /\
              pages0.*1 ≡ₚ Path.join chapter_dir <$> List.filter is_pdf_image names0 /\
              Sorted String.le pages0.*1 /\
              (forall m, m ∈ pages0 -> w_fs w !! m.1 = Some (File m.2)) /\
              img2pdf_convert E pages0.*2 = Ok pdf_bytes0 /\
              d = <[chapter_dir +:+ ".pdf" := File pdf_bytes0]> (w_fs w)) as Hdone.
  { intros d _ ->. exists names, pages, pdf_bytes. split; [exact Hl|].
    split; [reflexivity|]. split; [rewrite Hm1; apply merge_sort_Permutation|].
    split; [rewrite Hm1; apply Sorted_merge_sort, String.le_total|]. auto. }
  destruct pdf_bytes as [|b pdf_bytes].
  - rewrite io_bind_unfold. intros [= <- <-]. apply Hdone; [exact Hm2|]. exact Hm2.
  - rewrite io_bind_unfold. rewrite io_bind_unfold.
    unfold w_write at 1. rewrite guarded_unfold. unfold FS.write_file at 1.
    destruct (_ && _); [|discriminate]. intros [= <- <-]. cbn [w_fs].
    apply Hdone; [exact Hm2|]. rewrite Hm2. apply insert_insert_eq.
Qed.

Lemma create_pdf_document_witness :
  exists names pages pdf_bytes,
    FS.listdir true "downloads/Chapter 1" (w_fs png_only) = Ok names /\
    "downloads/Chapter 1.pdf" = "downloads/Chapter 1" +:+ ".pdf" /\
    pages.*1 ≡ₚ Path.join "downloads/Chapter 1" <$> List.filter is_pdf_image names /\
    Sorted String.le pages.*1 /\
    (forall m, m ∈ pages -> w_fs png_only !! m.1 = Some (File m.2)) /\
    img2pdf_convert sample_env pages.*2 = Ok pdf_bytes /\
    w_fs (create_pdf sample_env "downloads/Chapter 1" "Chapter 1" png_only).2 =
      <["downloads/Chapter 1.pdf" := File pdf_bytes]> (w_fs png_only).
Proof.
  assert ((create_pdf sample_env "downloads/Chapter 1" "Chapter 1" png_only).1
          = Ok (Some "downloads/Chapter 1.pdf")) as H1 by (vm_compute; reflexivity).
  apply (create_pdf_document sample_env "downloads/Chapter 1" "Chapter 1" png_only).
  rewrite <- H1. apply surjective_pairing.
Defined.

(** ** Chapter listing with the browser: the selectors *)

Section SelectorFacts.
Context (E : Env) (W : Site).

Lemma try_selectors_first drv before sel after els :
  Forall (fun s => find_elements drv s = Ok []) before ->
  find_elements drv sel = Ok els -> els <> [] ->
  try_selectors drv (before ++ sel :: after) = Ok els.
Proof.
  intros Hb Hs Hne. induction Hb as [|s before Hs0 _ IH]; simpl.
  - rewrite Hs. simpl. destruct els; [congruence|reflexivity].
  - rewrite Hs0. simpl. exact IH.
Qed.

Lemma try_selectors_none drv sels :
  Forall (fun s => find_elements drv s = Ok []) sels ->
  try_selectors drv sels = Ok [].
Proof.
  induction 1 as [|s sels Hs _ IH]; simpl; [reflexivity|].
  rewrite Hs. simpl. exact IH.
Qed.

(** The first two steps of the browser mode are the loop over all six
    selectors. *)
Lemma get_chapter_info_nsfw_selected manga_url d drv :
  open_browser W manga_url = Ok drv ->
  get_chapter_info E W manga_url true d =
  match try_selectors drv (sel_layout :: selectors_to_try) with
  | Ok [] =>
      let debug_file := Path.join "downloads" "debug_page_selenium.html" in
      let d1 := FS.makedirs "downloads" d in
      (Return None,
       if open_ok E debug_file && negb (FS.isdir debug_file d1)
       then <[debug_file := File (driver_page_source drv)]> d1 else d1)
  | Ok els =>
      (Return (Some (rev (unique_by_url
                            (omap (element_chapter E manga_url) els) ∅ []))), d)
  | Raise _ => (Return None, d)
  end.
Proof.
  intros Hb.
  unfold get_chapter_info, xio_io, io_try, get_chapter_info_nsfw_body.
  rewrite io_lift_bind, Hb. rewrite io_lift_bind.
  cbn [try_selectors].
  destruct (find_elements drv sel_layout) as [[|el els]|e]; [| |reflexivity].
  - rewrite io_lift_bind. change (Ok [] ≫= ?k) with (k []). cbv beta iota.
    destruct (try_selectors drv selectors_to_try) as [[|el els]|e]; [| |reflexivity].
    + unfold mbind, io_bind, io_fs, FS.write_file. cbv zeta.
      destruct (_ && _); reflexivity.
    + rewrite collect_elements_omap. reflexivity.
  - change (Ok (el :: els) ≫= ?k) with (k (el :: els)). cbv beta iota.
    rewrite io_bind_unfold.
    change ((mret (el :: els) : io fs (list element)) d) with (Ok (el :: els), d).
    cbv beta iota.
    rewrite collect_elements_omap. reflexivity.
Qed.
End SelectorFacts.

(** X26. With the browser, when none of the six selectors finds an element
    the listing returns [None], and the page source has been written to
    [downloads/debug_page_selenium.html] if that file could be written; a
    failure to write it is absorbed, leaving only the directory
    [downloads]. *)
Theorem nsfw_no_elements_debug_page (E : Env) (W : Site) (manga_url : string)
    (d : fs) (drv : driver) :
  open_browser W manga_url = Ok drv ->
  (forall sel, find_elements drv sel = Ok []) ->
  let debug_file := "downloads/debug_page_selenium.html" in
  let d1 := FS.makedirs "downloads" d in
  get_chapter_info E W manga_url true d =
  (Return None,
   if open_ok E debug_file && negb (FS.isdir debug_file d1)
   then <[debug_file := File (driver_page_source drv)]> d1 else d1).
Proof.
  intros Hb Hnone debug_file d1.
  rewrite (get_chapter_info_nsfw_selected E W manga_url d drv Hb).
  rewrite try_selectors_none; [reflexivity|].
  apply Forall_forall. intros s _. apply Hnone.
Qed.

Lemma nsfw_no_elements_debug_page_witness :
  get_chapter_info sample_env blank_site sample_manga_url true ∅ =
  (Return None,
   if open_ok sample_env "downloads/debug_page_selenium.html"
      && negb (FS.isdir "downloads/debug_page_selenium.html" (FS.makedirs "downloads" ∅))
   then <["downloads/debug_page_selenium.html" := File [Byte.x3c; Byte.x3e]]>
          (FS.makedirs "downloads" ∅)
   else FS.makedirs "downloads" ∅).
Proof.
  apply (nsfw_no_elements_debug_page sample_env blank_site sample_manga_url ∅
           {| find_elements := fun _ => Ok []; driver_page_source := [Byte.x3c; Byte.x3e] |}).
  - reflexivity.
  - intros sel. reflexivity.
Defined.

(** X27. With the browser, the listing is made from the elements of the
    first selector, in the order of the code, that finds any; the selectors
    after it are not consulted, so neither what they would find nor their
    failure matters. The list returned is these elements' chapters
    bottom-up, a chapter being listed exactly when it is the first of them
    with its URL; the store is unchanged. *)
Theorem selector_priority (E : Env) (W : Site) (manga_url : string) (d : fs)
    (drv : driver) (before after : list selector) (sel : selector)
    (els : list element) :
  open_browser W manga_url = Ok drv ->
  sel_layout :: selectors_to_try = before ++ sel :: after ->
  Forall (fun s => find_elements drv s = Ok []) before ->
  find_elements drv sel = Ok els -> els <> [] ->
  let links := omap (element_chapter E manga_url) els in
  exists chapters,
    get_chapter_info E W manga_url true d = (Return (Some chapters), d) /\
    sublist (rev chapters) links /\
    forall c, c ∈ chapters <-> first_with_url links c.
Proof.
  intros Hb Hsels Hbefore Hsel Hne links.
  exists (rev (unique_by_url links ∅ [])). split; [|split].
  - rewrite (get_chapter_info_nsfw_selected E W manga_url d drv Hb), Hsels.
    rewrite (try_selectors_first drv before sel after els Hbefore Hsel Hne).
    destruct els; [congruence|reflexivity].
  - rewrite rev_involutive. apply unique_by_url_sublist.
  - intros c. rewrite elem_of_rev, unique_by_url_elem. unfold first_with_url.
    split.
    + intros (l1 & l2 & H1 & _ & H2). eauto.
    + intros (l1 & l2 & H1 & H2). exists l1, l2. split; [exact H1|].
      split; [apply not_elem_of_empty|exact H2].
Qed.

Lemma selector_priority_witness :
  exists chapters,
    get_chapter_info sample_env sample_site sample_manga_url true ∅
      = (Return (Some chapters), ∅) /\
    sublist (rev chapters) (omap (element_chapter sample_env sample_manga_url) sample_elements) /\
    forall c, c ∈ chapters <->
      first_with_url (omap (element_chapter sample_env sample_manga_url) sample_elements) c.
Proof.
  apply (selector_priority sample_env sample_site sample_manga_url ∅
           {| find_elements := fun sel =>
                match sel with
                | sel_c => Ok sample_elements
                | _ => Ok []
                end;
              driver_page_source := [] |}
           [sel_layout; sel_title_chapter] [sel_chapter_list; sel_mal_sync; sel_chapter]
           sel_c sample_elements).
  - reflexivity.
  - reflexivity.
  - repeat constructor.
  - reflexivity.
  - discriminate.
Defined.

Local Close Scope nat_scope.
